(** * Concurrent ingestion engine: rate limiter, dedup ledger, worker pool

    A shallow embedding of [rate_limiter.py], [data_tracker.py] and
    [worker_pool.py], with the properties of the engine stated and proved
    over it.

    Conventions of the embedding.
    - Python [int] is [Z]; [float] seconds are rationals [Q] (rounding is
      not modelled); [str] is [string]; [dict] is [gmap]; [set] is [gset].
    - A method that can raise returns a [Result]; the receiver object is
      passed in and returned (explicit state passing).
    - Objects that are handed out and shared (limiters and trackers of a
      registry, tasks of a queue) live in a store and are named by their
      address.
    - The wall clock, handlers and the other effects of the environment
      are section variables over an abstract [World]. *)

From Stdlib Require Import ZArith QArith Qminmax Lqa Lia List.
From Stdlib Require Import DecimalString DecimalNat.
From stdpp Require Import gmap strings list sorting functions.

Local Open Scope Z_scope.
#[local] Set Warnings "-clear-no-such-hyp".

(** ** Exceptions and results *)

Inductive Exn :=
| ValueError (msg : string)
| IndexError (msg : string)
| AttributeError (msg : string)
| OperationalError (msg : string).

Inductive Result (A : Type) :=
| Ok (a : A)
| Raise (e : Exn).
Arguments Ok {A} a.
Arguments Raise {A} e.

(** Comparisons of floats, as booleans. *)
Definition Qgtb (a b : Q) : bool := negb (Qle_bool a b).

(** Python's [max(a, b)]: the first argument unless the second is
    strictly greater. *)
Definition py_max (a b : Q) : Q := if Qgtb b a then b else a.

Lemma Qgtb_true a b : Qgtb a b = true <-> (b < a)%Q.
Proof.
  unfold Qgtb. rewrite negb_true_iff, <- not_true_iff_false, Qle_bool_iff.
  split; [apply Qnot_le_lt | apply Qlt_not_le].
Qed.

Lemma Qgtb_false a b : Qgtb a b = false <-> (a <= b)%Q.
Proof.
  unfold Qgtb. rewrite negb_false_iff. apply Qle_bool_iff.
Qed.

Lemma py_max_spec a b : (py_max a b == Qmax a b)%Q.
Proof.
  unfold py_max. destruct (Qgtb b a) eqn:E.
  - apply Qgtb_true in E. symmetry. apply Q.max_r. lra.
  - apply Qgtb_false in E. symmetry. apply Q.max_l. exact E.
Qed.

(** ** rate_limiter.py *)

Module rate_limiter.

Record RateLimiter := mkRateLimiter {
  requests_per_hour : Z;
  requests_per_minute : Z;
  hour_window : list Q;
  minute_window : list Q;
  total_requests : Z;
  total_throttled : Z
}.

(** [RateLimiter.__init__]: the two limits are stored as given. *)
Definition __init__ (requests_per_hour requests_per_minute : Z)
  : Result RateLimiter :=
  Ok {| requests_per_hour := requests_per_hour;
        requests_per_minute := requests_per_minute;
        hour_window := [];
        minute_window := [];
        total_requests := 0;
        total_throttled := 0 |}.

(** The [while window and (current_time - window[0]) > max_age] loop. *)
Fixpoint popleft_while_old (current_time max_age : Q) (window : list Q)
  : list Q :=
  match window with
  | [] => []
  | t :: rest =>
      if Qgtb (current_time - t) max_age
      then popleft_while_old current_time max_age rest
      else window
  end.

Section Clock.

Variable World : Type.
(** [time.time()] and [time.sleep(d)]. *)
Variable time_time : World -> Q * World.
Variable time_sleep : Q -> World -> World.

Definition _clean_window (window : list Q) (max_age : Q) (w : World)
  : list Q * World :=
  let (current_time, w') := time_time w in
  (popleft_while_old current_time max_age window, w').

(** The state of [wait_if_needed] after the two evictions: the time
    sampled on entry, the hour window, the minute window, the world. *)
Definition after_eviction (self : RateLimiter) (w : World)
  : Q * list Q * list Q * World :=
  let (current_time, w1) := time_time w in
  let (hw, w2) := _clean_window (hour_window self) 3600 w1 in
  let (mw, w3) := _clean_window (minute_window self) 60 w2 in
  (current_time, hw, mw, w3).

(** [window[0]]: raises [IndexError] on an empty deque. *)
Definition window_first (window : list Q) : Result Q :=
  match window with
  | [] => Raise (IndexError "deque index out of range")
  | t :: _ => Ok t
  end.

(** One constraint check: [if len(window) >= limit: wait_time =
    max(wait_time, span - (current_time - window[0]))]. *)
Definition check_limit (window : list Q) (limit : Z) (span current_time : Q)
    (wait_time : Q) : Result Q :=
  if Z.of_nat (length window) >=? limit then
    match window_first window with
    | Ok oldest => Ok (py_max wait_time (span - (current_time - oldest)))
    | Raise e => Raise e
    end
  else Ok wait_time.

(** [wait_if_needed]: the wait returned (or the exception), the limiter
    and the world afterwards. The evictions have taken place when the
    exception is raised. *)
Definition wait_if_needed (self : RateLimiter) (w : World)
  : Result Q * RateLimiter * World :=
  let '(current_time, hw, mw, w3) := after_eviction self w in
  let cleaned :=
    {| requests_per_hour := requests_per_hour self;
       requests_per_minute := requests_per_minute self;
       hour_window := hw;
       minute_window := mw;
       total_requests := total_requests self;
       total_throttled := total_throttled self |} in
  match check_limit mw (requests_per_minute self) 60 current_time 0 with
  | Raise e => (Raise e, cleaned, w3)
  | Ok wait_minute =>
      match check_limit hw (requests_per_hour self) 3600 current_time
              wait_minute with
      | Raise e => (Raise e, cleaned, w3)
      | Ok wait_time =>
          let throttled := Qgtb wait_time 0 in
          let (current_time', w5) :=
            if throttled then time_time (time_sleep wait_time w3)
            else (current_time, w3) in
          (Ok wait_time,
           {| requests_per_hour := requests_per_hour self;
              requests_per_minute := requests_per_minute self;
              hour_window := hw ++ [current_time'];
              minute_window := mw ++ [current_time'];
              total_requests := total_requests self + 1;
              total_throttled :=
                if throttled then total_throttled self + 1
                else total_throttled self |},
           w5)
      end
  end.

Definition reset (self : RateLimiter) : RateLimiter :=
  {| requests_per_hour := requests_per_hour self;
     requests_per_minute := requests_per_minute self;
     hour_window := [];
     minute_window := [];
     total_requests := 0;
     total_throttled := 0 |}.

End Clock.

(** *** RateLimiterManager

    The dictionary [limiters] holds references: the limiters live in a
    store and the manager maps a name to an address of the store. *)

Record RateLimiterManager := mkManager {
  limiters : gmap string nat
}.

Definition Manager__init__ : RateLimiterManager := {| limiters := ∅ |}.

Definition get_or_create (name : string)
    (requests_per_hour requests_per_minute : Z)
    (self : RateLimiterManager) (store : list RateLimiter)
  : Result (nat * RateLimiterManager * list RateLimiter) :=
  match limiters self !! name with
  | Some addr => Ok (addr, self, store)
  | None =>
      match __init__ requests_per_hour requests_per_minute with
      | Raise e => Raise e
      | Ok fresh =>
          let addr := length store in
          Ok (addr, {| limiters := <[name := addr]> (limiters self) |},
              store ++ [fresh])
      end
  end.

(** A sequence of [get_or_create] calls, each with its own name and
    limits; the addresses returned are dropped. *)
Fixpoint get_or_create_all (calls : list (string * Z * Z))
    (self : RateLimiterManager) (store : list RateLimiter)
  : Result (RateLimiterManager * list RateLimiter) :=
  match calls with
  | [] => Ok (self, store)
  | (name, rph, rpm) :: calls' =>
      match get_or_create name rph rpm self store with
      | Raise e => Raise e
      | Ok (_, self', store') => get_or_create_all calls' self' store'
      end
  end.

(** *** Statistics *)

Record LimiterStats := mkLimiterStats {
  st_total_requests : Z;
  st_total_throttled : Z;
  current_hour_count : Z;
  current_minute_count : Z;
  requests_per_hour_limit : Z;
  requests_per_minute_limit : Z
}.

Definition get_stats (self : RateLimiter) : LimiterStats :=
  {| st_total_requests := total_requests self;
     st_total_throttled := total_throttled self;
     current_hour_count := Z.of_nat (length (hour_window self));
     current_minute_count := Z.of_nat (length (minute_window self));
     requests_per_hour_limit := requests_per_hour self;
     requests_per_minute_limit := requests_per_minute self |}.

(** [RateLimiterManager.get_all_stats]: the statistics of every limiter
    of the dictionary, under its name. *)
Definition get_all_stats (self : RateLimiterManager)
    (store : list RateLimiter) : gmap string LimiterStats :=
  omap (fun addr => get_stats <$> store !! addr) (limiters self).

End rate_limiter.

(** ** Properties of the rate limiter *)

Module rate_limiter_props.
Import rate_limiter.

Section Clock.

Variable World : Type.
Variable time_time : World -> Q * World.
Variable time_sleep : Q -> World -> World.

(** Two successive samples of the clock do not go backwards. *)
Definition clock_monotone : Prop :=
  forall w, (fst (time_time w) <= fst (time_time (snd (time_time w))))%Q.

Lemma popleft_while_old_head current_time max_age window oldest :
  head (popleft_while_old current_time max_age window) = Some oldest ->
  (current_time - oldest <= max_age)%Q.
Proof.
  induction window as [|t rest IH]; simpl; [discriminate|].
  destruct (Qgtb (current_time - t) max_age) eqn:E; [exact IH|].
  simpl. intros [= <-]. apply Qgtb_false. exact E.
Qed.

Lemma after_eviction_ages self w current_time hw mw w3 :
  clock_monotone ->
  after_eviction World time_time self w = (current_time, hw, mw, w3) ->
  (forall oldest, head hw = Some oldest -> (current_time - oldest <= 3600)%Q)
  /\ (forall oldest, head mw = Some oldest -> (current_time - oldest <= 60)%Q).
Proof.
  intros Hmono. unfold after_eviction, _clean_window.
  pose proof (Hmono w) as H1.
  destruct (time_time w) as [t1 w1]. simpl in H1.
  pose proof (Hmono w1) as H2.
  destruct (time_time w1) as [t2 w2]. simpl in H1, H2.
  destruct (time_time w2) as [t3 w3']. simpl in H2.
  intros [= <- <- <- <-]. split; intros oldest Hhd;
    apply popleft_while_old_head in Hhd; lra.
Qed.

(** C3. When both windows are at capacity after the evictions,
    [wait_if_needed] returns the larger of the two constraint waits,
    [60 - age] of the oldest minute entry and [3600 - age] of the oldest
    hour entry; that same duration is what it hands to [time.sleep]; and
    it is below the sum of the two waits whenever both are positive. *)
Theorem wait_if_needed_is_max_of_waits
    self w current_time hw mw w3 oldest_minute oldest_hour :
  clock_monotone ->
  after_eviction World time_time self w = (current_time, hw, mw, w3) ->
  head mw = Some oldest_minute ->
  head hw = Some oldest_hour ->
  Z.of_nat (length mw) >= requests_per_minute self ->
  Z.of_nat (length hw) >= requests_per_hour self ->
  let wait_minute := (60 - (current_time - oldest_minute))%Q in
  let wait_hour := (3600 - (current_time - oldest_hour))%Q in
  exists waited self' w',
    wait_if_needed World time_time time_sleep self w = (Ok waited, self', w')
    /\ (waited == Qmax wait_minute wait_hour)%Q
    /\ w' = (if Qgtb waited 0
             then snd (time_time (time_sleep waited w3)) else w3)
    /\ ((0 < wait_minute)%Q -> (0 < wait_hour)%Q ->
        (waited < wait_minute + wait_hour)%Q).
Proof.
  intros Hmono Hev Hm Hh Hlm Hlh wait_minute wait_hour.
  destruct (after_eviction_ages _ _ _ _ _ _ Hmono Hev) as [Hage_h Hage_m].
  specialize (Hage_h _ Hh). specialize (Hage_m _ Hm).
  unfold wait_if_needed. rewrite Hev. unfold check_limit.
  destruct mw as [|m0 mw']; [discriminate|]. injection Hm as ->.
  destruct hw as [|h0 hw']; [discriminate|]. injection Hh as ->.
  apply Z.geb_ge in Hlm as ->. apply Z.geb_ge in Hlh as ->. cbn [window_first].
  fold wait_minute wait_hour.
  set (waited := py_max (py_max 0 wait_minute) wait_hour).
  assert (Hw : (waited == Qmax wait_minute wait_hour)%Q).
  { unfold waited. rewrite !py_max_spec.
    rewrite (Q.max_r 0 wait_minute) by (unfold wait_minute; lra).
    reflexivity. }
  exists waited.
  destruct (Qgtb waited 0) eqn:Ethr.
  - destruct (time_time (time_sleep waited w3)) as [t' w'] eqn:Et.
    eexists _, _. split; [reflexivity|]. split; [exact Hw|].
    split; [reflexivity|].
    intros Hpm Hph. rewrite Hw. apply Q.max_lub_lt; lra.
  - eexists _, _. split; [reflexivity|]. split; [exact Hw|].
    split; [reflexivity|].
    intros Hpm Hph. rewrite Hw. apply Q.max_lub_lt; lra.
Qed.

(** *** Eviction *)

Lemma popleft_while_old_split current_time max_age window :
  exists old,
    window = old ++ popleft_while_old current_time max_age window
    /\ Forall (fun t => (max_age < current_time - t)%Q) old.
Proof.
  induction window as [|t rest (old & Hsplit & Hold)]; simpl.
  - exists []. split; [reflexivity | constructor].
  - destruct (Qgtb (current_time - t) max_age) eqn:E.
    + exists (t :: old). split; [simpl; congruence|].
      constructor; [apply Qgtb_true; exact E | exact Hold].
    + exists []. split; [reflexivity | constructor].
Qed.

(** X1. [_clean_window] removes a prefix of the window, every entry of
    which is older than [max_age] at the time sampled; when the window
    is in chronological order, no entry older than [max_age] is left. *)
Theorem clean_window_evicts_exactly_the_old window max_age w :
  StronglySorted Qle window ->
  let current_time := fst (time_time w) in
  let cleaned := fst (_clean_window World time_time window max_age w) in
  (exists old,
     window = old ++ cleaned
     /\ Forall (fun t => (max_age < current_time - t)%Q) old)
  /\ Forall (fun t => (current_time - t <= max_age)%Q) cleaned.
Proof.
  intros Hsorted. cbv zeta. unfold _clean_window.
  destruct (time_time w) as [ct w']. cbn [fst].
  split; [apply popleft_while_old_split|].
  induction Hsorted as [|t rest Hs IH Hle]; simpl; [constructor|].
  destruct (Qgtb (ct - t) max_age) eqn:E; [exact IH|].
  apply Qgtb_false in E. constructor; [exact E|].
  eapply Forall_impl; [|exact Hle]. intros x Hx. cbv beta in *. lra.
Qed.

Lemma popleft_while_old_length current_time max_age window :
  (length (popleft_while_old current_time max_age window)
   <= length window)%nat.
Proof.
  destruct (popleft_while_old_split current_time max_age window)
    as (old & Hsplit & _).
  rewrite Hsplit at 2. rewrite length_app. lia.
Qed.

Lemma popleft_while_old_suffix current_time max_age window :
  popleft_while_old current_time max_age window `suffix_of` window.
Proof.
  destruct (popleft_while_old_split current_time max_age window)
    as (old & Hsplit & _).
  exists old. exact Hsplit.
Qed.

Lemma after_eviction_lengths self w current_time hw mw w3 :
  after_eviction World time_time self w = (current_time, hw, mw, w3) ->
  (length hw <= length (hour_window self))%nat
  /\ (length mw <= length (minute_window self))%nat.
Proof.
  unfold after_eviction, _clean_window.
  destruct (time_time w) as [t1 w1], (time_time w1) as [t2 w2],
    (time_time w2) as [t3 w3'].
  intros [= <- <- <- <-]. split; apply popleft_while_old_length.
Qed.

(** *** Calls that do not wait *)

(** A caller making [n] calls of [wait_if_needed] in a row. *)
Fixpoint wait_n (n : nat) (self : RateLimiter) (w : World)
  : list (Result Q) * RateLimiter * World :=
  match n with
  | O => ([], self, w)
  | S n' =>
      let '(r, self1, w1) :=
        wait_if_needed World time_time time_sleep self w in
      let '(rs, self2, w2) := wait_n n' self1 w1 in
      (r :: rs, self2, w2)
  end.

Lemma wait_if_needed_below_limits self w :
  Z.of_nat (length (hour_window self)) < requests_per_hour self ->
  Z.of_nat (length (minute_window self)) < requests_per_minute self ->
  exists self' w',
    wait_if_needed World time_time time_sleep self w = (Ok 0%Q, self', w')
    /\ requests_per_hour self' = requests_per_hour self
    /\ requests_per_minute self' = requests_per_minute self
    /\ total_requests self' = total_requests self + 1
    /\ total_throttled self' = total_throttled self
    /\ (length (hour_window self') <= S (length (hour_window self)))%nat
    /\ (length (minute_window self') <= S (length (minute_window self)))%nat.
Proof.
  intros Hh Hm. unfold wait_if_needed.
  destruct (after_eviction World time_time self w) as [[[ct hw] mw] w3] eqn:Hev.
  destruct (after_eviction_lengths _ _ _ _ _ _ Hev) as [Hlh Hlm].
  unfold check_limit.
  destruct (Z.geb_spec (Z.of_nat (length mw)) (requests_per_minute self));
    [lia|].
  destruct (Z.geb_spec (Z.of_nat (length hw)) (requests_per_hour self));
    [lia|].
  change (Qgtb 0 0) with false. cbv iota.
  eexists _, _. split; [reflexivity|]. cbn.
  rewrite !length_app. simpl length.
  repeat split; try reflexivity; lia.
Qed.

(** [n] calls in a row on a limiter with room for [n] entries. *)
Lemma wait_n_below_limits n : forall self w,
  Z.of_nat (length (hour_window self)) + Z.of_nat n
    <= requests_per_hour self ->
  Z.of_nat (length (minute_window self)) + Z.of_nat n
    <= requests_per_minute self ->
  exists self' w',
    wait_n n self w = (repeat (Ok 0%Q) n, self', w')
    /\ total_requests self' = total_requests self + Z.of_nat n
    /\ total_throttled self' = total_throttled self
    /\ requests_per_hour self' = requests_per_hour self
    /\ requests_per_minute self' = requests_per_minute self.
Proof.
  induction n as [|n IH]; intros self w Hh Hm.
  - exists self, w. simpl. repeat split; lia.
  - destruct (wait_if_needed_below_limits self w)
      as (self1 & w1 & Hw & Hrph & Hrpm & Htot & Hthr & Hlh & Hlm);
      [lia | lia |].
    destruct (IH self1 w1) as (self2 & w2 & Hn & Htot2 & Hthr2 & Hrph2 & Hrpm2);
      [rewrite Hrph; lia | rewrite Hrpm; lia |].
    exists self2, w2. cbn [wait_n repeat]. rewrite Hw, Hn.
    repeat split; try congruence; lia.
Qed.

(** X2. A limiter with room for [n] more entries in both windows lets
    [n] calls in a row pass without waiting: each returns [0], none
    sleeps or is counted as throttled, and [total_requests] grows by
    [n]. This holds in particular for the first [min(per_minute,
    per_hour)] calls on a new or reset limiter. *)
Theorem wait_n_within_budget n : forall self w,
  Z.of_nat (length (hour_window self)) + Z.of_nat n
    <= requests_per_hour self ->
  Z.of_nat (length (minute_window self)) + Z.of_nat n
    <= requests_per_minute self ->
  exists self' w',
    wait_n n self w = (repeat (Ok 0%Q) n, self', w')
    /\ total_requests self' = total_requests self + Z.of_nat n
    /\ total_throttled self' = total_throttled self
    /\ requests_per_hour self' = requests_per_hour self
    /\ requests_per_minute self' = requests_per_minute self.
Proof. exact (wait_n_below_limits n). Qed.

(** X3. [reset] gives back the whole budget, whatever the state was:
    the next [n] calls, for [n] up to both limits, return [0] without
    sleeping, and the counters restart from zero. *)
Theorem reset_restores_budget n self w :
  Z.of_nat n <= requests_per_hour self ->
  Z.of_nat n <= requests_per_minute self ->
  exists self' w',
    wait_n n (reset self) w = (repeat (Ok 0%Q) n, self', w')
    /\ total_requests self' = Z.of_nat n
    /\ total_throttled self' = 0
    /\ requests_per_hour self' = requests_per_hour self
    /\ requests_per_minute self' = requests_per_minute self.
Proof.
  intros Hh Hm.
  destruct (wait_n_below_limits n (reset self) w)
    as (self' & w' & Hn & Htot & Hthr & Hrph & Hrpm); simpl; try lia.
  exists self', w'. simpl in *. repeat split; try assumption; lia.
Qed.

(** *** The minute window inside the hour window *)

Lemma popleft_while_old_nested t2 t3 (mw : list Q) : forall k,
  (t2 <= t3)%Q ->
  popleft_while_old t3 60 mw `suffix_of` popleft_while_old t2 3600 (k ++ mw).
Proof.
  intros k Hle. induction k as [|y k IH]; simpl.
  - induction mw as [|x rest IH]; simpl; [reflexivity|].
    destruct (Qgtb (t2 - x) 3600) eqn:E2.
    + apply Qgtb_true in E2.
      assert (E3 : Qgtb (t3 - x) 60 = true) by (apply Qgtb_true; lra).
      rewrite E3. exact IH.
    + apply (popleft_while_old_suffix t3 60 (x :: rest)).
  - destruct (Qgtb (t2 - y) 3600); [exact IH|].
    apply suffix_cons_r, suffix_app_r, popleft_while_old_suffix.
Qed.

(** X4. With a clock that does not go backwards, every call of
    [wait_if_needed], returning or raising, keeps the minute window a
    suffix of the hour window; so the minute count of [get_stats] never
    exceeds the hour count. The windows of a new or reset limiter are
    both empty. *)
Theorem minute_window_stays_inside_hour_window self w :
  clock_monotone ->
  minute_window self `suffix_of` hour_window self ->
  let self' := snd (fst (wait_if_needed World time_time time_sleep self w)) in
  minute_window self' `suffix_of` hour_window self'
  /\ current_minute_count (get_stats self')
     <= current_hour_count (get_stats self').
Proof.
  intros Hmono [k Hk]. cbv zeta.
  assert (Hgoal : forall self' : RateLimiter,
    minute_window self' `suffix_of` hour_window self' ->
    minute_window self' `suffix_of` hour_window self'
    /\ current_minute_count (get_stats self')
       <= current_hour_count (get_stats self')).
  { intros self' Hs. split; [exact Hs|]. simpl.
    apply suffix_length in Hs. lia. }
  apply Hgoal. unfold wait_if_needed.
  destruct (after_eviction World time_time self w) as [[[ct hw] mw] w3] eqn:Hev.
  assert (Hsuf : mw `suffix_of` hw).
  { unfold after_eviction, _clean_window in Hev.
    pose proof (Hmono (snd (time_time w))) as H23.
    destruct (time_time w) as [t1 w1]. cbn [snd] in H23.
    destruct (time_time w1) as [t2 w2]. cbn [fst snd] in H23.
    destruct (time_time w2) as [t3 w3']. cbn [fst] in H23.
    injection Hev as _ <- <- _. rewrite Hk.
    apply popleft_while_old_nested. exact H23. }
  destruct (check_limit mw _ _ _ _) as [wm|e]; [|exact Hsuf].
  destruct (check_limit hw _ _ _ _) as [wt|e]; [|exact Hsuf].
  destruct (Qgtb wt 0);
    [destruct (time_time (time_sleep wt w3)) as [ct' w5]|];
    cbn; apply suffix_app; exact Hsuf.
Qed.

(** *** Bounds on the wait *)

Lemma check_limit_bounds window limit span current_time wait_time bound r :
  check_limit window limit span current_time wait_time = Ok r ->
  (0 <= wait_time <= bound)%Q ->
  (bound <= span)%Q ->
  (forall oldest, head window = Some oldest ->
     (current_time - oldest <= span)%Q /\ (oldest <= current_time)%Q) ->
  (0 <= r <= span)%Q
  /\ (Z.of_nat (length window) < limit -> r = wait_time).
Proof.
  unfold check_limit. intros Hc Hw Hb Hold.
  destruct (Z.geb_spec (Z.of_nat (length window)) limit).
  - destruct window as [|oldest rest]; [discriminate|]. cbn in Hc.
    injection Hc as <-. destruct (Hold oldest eq_refl) as [H1 H2].
    split; [|lia]. unfold py_max.
    destruct (Qgtb (span - (current_time - oldest)) wait_time) eqn:E;
      [apply Qgtb_true in E | apply Qgtb_false in E]; lra.
  - injection Hc as <-. split; [lra | reflexivity].
Qed.

(** X5. With a clock that does not go backwards and windows whose
    entries are not in the future, the wait that [wait_if_needed]
    returns is never negative and never more than an hour; it is at
    most a minute when the hour window has room. *)
Theorem wait_is_between_zero_and_an_hour self w waited self' w' :
  clock_monotone ->
  Forall (fun t => (t <= fst (time_time w))%Q) (hour_window self) ->
  Forall (fun t => (t <= fst (time_time w))%Q) (minute_window self) ->
  wait_if_needed World time_time time_sleep self w = (Ok waited, self', w') ->
  (0 <= waited <= 3600)%Q
  /\ (Z.of_nat (length (hour_window self)) < requests_per_hour self ->
      (waited <= 60)%Q).
Proof.
  intros Hmono Hpast_h Hpast_m. unfold wait_if_needed.
  destruct (after_eviction World time_time self w) as [[[ct hw] mw] w3] eqn:Hev.
  destruct (after_eviction_ages _ _ _ _ _ _ Hmono Hev) as [Hage_h Hage_m].
  destruct (after_eviction_lengths _ _ _ _ _ _ Hev) as [Hlh _].
  assert (Hin : ct = fst (time_time w)
                /\ hw `suffix_of` hour_window self
                /\ mw `suffix_of` minute_window self).
  { unfold after_eviction, _clean_window in Hev.
    destruct (time_time w) as [t1 w1], (time_time w1) as [t2 w2],
      (time_time w2) as [t3 w3'].
    injection Hev as <- <- <- _.
    split; [reflexivity|]. split; apply popleft_while_old_suffix. }
  destruct Hin as (Hct & [kh Hkh] & [km Hkm]).
  assert (Hhead : forall (window cleaned k : list Q) oldest,
            window = k ++ cleaned ->
            Forall (fun t => (t <= fst (time_time w))%Q) window ->
            head cleaned = Some oldest -> (oldest <= ct)%Q).
  { intros window cleaned k oldest -> Hall Hhd.
    destruct cleaned as [|x rest]; [discriminate|]. injection Hhd as ->.
    apply Forall_app in Hall as [_ Hall]. inversion Hall; subst.
    assumption. }
  destruct (check_limit mw _ _ _ _) as [wm|e] eqn:Hcm; [|discriminate].
  destruct (check_limit hw _ _ _ _) as [wt|e] eqn:Hch; [|discriminate].
  destruct (check_limit_bounds _ _ _ _ _ 0%Q _ Hcm) as [Hwm _];
    [lra | lra | |].
  { intros o Ho. split; [apply Hage_m; exact Ho|].
    exact (Hhead _ _ _ _ Hkm Hpast_m Ho). }
  destruct (check_limit_bounds _ _ _ _ _ 60%Q _ Hch) as [Hwt Hsame];
    [lra | lra | |].
  { intros o Ho. split; [apply Hage_h; exact Ho|].
    exact (Hhead _ _ _ _ Hkh Hpast_h Ho). }
  destruct (Qgtb wt 0);
    [destruct (time_time (time_sleep wt w3)) as [ct' w5]|];
    intros [= <- _ _]; (split; [exact Hwt|]); intros Hroom;
    rewrite Hsame by lia; lra.
Qed.

(** *** Limits that are not positive *)

(** X6. A limiter whose windows are empty and one of whose limits is
    zero or negative raises [IndexError] on [wait_if_needed]: it grants
    nothing and records no request. (The constructor accepts such
    limits.) *)
Theorem nonpositive_limit_raises_index_error self w :
  hour_window self = [] ->
  minute_window self = [] ->
  requests_per_minute self <= 0 \/ requests_per_hour self <= 0 ->
  exists self' w',
    wait_if_needed World time_time time_sleep self w
    = (Raise (IndexError "deque index out of range"), self', w')
    /\ total_requests self' = total_requests self
    /\ total_throttled self' = total_throttled self
    /\ hour_window self' = []
    /\ minute_window self' = [].
Proof.
  intros Hh Hm Hlim. unfold wait_if_needed, after_eviction, _clean_window.
  rewrite Hh, Hm.
  destruct (time_time w) as [t1 w1], (time_time w1) as [t2 w2],
    (time_time w2) as [t3 w3]. cbn [popleft_while_old snd].
  unfold check_limit. cbn [length window_first].
  change (Z.of_nat 0) with 0.
  destruct (Z.geb_spec 0 (requests_per_minute self)) as [Hm0|Hm0].
  - eexists _, _. split; [reflexivity|]. cbn. auto.
  - destruct (Z.geb_spec 0 (requests_per_hour self)) as [Hh0|Hh0]; [|lia].
    eexists _, _. split; [reflexivity|]. cbn. auto.
Qed.

End Clock.

(** A clock for examples: the world is the current time; reading it
    takes no time and sleeping advances it. *)
Definition example_time (now : Q) : Q * Q := (now, now).
Definition example_sleep (d now : Q) : Q := (now + d)%Q.

Definition example_limiter : RateLimiter :=
  {| requests_per_hour := 3; requests_per_minute := 2;
     hour_window := [5%Q; 10%Q; 20%Q]; minute_window := [10%Q; 20%Q];
     total_requests := 3; total_throttled := 0 |}.

Lemma wait_if_needed_is_max_of_waits_witness :
  exists waited self' w',
    wait_if_needed Q example_time example_sleep example_limiter 30%Q
      = (Ok waited, self', w')
    /\ (waited == Qmax (60 - (30 - 10)) (3600 - (30 - 5)))%Q
    /\ w' = (if Qgtb waited 0
             then snd (example_time (example_sleep waited 30%Q)) else 30%Q)
    /\ ((0 < 60 - (30 - 10))%Q -> (0 < 3600 - (30 - 5))%Q ->
        (waited < (60 - (30 - 10)) + (3600 - (30 - 5)))%Q).
Proof.
  apply (wait_if_needed_is_max_of_waits Q example_time example_sleep
           example_limiter 30%Q 30%Q [5%Q; 10%Q; 20%Q] [10%Q; 20%Q] 30%Q
           10%Q 5%Q).
  - intros now. apply Qle_refl.
  - reflexivity.
  - reflexivity.
  - reflexivity.
  - simpl. lia.
  - simpl. lia.
Defined.

Lemma example_time_monotone : clock_monotone Q example_time.
Proof. intros now. apply Qle_refl. Defined.

Lemma clean_window_evicts_exactly_the_old_witness :
  (exists old,
     [10%Q; 20%Q; 90%Q] = old
       ++ fst (_clean_window Q example_time [10%Q; 20%Q; 90%Q] 60 100%Q)
     /\ Forall (fun t => (60 < fst (example_time 100%Q) - t)%Q) old)
  /\ Forall (fun t => (fst (example_time 100%Q) - t <= 60)%Q)
       (fst (_clean_window Q example_time [10%Q; 20%Q; 90%Q] 60 100%Q)).
Proof.
  apply (clean_window_evicts_exactly_the_old Q example_time
           [10%Q; 20%Q; 90%Q] 60 100%Q).
  repeat constructor; unfold Qle; simpl; lia.
Defined.

Definition new_limiter (rph rpm : Z) : RateLimiter :=
  {| requests_per_hour := rph; requests_per_minute := rpm;
     hour_window := []; minute_window := [];
     total_requests := 0; total_throttled := 0 |}.

Example new_limiter_built rph rpm : __init__ rph rpm = Ok (new_limiter rph rpm).
Proof. reflexivity. Qed.

Lemma wait_n_within_budget_witness :
  exists self' w',
    wait_n Q example_time example_sleep 2 (new_limiter 100 2) 0%Q
    = (repeat (Ok 0%Q) 2, self', w')
    /\ total_requests self' = 0 + Z.of_nat 2
    /\ total_throttled self' = 0
    /\ requests_per_hour self' = 100
    /\ requests_per_minute self' = 2.
Proof.
  apply (wait_n_within_budget Q example_time example_sleep 2
           (new_limiter 100 2) 0%Q); simpl; lia.
Defined.

(** The scenario of [test_rate_limiter_throttling]: with two requests a
    minute, the third call in a row waits, here the full minute. *)
Example third_call_waits :
  let '(rs, self', w') :=
    wait_n Q example_time example_sleep 3 (new_limiter 100 2) 0%Q in
  rs = [Ok 0%Q; Ok 0%Q; Ok (60 - (0 - 0))%Q]
  /\ total_throttled self' = 1
  /\ (w' == 60)%Q.
Proof. vm_compute. repeat split; reflexivity. Qed.

Lemma reset_restores_budget_witness :
  exists self' w',
    wait_n Q example_time example_sleep 2 (reset example_limiter) 30%Q
    = (repeat (Ok 0%Q) 2, self', w')
    /\ total_requests self' = Z.of_nat 2
    /\ total_throttled self' = 0
    /\ requests_per_hour self' = 3
    /\ requests_per_minute self' = 2.
Proof.
  apply (reset_restores_budget Q example_time example_sleep 2
           example_limiter 30%Q); simpl; lia.
Defined.

Lemma minute_window_stays_inside_hour_window_witness :
  let self' :=
    snd (fst (wait_if_needed Q example_time example_sleep example_limiter
                30%Q)) in
  minute_window self' `suffix_of` hour_window self'
  /\ current_minute_count (get_stats self')
     <= current_hour_count (get_stats self').
Proof.
  apply (minute_window_stays_inside_hour_window Q example_time example_sleep
           example_limiter 30%Q).
  - exact example_time_monotone.
  - exists [5%Q]. reflexivity.
Defined.

Lemma wait_is_between_zero_and_an_hour_witness :
  (0 <= 60 - (30 - 10) <= 3600)%Q
  /\ (Z.of_nat 2 < 100 -> (60 - (30 - 10) <= 60)%Q).
Proof.
  apply (wait_is_between_zero_and_an_hour Q example_time example_sleep
           {| requests_per_hour := 100; requests_per_minute := 2;
              hour_window := [10%Q; 20%Q]; minute_window := [10%Q; 20%Q];
              total_requests := 2; total_throttled := 0 |}
           30%Q (60 - (30 - 10))%Q
           {| requests_per_hour := 100; requests_per_minute := 2;
              hour_window := [10%Q; 20%Q; (30 + (60 - (30 - 10)))%Q];
              minute_window := [10%Q; 20%Q; (30 + (60 - (30 - 10)))%Q];
              total_requests := 2 + 1; total_throttled := 0 + 1 |}
           (30 + (60 - (30 - 10)))%Q).
  - exact example_time_monotone.
  - repeat constructor; unfold Qle; simpl; lia.
  - repeat constructor; unfold Qle; simpl; lia.
  - reflexivity.
Defined.

Lemma nonpositive_limit_raises_index_error_witness :
  exists self' w',
    wait_if_needed Q example_time example_sleep (new_limiter 100 0) 0%Q
    = (Raise (IndexError "deque index out of range"), self', w')
    /\ total_requests self' = 0
    /\ total_throttled self' = 0
    /\ hour_window self' = []
    /\ minute_window self' = [].
Proof.
  apply (nonpositive_limit_raises_index_error Q example_time example_sleep
           (new_limiter 100 0) 0%Q).
  - reflexivity.
  - reflexivity.
  - left. simpl. lia.
Defined.

End rate_limiter_props.

(** ** data_tracker.py *)

Module data_tracker.

(** One row of the table [ingested_items]. *)
Record Row := mkRow {
  row_id : Z;
  row_tracker_name : string;
  row_item_id : string;
  row_item_hash : option string;
  row_ingested_at : string;
  row_metadata : option string
}.

(** The table with its AUTOINCREMENT counter. *)
Record Table := mkTable {
  rows : list Row;
  last_rowid : Z
}.

(** The database files: [db_path] to the table [ingested_items] of that
    file; no entry when the file or the table does not exist. A file is
    identified with the path that names it: the paths are those of
    database files on disk, each written in one way. Two spellings of
    one file, and the names [":memory:"] and [""], which give every
    connection a database of its own, are not covered. *)
Abbreviation Files := (gmap string Table).

Record SQLiteDataTracker := mkSQLite {
  sq_name : string;
  db_path : string
}.

Record SQLiteStats := mkSQLiteStats {
  sq_tracker_name : string;
  sq_total_items : Z;
  first_item_at : option string;
  last_item_at : option string
}.

(** [WHERE tracker_name = ? AND item_id = ?] and [WHERE tracker_name = ?]. *)
Definition row_is (name item_id : string) (r : Row) : bool :=
  bool_decide (row_tracker_name r = name)
  && bool_decide (row_item_id r = item_id).

Definition row_of (name : string) (r : Row) : bool :=
  bool_decide (row_tracker_name r = name).

(** [SELECT COUNT( * )] over the rows selected by [sel]. *)
Definition select_count (sel : Row -> bool) (t : Table) : Z :=
  Z.of_nat (length (List.filter sel (rows t))).

(** [MIN] and [MAX] of a text column, with the byte order of SQLite's
    default collation; [NULL] on no row. *)
Definition text_min (a b : string) : string := if String.leb a b then a else b.
Definition text_max (a b : string) : string := if String.leb a b then b else a.

Definition select_agg (agg : string -> string -> string) (l : list string)
  : option string :=
  match l with
  | [] => None
  | x :: l' => Some (fold_left agg l' x)
  end.

Definition no_such_table : Exn :=
  OperationalError "no such table: ingested_items".

(** [_init_db]: [CREATE TABLE IF NOT EXISTS]. *)
Definition _init_db (self : SQLiteDataTracker) (fs : Files) : Files :=
  match fs !! db_path self with
  | Some _ => fs
  | None => <[db_path self := {| rows := []; last_rowid := 0 |}]> fs
  end.

Definition SQLite__init__ (name db_path : string) (fs : Files)
  : SQLiteDataTracker * Files :=
  let self := {| sq_name := name; db_path := db_path |} in
  (self, _init_db self fs).

Definition SQLite_has_item (self : SQLiteDataTracker) (item_id : string)
    (fs : Files) : Result bool :=
  match fs !! db_path self with
  | None => Raise no_such_table
  | Some t => Ok (select_count (row_is (sq_name self) item_id) t >? 0)
  end.

Definition SQLite_get_stats (self : SQLiteDataTracker) (fs : Files)
  : Result SQLiteStats :=
  match fs !! db_path self with
  | None => Raise no_such_table
  | Some t =>
      let mine := List.filter (row_of (sq_name self)) (rows t) in
      Ok {| sq_tracker_name := sq_name self;
            sq_total_items := select_count (row_of (sq_name self)) t;
            first_item_at := select_agg text_min (map row_ingested_at mine);
            last_item_at := select_agg text_max (map row_ingested_at mine) |}
  end.

(** [DELETE FROM ingested_items WHERE tracker_name = ?]. *)
Definition SQLite_clear (self : SQLiteDataTracker) (fs : Files)
  : Result Files :=
  match fs !! db_path self with
  | None => Raise no_such_table
  | Some t =>
      Ok (<[db_path self :=
              {| rows := List.filter (fun r => negb (row_of (sq_name self) r))
                           (rows t);
                 last_rowid := last_rowid t |}]> fs)
  end.

Record InMemoryStats := mkInMemoryStats {
  im_tracker_name : string;
  im_total_items : Z;
  has_metadata : Z
}.

Section Environment.

(** The values of a metadata dictionary, their JSON text, the SHA-256
    hex digest, and [datetime.now(timezone.utc).isoformat()]. *)
Variable Value : Type.
Variable json_dumps : gmap string Value -> string.
Variable sha256_hexdigest : string -> string.
Variable World : Type.
Variable now_isoformat : World -> string * World.

(** Truth value of [metadata : Optional[Dict]]: neither [None] nor empty. *)
Definition truthy (metadata : option (gmap string Value)) : bool :=
  match metadata with
  | None => false
  | Some d => negb (Nat.eqb (size d) 0)
  end.

(** [UPDATE ... SET metadata = ?, ingested_at = ? WHERE tracker_name = ?
    AND item_id = ?]. *)
Definition update_row (name item_id : string) (metadata_json : option string)
    (timestamp : string) (r : Row) : Row :=
  if row_is name item_id r then
    {| row_id := row_id r;
       row_tracker_name := row_tracker_name r;
       row_item_id := row_item_id r;
       row_item_hash := row_item_hash r;
       row_ingested_at := timestamp;
       row_metadata := metadata_json |}
  else r.

(** [add_item]: the INSERT, and on the [IntegrityError] of the
    [UNIQUE(tracker_name, item_id)] constraint the UPDATE. *)
Definition SQLite_add_item (self : SQLiteDataTracker) (item_id : string)
    (metadata : option (gmap string Value)) (fs : Files) (w : World)
  : Result Files * World :=
  let item_hash := sha256_hexdigest item_id in
  let metadata_json :=
    if truthy metadata then json_dumps <$> metadata else None in
  let (timestamp, w') := now_isoformat w in
  match fs !! db_path self with
  | None => (Raise no_such_table, w')
  | Some t =>
      if existsb (row_is (sq_name self) item_id) (rows t) then
        (Ok (<[db_path self :=
                 {| rows := map (update_row (sq_name self) item_id
                                   metadata_json timestamp) (rows t);
                    last_rowid := last_rowid t |}]> fs), w')
      else
        (Ok (<[db_path self :=
                 {| rows := rows t ++
                      [{| row_id := last_rowid t + 1;
                          row_tracker_name := sq_name self;
                          row_item_id := item_id;
                          row_item_hash := Some item_hash;
                          row_ingested_at := timestamp;
                          row_metadata := metadata_json |}];
                    last_rowid := last_rowid t + 1 |}]> fs), w')
  end.

Record InMemoryDataTracker := mkInMemory {
  im_name : string;
  items : gset string;
  metadata : gmap string (gmap string Value)
}.

Definition InMemory__init__ (name : string) : InMemoryDataTracker :=
  {| im_name := name; items := ∅; metadata := ∅ |}.

Definition InMemory_has_item (self : InMemoryDataTracker) (item_id : string)
  : bool :=
  bool_decide (item_id ∈ items self).

Definition InMemory_add_item (self : InMemoryDataTracker) (item_id : string)
    (md : option (gmap string Value)) : InMemoryDataTracker :=
  {| im_name := im_name self;
     items := items self ∪ {[item_id]};
     metadata :=
       match md with
       | Some d => if truthy md then <[item_id := d]> (metadata self)
                   else metadata self
       | None => metadata self
       end |}.

Definition InMemory_get_stats (self : InMemoryDataTracker) : InMemoryStats :=
  {| im_tracker_name := im_name self;
     im_total_items := Z.of_nat (size (items self));
     has_metadata := Z.of_nat (size (metadata self)) |}.

Definition InMemory_clear (self : InMemoryDataTracker) : InMemoryDataTracker :=
  {| im_name := im_name self; items := ∅; metadata := ∅ |}.

(** *** The two variants behind one interface

    A tracker object is one of the two variants; a method call works on
    the object, the database files and the world. *)

Inductive DataTracker :=
| Durable (t : SQLiteDataTracker)
| Volatile (t : InMemoryDataTracker).

Record State := mkState {
  tracker : DataTracker;
  files : Files;
  world : World
}.

Definition has_item (item_id : string) (s : State) : Result bool :=
  match tracker s with
  | Durable t => SQLite_has_item t item_id (files s)
  | Volatile t => Ok (InMemory_has_item t item_id)
  end.

Definition add_item (item_id : string) (md : option (gmap string Value))
    (s : State) : Result State :=
  match tracker s with
  | Durable t =>
      match SQLite_add_item t item_id md (files s) (world s) with
      | (Ok fs', w') => Ok {| tracker := tracker s; files := fs'; world := w' |}
      | (Raise e, _) => Raise e
      end
  | Volatile t =>
      Ok {| tracker := Volatile (InMemory_add_item t item_id md);
            files := files s; world := world s |}
  end.

Definition total_items (s : State) : Result Z :=
  match tracker s with
  | Durable t =>
      match SQLite_get_stats t (files s) with
      | Ok st => Ok (sq_total_items st)
      | Raise e => Raise e
      end
  | Volatile t => Ok (im_total_items (InMemory_get_stats t))
  end.

Definition clear (s : State) : Result State :=
  match tracker s with
  | Durable t =>
      match SQLite_clear t (files s) with
      | Ok fs' => Ok {| tracker := tracker s; files := fs'; world := world s |}
      | Raise e => Raise e
      end
  | Volatile t =>
      Ok {| tracker := Volatile (InMemory_clear t);
            files := files s; world := world s |}
  end.

(** Construction of either variant. *)
Definition new_durable (name path : string) (fs : Files) (w : World) : State :=
  let (t, fs') := SQLite__init__ name path fs in
  {| tracker := Durable t; files := fs'; world := w |}.

Definition new_volatile (name : string) (fs : Files) (w : World) : State :=
  {| tracker := Volatile (InMemory__init__ name); files := fs; world := w |}.

(** *** DataTrackerManager

    [trackers] holds references into a store of tracker objects. *)

Record DataTrackerManager := mkTrackerManager {
  storage_type : string;
  mgr_db_path : string;
  trackers : gmap string nat
}.

Definition Manager__init__ (storage_type db_path : string)
  : DataTrackerManager :=
  {| storage_type := storage_type; mgr_db_path := db_path; trackers := ∅ |}.

Definition get_tracker (name : string) (self : DataTrackerManager)
    (store : list DataTracker) (fs : Files)
  : nat * DataTrackerManager * list DataTracker * Files :=
  match trackers self !! name with
  | Some addr => (addr, self, store, fs)
  | None =>
      let (fresh, fs') :=
        if bool_decide (storage_type self = "sqlite") then
          let (t, fs') := SQLite__init__ name (mgr_db_path self) fs in
          (Durable t, fs')
        else (Volatile (InMemory__init__ name), fs) in
      let addr := length store in
      (addr,
       {| storage_type := storage_type self;
          mgr_db_path := mgr_db_path self;
          trackers := <[name := addr]> (trackers self) |},
       store ++ [fresh], fs')
  end.

(** A sequence of [get_tracker] calls; the addresses are dropped. *)
Fixpoint get_tracker_all (names : list string) (self : DataTrackerManager)
    (store : list DataTracker) (fs : Files)
  : DataTrackerManager * list DataTracker * Files :=
  match names with
  | [] => (self, store, fs)
  | name :: names' =>
      let '(_, self', store', fs') := get_tracker name self store fs in
      get_tracker_all names' self' store' fs'
  end.

End Environment.

Arguments Durable {Value} t.
Arguments Volatile {Value} t.
Arguments mkInMemory {Value} im_name items metadata.
Arguments im_name {Value} i.
Arguments items {Value} i.
Arguments metadata {Value} i.
Arguments mkState {Value World} tracker files world.
Arguments tracker {Value World} s.
Arguments files {Value World} s.
Arguments world {Value World} s.
Arguments has_item {Value World} item_id s.
Arguments total_items {Value World} s.
Arguments clear {Value World} s.
Arguments add_item {Value} json_dumps sha256_hexdigest {World} now_isoformat
  item_id md s.
Arguments new_volatile {Value World} name fs w.
Arguments new_durable {Value World} name path fs w.

End data_tracker.

(** ** Properties of the dedup ledger *)

Module data_tracker_props.
Import data_tracker.

Lemma select_count_pos sel t :
  (select_count sel t >? 0) = existsb sel (rows t).
Proof.
  unfold select_count. induction (rows t) as [|r l IH]; simpl; [reflexivity|].
  destruct (sel r); simpl; [|exact IH].
  apply Z.gtb_lt. lia.
Qed.

Lemma select_count_none sel l n :
  select_count sel {| rows := List.filter (fun r => negb (sel r)) l;
                      last_rowid := n |} = 0.
Proof.
  unfold select_count; simpl. induction l as [|r l IH]; simpl; [reflexivity|].
  destruct (sel r) eqn:E; simpl; [exact IH|]. rewrite E. exact IH.
Qed.

Lemma row_is_row_of name item_id r :
  row_is name item_id r = true -> row_of name r = true.
Proof. unfold row_is, row_of. intros H%andb_prop. tauto. Qed.

Lemma existsb_row_is_cleared name item_id l :
  existsb (row_is name item_id)
    (List.filter (fun r => negb (row_of name r)) l) = false.
Proof.
  induction l as [|r l IH]; simpl; [reflexivity|].
  destruct (row_of name r) eqn:E; simpl; [exact IH|].
  rewrite IH, orb_false_r.
  destruct (row_is name item_id r) eqn:E'; [|reflexivity].
  apply row_is_row_of in E'. congruence.
Qed.

Section Environment.

Variable Value : Type.
Variable json_dumps : gmap string Value -> string.
Variable sha256_hexdigest : string -> string.
Variable World : Type.
Variable now_isoformat : World -> string * World.

Abbreviation State := (State Value World).
Abbreviation add_item := (add_item json_dumps sha256_hexdigest now_isoformat).

(** The table of a durable tracker exists (as it does once [_init_db]
    has run); nothing is asked of a volatile one. *)
Definition ready (s : State) : Prop :=
  match tracker s with
  | Durable t => is_Some (files s !! db_path t)
  | Volatile _ => True
  end.

(** The ledger holds [item_id]. *)
Definition present (item_id : string) (s : State) : bool :=
  match tracker s with
  | Durable t =>
      match files s !! db_path t with
      | Some tbl => existsb (row_is (sq_name t) item_id) (rows tbl)
      | None => false
      end
  | Volatile t => bool_decide (item_id ∈ items t)
  end.

Lemma update_row_is name item_id mj ts name' item_id' r :
  row_is name' item_id' (update_row name item_id mj ts r)
  = row_is name' item_id' r.
Proof. unfold update_row. destruct (row_is name item_id r); reflexivity. Qed.

Lemma existsb_update_row name item_id mj ts name' item_id' l :
  existsb (row_is name' item_id') (map (update_row name item_id mj ts) l)
  = existsb (row_is name' item_id') l.
Proof.
  induction l as [|r l IH]; simpl; [reflexivity|].
  rewrite update_row_is, IH. reflexivity.
Qed.

Lemma row_is_fresh name item_id item_id' n h ts mj :
  row_is name item_id'
    {| row_id := n; row_tracker_name := name; row_item_id := item_id;
       row_item_hash := h; row_ingested_at := ts; row_metadata := mj |}
  = bool_decide (item_id = item_id').
Proof.
  unfold row_is; simpl. rewrite bool_decide_eq_true_2 by reflexivity.
  reflexivity.
Qed.

Lemma has_item_present item_id s :
  ready s -> has_item item_id s = Ok (present item_id s).
Proof.
  unfold ready, has_item, present, SQLite_has_item.
  destruct (tracker s) as [t|t]; [|reflexivity].
  intros [tbl ->]. rewrite select_count_pos. reflexivity.
Qed.

Lemma add_item_present item_id md s :
  ready s ->
  exists s', add_item item_id md s = Ok s' /\ ready s'
    /\ forall item_id', present item_id' s'
         = present item_id' s || bool_decide (item_id = item_id').
Proof.
  unfold ready, data_tracker.add_item, present, SQLite_add_item.
  destruct (tracker s) as [t|t] eqn:Et.
  - intros [tbl Htbl]. rewrite Htbl.
    destruct (now_isoformat _) as [ts w'].
    destruct (existsb _ (rows tbl)) eqn:Ex.
    + eexists. split; [reflexivity|]. simpl.
      rewrite lookup_insert_eq. split; [eauto|].
      intros item_id'. simpl. rewrite existsb_update_row.
      destruct (bool_decide (item_id = item_id')) eqn:Eid.
      * apply bool_decide_eq_true_1 in Eid as <-. rewrite Ex. reflexivity.
      * rewrite orb_false_r. reflexivity.
    + eexists. split; [reflexivity|]. simpl.
      rewrite lookup_insert_eq. split; [eauto|].
      intros item_id'. simpl. rewrite existsb_app. simpl.
      rewrite row_is_fresh, orb_false_r. reflexivity.
  - intros _. eexists. split; [reflexivity|]. simpl. split; [exact I|].
    intros item_id'.
    destruct (bool_decide (item_id = item_id')) eqn:Eid.
    + apply bool_decide_eq_true_1 in Eid as <-. rewrite orb_true_r.
      apply bool_decide_eq_true_2, elem_of_union_r, elem_of_singleton.
      reflexivity.
    + apply bool_decide_eq_false_1 in Eid. rewrite orb_false_r.
      apply bool_decide_ext. rewrite elem_of_union, elem_of_singleton.
      split; [intros [?|?]; [assumption | congruence] | intros ?; left; assumption].
Qed.

Lemma clear_present s :
  ready s ->
  exists s', clear s = Ok s' /\ ready s' /\ total_items s' = Ok 0
    /\ forall item_id, present item_id s' = false.
Proof.
  unfold ready, data_tracker.clear, present, data_tracker.total_items,
    SQLite_clear, SQLite_get_stats.
  destruct (tracker s) as [t|t] eqn:Et.
  - intros [tbl Htbl]. rewrite Htbl.
    eexists. split; [reflexivity|]. simpl. rewrite lookup_insert_eq.
    split; [eauto|]. split.
    + rewrite select_count_none. reflexivity.
    + intros item_id. simpl. apply existsb_row_is_cleared.
  - intros _. eexists. split; [reflexivity|]. simpl. split; [exact I|].
    split; [reflexivity|]. intros item_id.
    apply bool_decide_eq_false_2, not_elem_of_empty.
Qed.

(** Calls that change a tracker, and a caller making a sequence of them. *)
Inductive Call :=
| CallAdd (item_id : string) (md : option (gmap string Value))
| CallClear.

Definition call (c : Call) (s : State) : Result State :=
  match c with
  | CallAdd item_id md => add_item item_id md s
  | CallClear => clear s
  end.

Fixpoint run_calls (calls : list Call) (s : State) : Result State :=
  match calls with
  | [] => Ok s
  | c :: calls' =>
      match call c s with
      | Ok s' => run_calls calls' s'
      | Raise e => Raise e
      end
  end.

Definition adds (item_id : string) (c : Call) : bool :=
  match c with
  | CallAdd item_id' _ => bool_decide (item_id' = item_id)
  | CallClear => false
  end.

(** [add_item(item_id, md)] once for each [md] of the list. *)
Definition add_again (item_id : string)
    (mds : list (option (gmap string Value))) : list Call :=
  map (CallAdd item_id) mds.

Lemma run_calls_without_add item_id calls : forall s,
  ready s -> present item_id s = false ->
  forallb (fun c => negb (adds item_id c)) calls = true ->
  exists s', run_calls calls s = Ok s' /\ ready s'
    /\ present item_id s' = false.
Proof.
  induction calls as [|c calls IH]; intros s Hr Hp Hc; simpl.
  - eauto.
  - simpl in Hc. apply andb_prop in Hc as [Hc Hcs].
    destruct c as [item_id' md|]; simpl in *.
    + destruct (add_item_present item_id' md s Hr) as (s1 & -> & Hr1 & Hp1).
      apply IH; [exact Hr1| |exact Hcs].
      rewrite Hp1, Hp. apply negb_true_iff in Hc. rewrite Hc. reflexivity.
    + destruct (clear_present s Hr) as (s1 & -> & Hr1 & _ & Hp1).
      apply IH; [exact Hr1|apply Hp1|exact Hcs].
Qed.

Lemma run_calls_add_again item_id mds : forall s,
  ready s -> present item_id s = true ->
  exists s', run_calls (add_again item_id mds) s = Ok s' /\ ready s'
    /\ present item_id s' = true.
Proof.
  induction mds as [|md mds IH]; intros s Hr Hp; simpl.
  - eauto.
  - destruct (add_item_present item_id md s Hr) as (s1 & -> & Hr1 & Hp1).
    apply IH; [exact Hr1|]. rewrite Hp1, Hp. reflexivity.
Qed.

Lemma new_volatile_ready name fs w item_id :
  ready (new_volatile name fs w)
  /\ present item_id (new_volatile name fs w) = false.
Proof.
  split; [exact I|]. apply bool_decide_eq_false_2, not_elem_of_empty.
Qed.

Lemma new_durable_ready name path fs w :
  ready (new_durable name path fs w).
Proof.
  unfold ready, new_durable, SQLite__init__, _init_db; simpl.
  destruct (fs !! path) eqn:E; simpl.
  - rewrite E. eauto.
  - rewrite lookup_insert_eq. eauto.
Qed.

Lemma new_durable_present name path fs w item_id :
  (forall tbl, fs !! path = Some tbl ->
     existsb (row_is name item_id) (rows tbl) = false) ->
  present item_id (new_durable name path fs w) = false.
Proof.
  intros Hno. unfold present, new_durable, SQLite__init__, _init_db; simpl.
  destruct (fs !! path) eqn:E; simpl.
  - rewrite E. apply Hno. reflexivity.
  - rewrite lookup_insert_eq. reflexivity.
Qed.

(** C7. A tracker of either variant is constructed over database files
    that hold no row for [item_id] under the tracker's name. Whatever
    calls are made that do not add [item_id], [has_item item_id] is then
    false; after one [add_item item_id] it is true; and it is still true
    after any further [add_item item_id] calls, none of which fails. *)
Theorem has_item_false_before_true_after_add
    name path fs w item_id calls md more s0 :
  s0 = new_volatile name fs w \/ s0 = new_durable name path fs w ->
  (forall tbl, fs !! path = Some tbl ->
     existsb (row_is name item_id) (rows tbl) = false) ->
  forallb (fun c => negb (adds item_id c)) calls = true ->
  exists s s1 s2,
    run_calls calls s0 = Ok s
    /\ has_item item_id s = Ok false
    /\ add_item item_id md s = Ok s1
    /\ has_item item_id s1 = Ok true
    /\ run_calls (add_again item_id more) s1 = Ok s2
    /\ has_item item_id s2 = Ok true.
Proof.
  intros Hs0 Hno Hcalls.
  assert (Hinit : ready s0 /\ present item_id s0 = false).
  { destruct Hs0 as [-> | ->].
    - apply new_volatile_ready.
    - split; [apply new_durable_ready | apply new_durable_present, Hno]. }
  destruct Hinit as [Hr0 Hp0].
  destruct (run_calls_without_add item_id calls s0 Hr0 Hp0 Hcalls)
    as (s & Hrun & Hr & Hp).
  destruct (add_item_present item_id md s Hr) as (s1 & Hadd & Hr1 & Hp1).
  assert (Hp1' : present item_id s1 = true).
  { rewrite Hp1, bool_decide_eq_true_2 by reflexivity. apply orb_true_r. }
  destruct (run_calls_add_again item_id more s1 Hr1 Hp1')
    as (s2 & Hrun2 & Hr2 & Hp2).
  exists s, s1, s2.
  rewrite !has_item_present by assumption. rewrite Hp, Hp1', Hp2.
  repeat split; assumption.
Qed.

(** C8. In any state of a tracker of either variant (for the durable
    one, its table exists), [clear()] succeeds, after which the stats
    report [total_items = 0] and [has_item] is false for every id, so
    for every id that was tracked before. *)
Theorem clear_resets_total_and_has_item s :
  ready s ->
  exists s',
    clear s = Ok s'
    /\ total_items s' = Ok 0
    /\ forall item_id, has_item item_id s' = Ok false.
Proof.
  intros Hr. destruct (clear_present s Hr) as (s' & Hc & Hr' & Ht & Hp).
  exists s'. split; [exact Hc|]. split; [exact Ht|].
  intros item_id. rewrite has_item_present by exact Hr'. rewrite Hp.
  reflexivity.
Qed.

(** *** Counting *)

Lemma row_of_update_row name item_id mj ts name' r :
  row_of name' (update_row name item_id mj ts r) = row_of name' r.
Proof. unfold update_row. destruct (row_is name item_id r); reflexivity. Qed.

Lemma select_count_update_row name item_id mj ts name' l n :
  select_count (row_of name')
    {| rows := map (update_row name item_id mj ts) l; last_rowid := n |}
  = select_count (row_of name') {| rows := l; last_rowid := n |}.
Proof.
  unfold select_count; simpl. f_equal.
  induction l as [|r l IH]; simpl; [reflexivity|].
  rewrite row_of_update_row. destruct (row_of name' r); simpl; congruence.
Qed.

(** What [add_item] does to the count. *)
Lemma add_item_total item_id md s :
  ready s ->
  exists s' n,
    add_item item_id md s = Ok s'
    /\ total_items s = Ok n
    /\ total_items s' = Ok (if present item_id s then n else n + 1).
Proof.
  unfold ready, data_tracker.add_item, present, total_items,
    SQLite_add_item, SQLite_get_stats.
  destruct (tracker s) as [t|t] eqn:Et.
  - intros [tbl Htbl]. rewrite Htbl.
    destruct (now_isoformat _) as [ts w'].
    destruct (existsb _ (rows tbl)) eqn:Ex;
      eexists _, _; (split; [reflexivity|]); cbn [tracker files];
      rewrite ?Et, lookup_insert_eq; cbn [sq_total_items];
      (split; [reflexivity|]); f_equal.
    + destruct tbl as [l n]. apply select_count_update_row.
    + unfold select_count; simpl. rewrite List.filter_app, length_app.
      simpl. unfold row_of at 2; simpl.
      rewrite bool_decide_eq_true_2 by reflexivity. simpl. lia.
  - intros _. eexists _, _. split; [reflexivity|]. cbn.
    split; [reflexivity|]. f_equal.
    destruct (bool_decide (item_id ∈ items t)) eqn:E.
    + apply bool_decide_eq_true_1 in E.
      replace (items t ∪ {[item_id]}) with (items t); [reflexivity|].
      apply leibniz_equiv. set_solver.
    + apply bool_decide_eq_false_1 in E.
      rewrite size_union by set_solver. rewrite size_singleton. lia.
Qed.

(** X8. In both variants [add_item] counts an id once: [total_items]
    grows by one when the id was not tracked and stays as it was when
    the id was already tracked. *)
Theorem add_item_counts_an_id_once item_id md s :
  ready s ->
  exists s' n,
    add_item item_id md s = Ok s'
    /\ total_items s = Ok n
    /\ total_items s' = Ok (if present item_id s then n else n + 1).
Proof. exact (add_item_total item_id md s). Qed.

(** [add_item] for each pair of an id and its metadata, in order. *)
Definition add_all (adds : list (string * option (gmap string Value)))
  : list Call :=
  map (fun a => CallAdd (fst a) (snd a)) adds.

Lemma add_all_counts adds : forall s (seen : gset string),
  ready s ->
  total_items s = Ok (Z.of_nat (size seen)) ->
  (forall item_id, present item_id s = bool_decide (item_id ∈ seen)) ->
  exists s',
    run_calls (add_all adds) s = Ok s'
    /\ ready s'
    /\ total_items s'
       = Ok (Z.of_nat (size (seen ∪ list_to_set (map fst adds)))).
Proof.
  induction adds as [|[item_id md] adds IH]; intros s seen Hr Ht Hp.
  - exists s. simpl. rewrite union_empty_r_L. auto.
  - simpl.
    destruct (add_item_total item_id md s Hr)
      as (s1 & n & Hadd & Hn & Hn1).
    destruct (add_item_present item_id md s Hr) as (s1' & Hadd' & Hr1 & Hp1).
    rewrite Hadd in Hadd'. injection Hadd' as <-. rewrite Hadd.
    rewrite Ht in Hn. injection Hn as <-.
    destruct (IH s1 (seen ∪ {[item_id]}) Hr1) as (s' & Hrun & Hr' & Ht').
    + rewrite Hn1, Hp. f_equal. destruct (bool_decide (item_id ∈ seen)) eqn:E.
      * apply bool_decide_eq_true_1 in E.
        replace (seen ∪ {[item_id]}) with seen; [reflexivity|].
        apply leibniz_equiv. set_solver.
      * apply bool_decide_eq_false_1 in E.
        rewrite size_union by set_solver. rewrite size_singleton. lia.
    + intros i. rewrite Hp1, Hp.
      destruct (bool_decide (item_id = i)) eqn:E.
      * apply bool_decide_eq_true_1 in E as <-. rewrite orb_true_r.
        symmetry. apply bool_decide_eq_true_2. set_solver.
      * apply bool_decide_eq_false_1 in E. rewrite orb_false_r.
        apply bool_decide_ext. set_solver.
    + exists s'. split; [exact Hrun|]. split; [exact Hr'|].
      rewrite Ht'. do 3 f_equal. apply leibniz_equiv. set_solver.
Qed.

(** X9. After any sequence of [add_item] calls on a tracker of either
    variant, constructed where its name has no rows, [total_items] is
    the number of distinct ids among the calls. *)
Theorem total_items_is_number_of_distinct_ids name path fs w adds s0 :
  s0 = new_volatile name fs w \/ s0 = new_durable name path fs w ->
  (forall tbl, fs !! path = Some tbl ->
     List.filter (row_of name) (rows tbl) = []) ->
  exists s,
    run_calls (add_all adds) s0 = Ok s
    /\ total_items s
       = Ok (Z.of_nat (size (list_to_set (map fst adds) : gset string))).
Proof.
  intros Hs0 Hno.
  assert (Hnone : forall item_id tbl, fs !! path = Some tbl ->
            existsb (row_is name item_id) (rows tbl) = false).
  { intros item_id tbl Htbl. specialize (Hno tbl Htbl).
    induction (rows tbl) as [|r l IH]; simpl in *; [reflexivity|].
    destruct (row_of name r) eqn:E; [discriminate|].
    rewrite (IH Hno), orb_false_r.
    destruct (row_is name item_id r) eqn:E'; [|reflexivity].
    apply row_is_row_of in E'. congruence. }
  destruct (add_all_counts adds s0 ∅) as (s & Hrun & _ & Ht).
  - destruct Hs0 as [-> | ->]; [exact I | apply new_durable_ready].
  - destruct Hs0 as [-> | ->]; [reflexivity|].
    unfold total_items, new_durable, SQLite__init__, _init_db,
      SQLite_get_stats; simpl.
    destruct (fs !! path) as [tbl|] eqn:E; simpl.
    + rewrite E. simpl. unfold select_count. rewrite (Hno tbl eq_refl).
      reflexivity.
    + rewrite lookup_insert_eq. reflexivity.
  - intros item_id. rewrite bool_decide_eq_false_2 by set_solver.
    destruct Hs0 as [-> | ->].
    + apply new_volatile_ready.
    + apply new_durable_present. intros tbl. apply Hnone.
  - exists s. split; [exact Hrun|]. rewrite Ht. do 3 f_equal.
    apply leibniz_equiv. set_solver.
Qed.

(** *** Trackers that share a database *)

(** What a durable tracker can observe: its own rows. *)
Definition rows_of (t : SQLiteDataTracker) (fs : Files) : option (list Row) :=
  (fun tbl => List.filter (row_of (sq_name t)) (rows tbl)) <$> fs !! db_path t.

Lemma filter_row_is name item_id l :
  List.filter (row_is name item_id) l
  = List.filter (fun r => bool_decide (row_item_id r = item_id))
      (List.filter (row_of name) l).
Proof.
  induction l as [|r l IH]; simpl; [reflexivity|].
  unfold row_is at 1, row_of at 1.
  destruct (bool_decide (row_tracker_name r = name)); simpl; [|exact IH].
  destruct (bool_decide (row_item_id r = item_id)); simpl; congruence.
Qed.

Lemma observations_from_rows_of t fs fs' :
  rows_of t fs' = rows_of t fs ->
  (forall item_id, SQLite_has_item t item_id fs' = SQLite_has_item t item_id fs)
  /\ SQLite_get_stats t fs' = SQLite_get_stats t fs.
Proof.
  unfold rows_of, SQLite_has_item, SQLite_get_stats, select_count.
  destruct (fs' !! db_path t) as [tbl'|], (fs !! db_path t) as [tbl|];
    simpl; try discriminate; [|auto].
  intros [= Heq]. split.
  - intros item_id. rewrite !filter_row_is, Heq. reflexivity.
  - rewrite Heq. reflexivity.
Qed.

Lemma filter_other_update name item_id mj ts name' l :
  name <> name' ->
  List.filter (row_of name') (map (update_row name item_id mj ts) l)
  = List.filter (row_of name') l.
Proof.
  intros Hne. induction l as [|r l IH]; simpl; [reflexivity|].
  rewrite row_of_update_row. destruct (row_of name' r) eqn:E; [|exact IH].
  rewrite IH. f_equal. unfold update_row.
  destruct (row_is name item_id r) eqn:E'; [|reflexivity].
  apply row_is_row_of in E'. unfold row_of in *.
  apply bool_decide_eq_true_1 in E, E'. congruence.
Qed.

Lemma filter_other_clear name name' l :
  name <> name' ->
  List.filter (row_of name') (List.filter (fun r => negb (row_of name r)) l)
  = List.filter (row_of name') l.
Proof.
  intros Hne. induction l as [|r l IH]; simpl; [reflexivity|].
  destruct (row_of name r) eqn:E; simpl.
  - rewrite IH. destruct (row_of name' r) eqn:E'; [|reflexivity].
    unfold row_of in *. apply bool_decide_eq_true_1 in E, E'. congruence.
  - rewrite IH. reflexivity.
Qed.

(** X10. Durable trackers of different names do not disturb each
    other, whether or not they work on the same database file:
    [add_item] and [clear] on one leave every [has_item] answer and the
    whole [get_stats] of the other as they were. *)
Theorem durable_trackers_are_isolated (t1 t2 : SQLiteDataTracker) fs :
  sq_name t1 <> sq_name t2 ->
  (forall item_id md w fs' w',
     SQLite_add_item Value json_dumps sha256_hexdigest World now_isoformat
       t1 item_id md fs w = (Ok fs', w') ->
     (forall other, SQLite_has_item t2 other fs' = SQLite_has_item t2 other fs)
     /\ SQLite_get_stats t2 fs' = SQLite_get_stats t2 fs)
  /\ (forall fs',
        SQLite_clear t1 fs = Ok fs' ->
        (forall other,
           SQLite_has_item t2 other fs' = SQLite_has_item t2 other fs)
        /\ SQLite_get_stats t2 fs' = SQLite_get_stats t2 fs).
Proof.
  intros Hname.
  assert (Hdiff : sq_name t1 <> sq_name t2 \/ db_path t1 <> db_path t2)
    by (left; exact Hname).
  assert (Hput : forall tbl tbl',
            fs !! db_path t1 = Some tbl ->
            (sq_name t1 <> sq_name t2 ->
             List.filter (row_of (sq_name t2)) (rows tbl')
             = List.filter (row_of (sq_name t2)) (rows tbl)) ->
            rows_of t2 (<[db_path t1 := tbl']> fs) = rows_of t2 fs).
  { intros tbl tbl' Htbl Hrows. unfold rows_of.
    destruct (decide (db_path t1 = db_path t2)) as [Hp|Hp].
    - rewrite <- Hp, lookup_insert_eq, Htbl. simpl. f_equal.
      apply Hrows. destruct Hdiff; [assumption | contradiction].
    - rewrite lookup_insert_ne by exact Hp. reflexivity. }
  split.
  - intros item_id md w fs' w'. unfold SQLite_add_item.
    destruct (now_isoformat w) as [ts w1].
    destruct (fs !! db_path t1) as [tbl|] eqn:Htbl; [|discriminate].
    destruct (existsb _ (rows tbl)); intros [= <- _];
      apply observations_from_rows_of, (Hput tbl); try reflexivity;
      intros Hne; simpl.
    + apply filter_other_update. exact Hne.
    + rewrite List.filter_app. simpl. unfold row_of at 2. simpl.
      rewrite bool_decide_eq_false_2 by exact Hne. apply app_nil_r.
  - intros fs'. unfold SQLite_clear.
    destruct (fs !! db_path t1) as [tbl|] eqn:Htbl; [|discriminate].
    intros [= <-]. apply observations_from_rows_of, (Hput tbl);
      [reflexivity|]. intros Hne. simpl. apply filter_other_clear. exact Hne.
Qed.

(** X11. A durable tracker survives a restart and a volatile one does
    not: constructing a durable tracker again, under the same name over
    the same database file, changes no file and answers [has_item] and
    [total_items] as the old object did; a newly constructed volatile
    tracker has no item. *)
Theorem durable_tracker_survives_restart (s : State) t (w' : World) :
  tracker s = Durable t ->
  ready s ->
  files (@new_durable Value World (sq_name t) (db_path t) (files s) w') = files s
  /\ (forall item_id,
        has_item item_id (@new_durable Value World (sq_name t) (db_path t) (files s) w')
        = has_item item_id s)
  /\ total_items (@new_durable Value World (sq_name t) (db_path t) (files s) w')
     = total_items s
  /\ forall name item_id,
       has_item item_id (@new_volatile Value World name (files s) w') = Ok false.
Proof.
  intros Ht Hr. unfold ready in Hr. rewrite Ht in Hr. destruct Hr as [tbl Htbl].
  unfold new_durable, SQLite__init__, _init_db, has_item, total_items.
  cbn [sq_name db_path]. rewrite Htbl, Ht. cbn [tracker files].
  destruct t as [n p]. cbn [sq_name db_path].
  repeat split; reflexivity.
Qed.

(** *** Metadata *)

(** X12. Calling [add_item] again without metadata ([None] or an empty
    dictionary) treats stored metadata differently in the two variants:
    the volatile tracker keeps what it has, the durable tracker sets the
    [metadata] column of the row to NULL. In the durable tracker the
    repeat call adds no row and keeps the row's id and hash. *)
Theorem add_item_without_metadata_keeps_or_erases item_id md :
  truthy Value md = false ->
  (forall t : InMemoryDataTracker Value,
     metadata (InMemory_add_item Value t item_id md) = metadata t)
  /\ (forall (t : SQLiteDataTracker) fs w tbl,
        fs !! db_path t = Some tbl ->
        existsb (row_is (sq_name t) item_id) (rows tbl) = true ->
        exists tbl',
          fst (SQLite_add_item Value json_dumps sha256_hexdigest World
                 now_isoformat t item_id md fs w)
          = Ok (<[db_path t := tbl']> fs)
          /\ map row_id (rows tbl') = map row_id (rows tbl)
          /\ map row_item_hash (rows tbl') = map row_item_hash (rows tbl)
          /\ last_rowid tbl' = last_rowid tbl
          /\ Forall (fun r => row_metadata r = None)
               (List.filter (row_is (sq_name t) item_id) (rows tbl'))).
Proof.
  intros Hfalsy. split.
  - intros t. unfold InMemory_add_item. cbn [metadata].
    destruct md; [rewrite Hfalsy|]; reflexivity.
  - intros t fs w tbl Htbl Hex. unfold SQLite_add_item.
    destruct (now_isoformat w) as [ts w1]. rewrite Htbl, Hex, Hfalsy.
    eexists. split; [reflexivity|]. cbn [rows last_rowid].
    split; [|split; [|split; [reflexivity|]]].
    + rewrite map_map. apply map_ext. intros r. unfold update_row.
      destruct (row_is _ _ r); reflexivity.
    + rewrite map_map. apply map_ext. intros r. unfold update_row.
      destruct (row_is _ _ r); reflexivity.
    + clear Hex. induction (rows tbl) as [|r l IH]; simpl; [constructor|].
      rewrite update_row_is. destruct (row_is (sq_name t) item_id r) eqn:E;
        [|exact IH].
      constructor; [|exact IH]. unfold update_row. rewrite E. reflexivity.
Qed.

(** X13. In the volatile tracker every id with metadata is a tracked
    id, in every state reached from construction by [add_item] and
    [clear]; so [get_stats] never reports more [has_metadata] than
    [total_items]. *)
Theorem volatile_metadata_only_for_tracked_ids name fs w calls s :
  run_calls calls (new_volatile name fs w) = Ok s ->
  exists t,
    tracker s = Volatile t
    /\ dom (metadata t) ⊆ items t
    /\ has_metadata (InMemory_get_stats Value t)
       <= im_total_items (InMemory_get_stats Value t).
Proof.
  assert (Hinv : forall calls (s0 s : State) t0,
            tracker s0 = Volatile t0 ->
            dom (metadata t0) ⊆ items t0 ->
            run_calls calls s0 = Ok s ->
            exists t, tracker s = Volatile t /\ dom (metadata t) ⊆ items t).
  { clear. induction calls as [|c calls IH]; intros s0 s t0 Ht0 Hsub; simpl.
    - intros [= <-]. eauto.
    - destruct c as [item_id md|]; simpl;
        unfold data_tracker.add_item, data_tracker.clear; rewrite Ht0.
      + apply (IH _ _ (InMemory_add_item Value t0 item_id md)); [reflexivity|].
        unfold InMemory_add_item. cbn [items metadata].
        destruct md as [d|]; [destruct (truthy Value (Some d))|];
          rewrite ?dom_insert_L; set_solver.
      + apply (IH _ _ (InMemory_clear Value t0)); [reflexivity|].
        cbn. set_solver. }
  intros Hrun.
  destruct (Hinv calls (new_volatile name fs w) s (InMemory__init__ Value name)
              eq_refl) as (t & Ht & Hsub);
    [cbn; set_solver | exact Hrun |].
  exists t. split; [exact Ht|]. split; [exact Hsub|]. cbn.
  rewrite <- size_dom. apply subseteq_size in Hsub. lia.
Qed.

End Environment.

(** An environment for examples: metadata values are strings, the JSON
    text and the digest are placeholders, the world counts the calls of
    the clock. *)
Definition example_json (d : gmap string string) : string := "{}".
Definition example_sha256 (x : string) : string := x.
Definition example_now (w : nat) : string * nat := ("2024-01-01T00:00:00", S w).

Definition example_row : Row :=
  {| row_id := 1; row_tracker_name := "bills"; row_item_id := "hr-1";
     row_item_hash := Some "hr-1"; row_ingested_at := "2024-01-01T00:00:00";
     row_metadata := None |}.

Definition example_state : State string nat :=
  {| tracker := Durable {| sq_name := "bills"; db_path := "tracking.db" |};
     files := {[ "tracking.db" :=
                   {| rows := [example_row]; last_rowid := 1 |} ]};
     world := 0%nat |}.

Example example_state_has_item :
  has_item "hr-1" example_state = Ok true
  /\ has_item "hr-2" example_state = Ok false.
Proof. split; vm_compute; reflexivity. Qed.

Lemma has_item_false_before_true_after_add_witness :
  exists s s1 s2,
    run_calls string example_json example_sha256 nat example_now
      [CallAdd string "hr-2" None; CallClear string]
      (new_durable "bills" "tracking.db" ∅ 0%nat) = Ok s
    /\ has_item "hr-1" s = Ok false
    /\ add_item example_json example_sha256 example_now "hr-1" None s = Ok s1
    /\ has_item "hr-1" s1 = Ok true
    /\ run_calls string example_json example_sha256 nat example_now
         (add_again string "hr-1" [None; Some {[ "k" := "v" ]}]) s1 = Ok s2
    /\ has_item "hr-1" s2 = Ok true.
Proof.
  apply (has_item_false_before_true_after_add string example_json
           example_sha256 nat example_now "bills" "tracking.db" ∅ 0%nat).
  - right. reflexivity.
  - intros tbl H. rewrite lookup_empty in H. discriminate H.
  - reflexivity.
Defined.

Lemma clear_resets_total_and_has_item_witness :
  exists s',
    clear example_state = Ok s'
    /\ total_items s' = Ok 0
    /\ forall item_id, has_item item_id s' = Ok false.
Proof.
  apply (clear_resets_total_and_has_item string nat example_state).
  exists {| rows := [example_row]; last_rowid := 1 |}. reflexivity.
Defined.

Lemma example_state_ready : ready string nat example_state.
Proof. exists {| rows := [example_row]; last_rowid := 1 |}. reflexivity. Defined.

Lemma add_item_counts_an_id_once_witness :
  exists s' n,
    add_item example_json example_sha256 example_now "hr-1"
      (Some {[ "k" := "v" ]}) example_state = Ok s'
    /\ total_items example_state = Ok n
    /\ total_items s' = Ok (if present string nat "hr-1" example_state
                            then n else n + 1).
Proof.
  apply (add_item_counts_an_id_once string example_json example_sha256 nat
           example_now "hr-1" (Some {[ "k" := "v" ]}) example_state).
  exact example_state_ready.
Defined.

(** Three calls, two distinct ids: the ledger counts two. *)
Example total_items_after_a_repeat :
  match run_calls string example_json example_sha256 nat example_now
          (add_all string [("a", None); ("b", None); ("a", None)])
          (new_durable "bills" "tracking.db" ∅ 0%nat) with
  | Ok s => total_items s = Ok 2
  | Raise _ => False
  end.
Proof. vm_compute. reflexivity. Qed.

Lemma total_items_is_number_of_distinct_ids_witness :
  exists s,
    run_calls string example_json example_sha256 nat example_now
      (add_all string [("a", None); ("b", None); ("a", None)])
      (new_durable "bills" "tracking.db" ∅ 0%nat) = Ok s
    /\ total_items s
       = Ok (Z.of_nat
               (size (list_to_set
                        (map fst [("a", @None (gmap string string));
                                  ("b", None); ("a", None)])
                      : gset string))).
Proof.
  apply (total_items_is_number_of_distinct_ids string example_json
           example_sha256 nat example_now "bills" "tracking.db" ∅ 0%nat).
  - right. reflexivity.
  - intros tbl H. rewrite lookup_empty in H. discriminate H.
Defined.

Definition bills_tracker : SQLiteDataTracker :=
  {| sq_name := "bills"; db_path := "tracking.db" |}.
Definition votes_tracker : SQLiteDataTracker :=
  {| sq_name := "votes"; db_path := "tracking.db" |}.

Lemma durable_trackers_are_isolated_witness :
  sq_name votes_tracker <> sq_name bills_tracker
  /\ forall fs',
       SQLite_clear votes_tracker (files example_state) = Ok fs' ->
       (forall other,
          SQLite_has_item bills_tracker other fs'
          = SQLite_has_item bills_tracker other (files example_state))
       /\ SQLite_get_stats bills_tracker fs'
          = SQLite_get_stats bills_tracker (files example_state).
Proof.
  split; [discriminate|].
  apply (durable_trackers_are_isolated string example_json example_sha256 nat
           example_now votes_tracker bills_tracker (files example_state)).
  discriminate.
Defined.

Lemma durable_tracker_survives_restart_witness :
  files (@new_durable string nat "bills" "tracking.db" (files example_state)
           7%nat) = files example_state
  /\ forall item_id,
       has_item item_id
         (@new_durable string nat "bills" "tracking.db" (files example_state)
            7%nat)
       = has_item item_id example_state.
Proof.
  destruct (durable_tracker_survives_restart string nat example_state
              bills_tracker 7%nat) as (Hfiles & Hhas & _).
  - reflexivity.
  - exact example_state_ready.
  - split; [exact Hfiles | exact Hhas].
Defined.

Lemma add_item_without_metadata_keeps_or_erases_witness :
  truthy string (Some ∅) = false
  /\ forall t : InMemoryDataTracker string,
       metadata (InMemory_add_item string t "hr-1" (Some ∅)) = metadata t.
Proof.
  split; [reflexivity|].
  apply (add_item_without_metadata_keeps_or_erases string example_json
           example_sha256 nat example_now "hr-1" (Some ∅)).
  reflexivity.
Defined.

Definition example_volatile_calls : list (Call string) :=
  [CallAdd string "a" (Some {[ "k" := "v" ]}); CallClear string;
   CallAdd string "b" None; CallAdd string "c" (Some {[ "k" := "v" ]})].

Definition example_volatile_state : State string nat :=
  {| tracker :=
       Volatile {| im_name := "bills"; items := {[ "b"; "c" ]};
                   metadata := {[ "c" := {[ "k" := "v" ]} ]} |};
     files := ∅; world := 0%nat |}.

Lemma volatile_metadata_only_for_tracked_ids_witness :
  exists t,
    tracker example_volatile_state = Volatile t
    /\ dom (metadata t) ⊆ items t
    /\ has_metadata (InMemory_get_stats string t)
       <= im_total_items (InMemory_get_stats string t).
Proof.
  apply (volatile_metadata_only_for_tracked_ids string example_json
           example_sha256 nat example_now "bills" ∅ 0%nat
           example_volatile_calls).
  vm_compute. reflexivity.
Defined.

End data_tracker_props.

(** ** Properties of the two registries *)

Module registry_props.

(** *** RateLimiterManager *)

Lemma limiter_get_or_create_known name rph rpm self store addr :
  rate_limiter.limiters self !! name = Some addr ->
  rate_limiter.get_or_create name rph rpm self store = Ok (addr, self, store).
Proof. intros H. unfold rate_limiter.get_or_create. rewrite H. reflexivity. Qed.

Lemma limiter_get_or_create_all_keeps name addr obj calls : forall self store,
  rate_limiter.limiters self !! name = Some addr ->
  store !! addr = Some obj ->
  exists self' store',
    rate_limiter.get_or_create_all calls self store = Ok (self', store')
    /\ rate_limiter.limiters self' !! name = Some addr
    /\ store' !! addr = Some obj.
Proof.
  induction calls as [|[[name' rph] rpm] calls IH]; intros self store Hn Ha;
    simpl.
  - eauto.
  - unfold rate_limiter.get_or_create.
    destruct (rate_limiter.limiters self !! name') as [addr'|] eqn:E.
    + apply IH; assumption.
    + simpl. apply IH; simpl.
      * rewrite lookup_insert_ne; [exact Hn|]. congruence.
      * apply lookup_app_l_Some. exact Ha.
Qed.

(** Every name of the manager leads to a limiter of the store. *)
Definition limiters_valid (self : rate_limiter.RateLimiterManager)
    (store : list rate_limiter.RateLimiter) : Prop :=
  forall name addr,
    rate_limiter.limiters self !! name = Some addr -> is_Some (store !! addr).

Lemma limiters_valid_empty store :
  limiters_valid rate_limiter.Manager__init__ store.
Proof. intros name addr H. simpl in H. rewrite lookup_empty in H. discriminate. Qed.

(** X7. [get_or_create] keeps every name of the manager attached to a
    limiter, and afterwards [get_all_stats] has an entry for exactly the
    names of the manager, the one for the name just asked for being the
    [get_stats] of the limiter returned. *)
Theorem get_all_stats_lists_every_limiter name rph rpm self store :
  limiters_valid self store ->
  exists addr self' store' rl,
    rate_limiter.get_or_create name rph rpm self store
    = Ok (addr, self', store')
    /\ limiters_valid self' store'
    /\ store' !! addr = Some rl
    /\ rate_limiter.get_all_stats self' store' !! name
       = Some (rate_limiter.get_stats rl)
    /\ forall other,
         is_Some (rate_limiter.get_all_stats self' store' !! other)
         <-> other = name \/ is_Some (rate_limiter.limiters self !! other).
Proof.
  intros Hvalid. unfold rate_limiter.get_or_create.
  assert (Hstats : forall (self' : rate_limiter.RateLimiterManager) store',
            limiters_valid self' store' ->
            forall other,
              is_Some (rate_limiter.get_all_stats self' store' !! other)
              <-> is_Some (rate_limiter.limiters self' !! other)).
  { intros self' store' Hv other. unfold rate_limiter.get_all_stats.
    rewrite lookup_omap.
    destruct (rate_limiter.limiters self' !! other) as [a|] eqn:E; simpl.
    - destruct (Hv other a E) as [rl ->]. simpl. split; eauto.
    - split; intros [? ?]; discriminate. }
  destruct (rate_limiter.limiters self !! name) as [addr|] eqn:E.
  - destruct (Hvalid name addr E) as [rl Hrl].
    exists addr, self, store, rl. split; [reflexivity|].
    split; [exact Hvalid|]. split; [exact Hrl|]. split.
    + unfold rate_limiter.get_all_stats. rewrite lookup_omap, E. simpl.
      rewrite Hrl. reflexivity.
    + intros other. rewrite (Hstats self store Hvalid). split; [auto|].
      intros [->|H]; [rewrite E; eauto | exact H].
  - simpl.
    set (self' := {| rate_limiter.limiters :=
                       <[name := length store]> (rate_limiter.limiters self) |}).
    set (fresh := {| rate_limiter.requests_per_hour := rph |}).
    assert (Hv' : limiters_valid self' (store ++ [fresh])).
    { intros n a. unfold self'. simpl.
      destruct (decide (name = n)) as [<-|Hne].
      - rewrite lookup_insert_eq. intros [= <-].
        rewrite lookup_app_r by lia. rewrite Nat.sub_diag. simpl. eauto.
      - rewrite lookup_insert_ne by exact Hne. intros Hn.
        destruct (Hvalid n a Hn) as [rl Hrl]. exists rl.
        apply lookup_app_l_Some. exact Hrl. }
    assert (Hfresh : (store ++ [fresh]) !! length store = Some fresh).
    { rewrite lookup_app_r by lia. rewrite Nat.sub_diag. reflexivity. }
    exists (length store), self', (store ++ [fresh]), fresh.
    split; [reflexivity|]. split; [exact Hv'|]. split; [exact Hfresh|].
    split.
    + unfold rate_limiter.get_all_stats. rewrite lookup_omap. unfold self'.
      simpl. rewrite lookup_insert_eq. simpl. rewrite Hfresh. reflexivity.
    + intros other. rewrite (Hstats self' _ Hv'). unfold self'. simpl.
      destruct (decide (name = other)) as [<-|Hne].
      * rewrite lookup_insert_eq. split; eauto.
      * rewrite lookup_insert_ne by exact Hne. split; [auto|].
        intros [->|H]; [congruence | exact H].
Qed.

(** *** DataTrackerManager *)

Section Trackers.

Variable Value : Type.

Abbreviation get_tracker := (data_tracker.get_tracker Value).
Abbreviation get_tracker_all := (data_tracker.get_tracker_all Value).

Lemma get_tracker_known name self store fs addr :
  data_tracker.trackers self !! name = Some addr ->
  get_tracker name self store fs = (addr, self, store, fs).
Proof. intros H. unfold data_tracker.get_tracker. rewrite H. reflexivity. Qed.

Lemma get_tracker_all_keeps name addr obj names : forall self store fs,
  data_tracker.trackers self !! name = Some addr ->
  store !! addr = Some obj ->
  exists self' store' fs',
    get_tracker_all names self store fs = (self', store', fs')
    /\ data_tracker.trackers self' !! name = Some addr
    /\ store' !! addr = Some obj.
Proof.
  induction names as [|name' names IH]; intros self store fs Hn Ha; simpl.
  - eauto 6.
  - unfold data_tracker.get_tracker.
    destruct (data_tracker.trackers self !! name') as [addr'|] eqn:E.
    + apply IH; assumption.
    + destruct (bool_decide _);
        [destruct (data_tracker.SQLite__init__ _ _ _) as [t fs'']|];
        apply IH; simpl;
        solve [ rewrite lookup_insert_ne; [exact Hn | congruence]
              | apply lookup_app_l_Some; exact Ha ].
Qed.

(** The tracker object that the manager constructs for [name]. *)
Definition constructed (self : data_tracker.DataTrackerManager)
    (name : string) : data_tracker.DataTracker Value :=
  if bool_decide (data_tracker.storage_type self = "sqlite")
  then data_tracker.Durable
         {| data_tracker.sq_name := name;
            data_tracker.db_path := data_tracker.mgr_db_path self |}
  else data_tracker.Volatile (data_tracker.InMemory__init__ Value name).

(** C9. In either registry, the first [get_or_create] of a name
    constructs an instance at an address that was not in use, stores it
    under the name and returns it; after any further calls to the
    registry, [get_or_create] of that name returns this same address
    and changes nothing, whatever construction arguments it is given,
    and the instance at the address is still the one constructed. *)
Theorem get_or_create_constructs_once
    name rph rpm (lself : rate_limiter.RateLimiterManager) lstore
    (tself : data_tracker.DataTrackerManager) tstore fs :
  rate_limiter.limiters lself !! name = None ->
  data_tracker.trackers tself !! name = None ->
  (exists addr self1 store1 fresh,
     rate_limiter.__init__ rph rpm = Ok fresh
     /\ rate_limiter.get_or_create name rph rpm lself lstore
        = Ok (addr, self1, store1)
     /\ lstore !! addr = None
     /\ store1 !! addr = Some fresh
     /\ rate_limiter.limiters self1 !! name = Some addr
     /\ forall calls rph' rpm', exists self2 store2,
          rate_limiter.get_or_create_all calls self1 store1
          = Ok (self2, store2)
          /\ rate_limiter.get_or_create name rph' rpm' self2 store2
             = Ok (addr, self2, store2)
          /\ store2 !! addr = Some fresh)
  /\
  (exists addr self1 store1 fs1,
     get_tracker name tself tstore fs = (addr, self1, store1, fs1)
     /\ tstore !! addr = None
     /\ store1 !! addr = Some (constructed tself name)
     /\ data_tracker.trackers self1 !! name = Some addr
     /\ forall names, exists self2 store2 fs2,
          get_tracker_all names self1 store1 fs1 = (self2, store2, fs2)
          /\ get_tracker name self2 store2 fs2 = (addr, self2, store2, fs2)
          /\ store2 !! addr = Some (constructed tself name)).
Proof.
  intros Hl Ht. split.
  - unfold rate_limiter.get_or_create. rewrite Hl. simpl.
    eexists _, _, _, _. split; [reflexivity|]. split; [reflexivity|].
    split; [apply lookup_ge_None; lia|].
    assert (Hst : forall x : rate_limiter.RateLimiter,
               (lstore ++ [x]) !! length lstore = Some x).
    { intros x. rewrite lookup_app_r by lia.
      rewrite Nat.sub_diag. reflexivity. }
    split; [apply Hst|]. simpl. split; [apply lookup_insert_eq|].
    intros calls rph' rpm'.
    match goal with
    | |- context [rate_limiter.get_or_create_all calls ?s ?st] =>
        destruct (limiter_get_or_create_all_keeps name (length lstore) _
                    calls s st (lookup_insert_eq _ _ _) (Hst _))
          as (self2 & store2 & Hall & Hn2 & Ha2)
    end.
    exists self2, store2. split; [exact Hall|]. split; [|exact Ha2].
    apply limiter_get_or_create_known. exact Hn2.
  - unfold data_tracker.get_tracker at 1. rewrite Ht.
    assert (Hst : forall x : data_tracker.DataTracker Value,
               (tstore ++ [x]) !! length tstore = Some x).
    { intros x. rewrite lookup_app_r by lia.
      rewrite Nat.sub_diag. reflexivity. }
    unfold constructed.
    destruct (bool_decide (data_tracker.storage_type tself = "sqlite")).
    + simpl. eexists _, _, _, _. split; [reflexivity|].
      split; [apply lookup_ge_None; lia|]. split; [apply Hst|].
      simpl. split; [apply lookup_insert_eq|]. intros names.
      match goal with
      | |- context [get_tracker_all names ?s ?st ?f] =>
          destruct (get_tracker_all_keeps name (length tstore) _
                      names s st f (lookup_insert_eq _ _ _) (Hst _))
            as (self2 & store2 & fs2 & Hall & Hn2 & Ha2)
      end.
      exists self2, store2, fs2. split; [exact Hall|]. split; [|exact Ha2].
      apply get_tracker_known. exact Hn2.
    + simpl. eexists _, _, _, _. split; [reflexivity|].
      split; [apply lookup_ge_None; lia|]. split; [apply Hst|].
      simpl. split; [apply lookup_insert_eq|]. intros names.
      match goal with
      | |- context [get_tracker_all names ?s ?st ?f] =>
          destruct (get_tracker_all_keeps name (length tstore) _
                      names s st f (lookup_insert_eq _ _ _) (Hst _))
            as (self2 & store2 & fs2 & Hall & Hn2 & Ha2)
      end.
      exists self2, store2, fs2. split; [exact Hall|]. split; [|exact Ha2].
      apply get_tracker_known. exact Hn2.
Qed.

End Trackers.

Example get_or_create_twice :
  match rate_limiter.get_or_create "api1" 1000 10
          rate_limiter.Manager__init__ [] with
  | Ok (a, self, store) =>
      rate_limiter.get_or_create "api1" 5 1 self store = Ok (a, self, store)
  | Raise _ => False
  end.
Proof. reflexivity. Qed.

Lemma get_or_create_constructs_once_witness :
  (exists addr self1 store1 fresh,
     rate_limiter.__init__ 1000 10 = Ok fresh
     /\ rate_limiter.get_or_create "api1" 1000 10
          rate_limiter.Manager__init__ [] = Ok (addr, self1, store1)
     /\ @nil rate_limiter.RateLimiter !! addr = None
     /\ store1 !! addr = Some fresh
     /\ rate_limiter.limiters self1 !! "api1" = Some addr
     /\ forall calls rph' rpm', exists self2 store2,
          rate_limiter.get_or_create_all calls self1 store1
          = Ok (self2, store2)
          /\ rate_limiter.get_or_create "api1" rph' rpm' self2 store2
             = Ok (addr, self2, store2)
          /\ store2 !! addr = Some fresh)
  /\
  (exists addr self1 store1 fs1,
     data_tracker.get_tracker string "api1"
       (data_tracker.Manager__init__ "memory" "data_tracking.db") [] ∅
     = (addr, self1, store1, fs1)
     /\ @nil (data_tracker.DataTracker string) !! addr = None
     /\ store1 !! addr
        = Some (constructed string
                  (data_tracker.Manager__init__ "memory" "data_tracking.db")
                  "api1")
     /\ data_tracker.trackers self1 !! "api1" = Some addr
     /\ forall names, exists self2 store2 fs2,
          data_tracker.get_tracker_all string names self1 store1 fs1
          = (self2, store2, fs2)
          /\ data_tracker.get_tracker string "api1" self2 store2 fs2
             = (addr, self2, store2, fs2)
          /\ store2 !! addr
             = Some (constructed string
                       (data_tracker.Manager__init__ "memory"
                          "data_tracking.db") "api1")).
Proof.
  apply (get_or_create_constructs_once string "api1" 1000 10
           rate_limiter.Manager__init__ []
           (data_tracker.Manager__init__ "memory" "data_tracking.db") [] ∅);
    reflexivity.
Defined.

Lemma get_all_stats_lists_every_limiter_witness :
  exists addr self' store' rl,
    rate_limiter.get_or_create "api1" 1000 10 rate_limiter.Manager__init__ []
    = Ok (addr, self', store')
    /\ limiters_valid self' store'
    /\ store' !! addr = Some rl
    /\ rate_limiter.get_all_stats self' store' !! "api1"
       = Some (rate_limiter.get_stats rl)
    /\ forall other,
         is_Some (rate_limiter.get_all_stats self' store' !! other)
         <-> other = "api1"
             \/ is_Some (rate_limiter.limiters rate_limiter.Manager__init__
                         !! other).
Proof.
  apply (get_all_stats_lists_every_limiter "api1" 1000 10
           rate_limiter.Manager__init__ []).
  apply limiters_valid_empty.
Defined.

End registry_props.

(** ** worker_pool.py *)

Module worker_pool.

(** *** queue.Queue

    The bounded FIFO queue of the standard library, holding addresses of
    task objects. [unfinished_tasks] is what [join] waits on. *)

Record Queue := mkQueue {
  maxsize : Z;
  queue : list nat;
  unfinished_tasks : Z
}.

Definition Queue__init__ (maxsize : Z) : Queue :=
  {| maxsize := maxsize; queue := []; unfinished_tasks := 0 |}.

Definition qsize (q : Queue) : Z := Z.of_nat (length (queue q)).

Definition full (q : Queue) : bool :=
  (0 <? maxsize q) && (maxsize q <=? qsize q).

(** [put(item)]: [None] when the queue is full, where the call blocks
    until a consumer takes an item. *)
Definition put (item : nat) (q : Queue) : option Queue :=
  if full q then None
  else Some {| maxsize := maxsize q;
               queue := queue q ++ [item];
               unfinished_tasks := unfinished_tasks q + 1 |}.

(** [get(timeout=1.0)]: [None] for the [Empty] raised on an empty queue. *)
Definition get (q : Queue) : option (nat * Queue) :=
  match queue q with
  | [] => None
  | item :: rest =>
      Some (item, {| maxsize := maxsize q;
                     queue := rest;
                     unfinished_tasks := unfinished_tasks q |})
  end.

Definition task_done (q : Queue) : Result Queue :=
  if unfinished_tasks q <=? 0
  then Raise (ValueError "task_done() called too many times")
  else Ok {| maxsize := maxsize q;
             queue := queue q;
             unfinished_tasks := unfinished_tasks q - 1 |}.

(** [join()] returns once this holds. *)
Definition joined (q : Queue) : bool := unfinished_tasks q =? 0.

(** *** Statistics *)

Record Stats := mkStats {
  total_tasks : Z;
  completed_tasks : Z;
  failed_tasks : Z;
  retried_tasks : Z;
  total_execution_time : Q
}.

Record StatsReport := mkStatsReport {
  report : Stats;
  queue_size : Z;
  report_num_workers : Z;
  report_is_running : bool;
  avg_execution_time : Q
}.

(** A call that can also fail to return. *)
Inductive Outcome (A : Type) :=
| Returns (a : A)
| Raises (e : Exn)
| Pending.
Arguments Returns {A} a.
Arguments Raises {A} e.
Arguments Pending {A}.

(** The line feed of an f-string. *)
Definition newline : string := String (Ascii.ascii_of_nat 10) EmptyString.

(** [str(i)] of a list index. *)
Definition str_of_nat (i : nat) : string :=
  NilZero.string_of_uint (Nat.to_uint i).

(** [as_completed]: the worker ids in the order in which their loops
    finish, [finished_at] giving each loop its instant of completion. *)
Definition finishes_before (finished_at : nat -> nat) (a b : nat) : Prop :=
  (finished_at a <= finished_at b)%nat.

#[global] Instance finishes_before_dec finished_at :
  RelDecision (finishes_before finished_at) :=
  fun a b => decide (finished_at a <= finished_at b)%nat.

Definition as_completed (finished_at : nat -> nat) (workers : list nat)
  : list nat :=
  merge_sort (finishes_before finished_at) workers.

Section Environment.

(** Items of a collection, values returned by handlers, the world, the
    clock [time.time()], and the text of [traceback.format_exc()] for an
    exception with a given message. *)
Variable Item : Type.
Variable Data : Type.
Variable World : Type.
Variable time_time : World -> Q * World.
Variable format_exc : string -> string.

(** Values of a [params] dictionary. *)
Inductive Any :=
| AnyItem (x : Item)
| AnyStr (s : string)
| AnyInt (z : Z).

Record Task := mkTask {
  task_id : string;
  task_type : string;
  params : gmap string Any;
  priority : Z;
  retry_count : Z;
  max_retries : Z;
  created_at : Q
}.

Record TaskResult := mkTaskResult {
  result_task_id : string;
  success : bool;
  data : option Data;
  error : option string;
  execution_time : Q;
  worker_id : Z
}.

(** A handler is called on [params]; it returns a value or raises an
    exception, of which [str(e)] is kept, and it may act on the world. *)
Inductive Called :=
| Returned (d : Data)
| Raised (msg : string).

Abbreviation Handler := (gmap string Any -> World -> Called * World).

Record WorkerPool := mkWorkerPool {
  num_workers : Z;
  task_queue : Queue;
  results : list TaskResult;
  executor : option Z;
  stats : Stats;
  is_running : bool;
  task_handlers : gmap string Handler
}.

(** [WorkerPool.__init__]: the arguments are stored as given. *)
Definition __init__ (num_workers max_queue_size : Z) : Result WorkerPool :=
  Ok {| num_workers := num_workers;
        task_queue := Queue__init__ max_queue_size;
        results := [];
        executor := None;
        stats := {| total_tasks := 0; completed_tasks := 0;
                    failed_tasks := 0; retried_tasks := 0;
                    total_execution_time := 0 |};
        is_running := false;
        task_handlers := ∅ |}.

Definition set_queue (q : Queue) (self : WorkerPool) : WorkerPool :=
  {| num_workers := num_workers self; task_queue := q;
     results := results self; executor := executor self;
     stats := stats self; is_running := is_running self;
     task_handlers := task_handlers self |}.

Definition set_stats (st : Stats) (self : WorkerPool) : WorkerPool :=
  {| num_workers := num_workers self; task_queue := task_queue self;
     results := results self; executor := executor self;
     stats := st; is_running := is_running self;
     task_handlers := task_handlers self |}.

Definition register_handler (task_type : string) (handler : Handler)
    (self : WorkerPool) : WorkerPool :=
  {| num_workers := num_workers self; task_queue := task_queue self;
     results := results self; executor := executor self;
     stats := stats self; is_running := is_running self;
     task_handlers := <[task_type := handler]> (task_handlers self) |}.

Definition count_task (st : Stats) : Stats :=
  {| total_tasks := total_tasks st + 1;
     completed_tasks := completed_tasks st;
     failed_tasks := failed_tasks st;
     retried_tasks := retried_tasks st;
     total_execution_time := total_execution_time st |}.

(** [add_task(task)], [task] being the address of the task object:
    [None] when [put] blocks on a full queue. *)
Definition add_task (task : nat) (self : WorkerPool) : option WorkerPool :=
  match put task (task_queue self) with
  | None => None
  | Some q => Some (set_stats (count_task (stats self)) (set_queue q self))
  end.

Fixpoint add_tasks (tasks : list nat) (self : WorkerPool)
  : option WorkerPool :=
  match tasks with
  | [] => Some self
  | task :: tasks' =>
      match add_task task self with
      | None => None
      | Some self' => add_tasks tasks' self'
      end
  end.

(** The state in which the pool runs: the pool object, the store of
    task objects (a task is named by its index), and the world. *)
Record Machine := mkMachine {
  pool : WorkerPool;
  heap : list Task;
  world : World
}.

Definition set_pool (p : WorkerPool) (m : Machine) : Machine :=
  {| pool := p; heap := heap m; world := world m |}.

(** [_execute_task]: both the missing handler and an exception of the
    handler end in the [except Exception] branch. *)
Definition failure (task : Task) (worker_id : nat) (start_time : Q)
    (msg : string) (w : World) : TaskResult * World :=
  let (end_time, w') := time_time w in
  ({| result_task_id := task_id task;
      success := false;
      data := None;
      error := Some (msg +:+ newline +:+ format_exc msg);
      execution_time := end_time - start_time;
      worker_id := Z.of_nat worker_id |}, w').

Definition _execute_task (self : WorkerPool) (task : Task) (worker_id : nat)
    (w : World) : TaskResult * World :=
  let (start_time, w1) := time_time w in
  match task_handlers self !! task_type task with
  | None =>
      failure task worker_id start_time
        ("No handler registered for task type: " +:+ task_type task) w1
  | Some handler =>
      match handler (params task) w1 with
      | (Returned d, w2) =>
          let (end_time, w3) := time_time w2 in
          ({| result_task_id := task_id task;
              success := true;
              data := Some d;
              error := None;
              execution_time := end_time - start_time;
              worker_id := Z.of_nat worker_id |}, w3)
      | (Raised msg, w2) => failure task worker_id start_time msg w2
      end
  end.

Definition set_retry_count (n : Z) (task : Task) : Task :=
  {| task_id := task_id task; task_type := task_type task;
     params := params task; priority := priority task;
     retry_count := n; max_retries := max_retries task;
     created_at := created_at task |}.

(** The update of the statistics for one result, under [stats_lock]. *)
Definition record_result (result : TaskResult) (retry : bool) (st : Stats)
  : Stats :=
  {| total_tasks := total_tasks st;
     completed_tasks :=
       if success result then completed_tasks st + 1 else completed_tasks st;
     failed_tasks :=
       if success result then failed_tasks st else failed_tasks st + 1;
     retried_tasks :=
       if retry then retried_tasks st + 1 else retried_tasks st;
     total_execution_time :=
       (total_execution_time st + execution_time result)%Q |}.

(** One iteration of the [while self.is_running] loop of [_worker_loop],
    taken as one atomic step: [results] is the list local to the worker.
    [None] when the step cannot complete: the retry [put] blocks on a
    full queue, or the address dequeued names no task object. *)
Definition _worker_loop_body (worker_id : nat) (m : Machine)
    (results : list TaskResult) : option (Machine * list TaskResult) :=
  match get (task_queue (pool m)) with
  | None => Some (m, results)
  | Some (addr, q1) =>
      match heap m !! addr with
      | None => None
      | Some task =>
          let (result, w') :=
            _execute_task (pool m) task worker_id (world m) in
          let retry :=
            negb (success result)
            && (retry_count task <? max_retries task) in
          let heap' :=
            if retry
            then <[addr := set_retry_count (retry_count task + 1) task]>
                   (heap m)
            else heap m in
          match (if retry then put addr q1 else Some q1) with
          | None => None
          | Some q2 =>
              let q3 := match task_done q2 with
                        | Ok q => q
                        | Raise _ => q2
                        end in
              Some ({| pool := set_stats
                                 (record_result result retry (stats (pool m)))
                                 (set_queue q3 (pool m));
                       heap := heap';
                       world := w' |},
                    results ++ [result])
          end
      end
  end.

(** The loops [_worker_loop] of all the workers, interleaved, until
    [task_queue.join()] returns. [sched] is the interleaving: each entry
    names the worker, among the [n] that have a thread, that makes the
    next iteration. [locals] holds the [results] list of every worker
    loop. [None] when the schedule ends first. *)
Fixpoint drain (n : nat) (sched : list nat) (m : Machine)
    (locals : nat -> list TaskResult) {struct sched}
  : option (Machine * (nat -> list TaskResult)) :=
  if joined (task_queue (pool m)) then Some (m, locals)
  else
    match sched with
    | [] => None
    | s :: sched' =>
        match n with
        | O => None
        | S _ =>
            let worker := (s mod n)%nat in
            match _worker_loop_body worker m (locals worker) with
            | None => None
            | Some (m', rs) => drain n sched' m' (<[worker := rs]> locals)
            end
        end
    end.

(** [start]: [ThreadPoolExecutor(max_workers)] raises [ValueError] for
    [max_workers <= 0], after [is_running] has been set. *)
Definition start (self : WorkerPool) : Result unit * WorkerPool :=
  if is_running self then (Ok tt, self)
  else if num_workers self <=? 0 then
    (Raise (ValueError "max_workers must be greater than 0"),
     {| num_workers := num_workers self; task_queue := task_queue self;
        results := results self; executor := executor self;
        stats := stats self; is_running := true;
        task_handlers := task_handlers self |})
  else
    (Ok tt,
     {| num_workers := num_workers self; task_queue := task_queue self;
        results := results self; executor := Some (num_workers self);
        stats := stats self; is_running := true;
        task_handlers := task_handlers self |}).

(** [stop(wait)]: [None] when its [join] does not return. *)
Definition stop (wait : bool) (self : WorkerPool) : option WorkerPool :=
  match executor self with
  | Some _ =>
      if wait && negb (joined (task_queue self)) then None
      else Some {| num_workers := num_workers self;
                   task_queue := task_queue self;
                   results := results self; executor := None;
                   stats := stats self; is_running := false;
                   task_handlers := task_handlers self |}
  | None =>
      Some {| num_workers := num_workers self;
              task_queue := task_queue self;
              results := results self; executor := None;
              stats := stats self; is_running := false;
              task_handlers := task_handlers self |}
  end.

Definition set_results (rs : list TaskResult) (self : WorkerPool)
  : WorkerPool :=
  {| num_workers := num_workers self; task_queue := task_queue self;
     results := rs; executor := executor self;
     stats := stats self; is_running := is_running self;
     task_handlers := task_handlers self |}.

(** [run_until_complete]: one loop is submitted per worker id of
    [range(num_workers)]; those that get a thread of the executor run
    until the queue is joined; the lists of all loops are concatenated
    in the order in which the loops finish. When [start] has returned
    without an executor ([is_running] was set already), the first
    [self.executor.submit] raises [AttributeError]; with an empty
    [range(num_workers)] nothing is submitted, and the call goes on to
    [join], [stop] and an empty list of results. *)
Definition run_until_complete (sched : list nat) (finished_at : nat -> nat)
    (m : Machine) : Outcome (list TaskResult) * Machine :=
  match start (pool m) with
  | (Raise e, p1) => (Raises e, set_pool p1 m)
  | (Ok _, p1) =>
      match executor p1 with
      | None =>
          if 0 <? num_workers p1 then
            (Raises (AttributeError
                       "'NoneType' object has no attribute 'submit'"),
             set_pool p1 m)
          else if joined (task_queue p1) then
            match stop true p1 with
            | None => (Pending, set_pool p1 m)
            | Some p3 => (Returns [], set_pool (set_results [] p3) m)
            end
          else (Pending, set_pool p1 m)
      | Some max_workers =>
          let n := Z.to_nat (Z.min max_workers (num_workers p1)) in
          match drain n sched (set_pool p1 m) (fun _ => []) with
          | None => (Pending, set_pool p1 m)
          | Some (m2, locals) =>
              match stop true (pool m2) with
              | None => (Pending, m2)
              | Some p3 =>
                  let all_results :=
                    flat_map locals
                      (as_completed finished_at
                         (seq 0 (Z.to_nat (num_workers p3)))) in
                  (Returns all_results,
                   set_pool (set_results all_results p3) m2)
              end
          end
      end
  end.

Definition get_stats (self : WorkerPool) : StatsReport :=
  {| report := stats self;
     queue_size := qsize (task_queue self);
     report_num_workers := num_workers self;
     report_is_running := is_running self;
     avg_execution_time :=
       if completed_tasks (stats self) >? 0
       then (total_execution_time (stats self)
             / inject_Z (completed_tasks (stats self)))%Q
       else 0%Q |}.

Definition get_progress (self : WorkerPool) : Z * Z :=
  (completed_tasks (stats self), total_tasks (stats self)).

(** *** Facts about one execution and one iteration *)

(** The class invariant of [queue.Queue], and the queue between two
    iterations: every queued item is unfinished, and conversely. *)
Definition bounded (q : Queue) : Prop :=
  maxsize q <= 0 \/ qsize q <= maxsize q.

Definition quiescent (q : Queue) : Prop :=
  bounded q /\ unfinished_tasks q = qsize q.

Lemma execute_task_task_id self task wid w :
  result_task_id (fst (_execute_task self task wid w)) = task_id task.
Proof.
  unfold _execute_task, failure.
  destruct (time_time w) as [t0 w1].
  destruct (task_handlers self !! task_type task) as [h|].
  - destruct (h (params task) w1) as [[d|msg] w2];
      destruct (time_time w2) as [t1 w3]; reflexivity.
  - destruct (time_time w1) as [t1 w3]; reflexivity.
Qed.

Lemma execute_task_unknown self task wid w :
  task_handlers self !! task_type task = None ->
  success (fst (_execute_task self task wid w)) = false.
Proof.
  intros H. unfold _execute_task, failure.
  destruct (time_time w) as [t0 w1]. rewrite H.
  destruct (time_time w1) as [t1 w3]; reflexivity.
Qed.

(** A handler that raises on every call. *)
Definition always_fails (h : Handler) : Prop :=
  forall p w, exists msg w', h p w = (Raised msg, w').

Lemma execute_task_always_fails self task wid w h :
  task_handlers self !! task_type task = Some h ->
  always_fails h ->
  success (fst (_execute_task self task wid w)) = false.
Proof.
  intros H Hf. unfold _execute_task, failure.
  destruct (time_time w) as [t0 w1]. rewrite H.
  destruct (Hf (params task) w1) as (msg & w2 & ->).
  destruct (time_time w2) as [t1 w3]; reflexivity.
Qed.

Lemma put_not_full item q :
  full q = false ->
  put item q = Some {| maxsize := maxsize q;
                       queue := queue q ++ [item];
                       unfinished_tasks := unfinished_tasks q + 1 |}.
Proof. intros H. unfold put. rewrite H. reflexivity. Qed.

Lemma get_leaves_room item rest q :
  bounded q -> queue q = item :: rest ->
  full {| maxsize := maxsize q; queue := rest;
          unfinished_tasks := unfinished_tasks q |} = false.
Proof.
  unfold bounded, full, qsize. intros Hb Hq. rewrite Hq in Hb. simpl in *.
  apply andb_false_iff.
  destruct Hb as [Hb|Hb]; [left; apply Z.ltb_ge | right; apply Z.leb_gt]; lia.
Qed.

(** The state after the iteration that takes [addr], running [task]
    with result [result]. *)
Definition stepped (m : Machine) (addr : nat) (rest : list nat) (task : Task)
    (result : TaskResult) (w' : World) : Machine :=
  let retry :=
    negb (success result) && (retry_count task <? max_retries task) in
  {| pool :=
       set_stats (record_result result retry (stats (pool m)))
         (set_queue
            {| maxsize := maxsize (task_queue (pool m));
               queue := if retry then rest ++ [addr] else rest;
               unfinished_tasks :=
                 if retry then unfinished_tasks (task_queue (pool m))
                 else unfinished_tasks (task_queue (pool m)) - 1 |}
            (pool m));
     heap := if retry
             then <[addr := set_retry_count (retry_count task + 1) task]>
                    (heap m)
             else heap m;
     world := w' |}.

Lemma worker_step_empty wid m rs :
  queue (task_queue (pool m)) = [] ->
  _worker_loop_body wid m rs = Some (m, rs).
Proof. intros H. unfold _worker_loop_body, get. rewrite H. reflexivity. Qed.

Lemma worker_step_task wid m rs addr rest task :
  quiescent (task_queue (pool m)) ->
  queue (task_queue (pool m)) = addr :: rest ->
  heap m !! addr = Some task ->
  _worker_loop_body wid m rs
  = Some (stepped m addr rest task
            (fst (_execute_task (pool m) task wid (world m)))
            (snd (_execute_task (pool m) task wid (world m))),
          rs ++ [fst (_execute_task (pool m) task wid (world m))]).
Proof.
  intros [Hb Hu] Hq Hh. unfold _worker_loop_body, get, stepped.
  rewrite Hq, Hh.
  destruct (_execute_task (pool m) task wid (world m)) as [res w'].
  cbn [fst snd].
  pose proof (get_leaves_room _ _ _ Hb Hq) as Hroom.
  assert (Hpos : 0 < unfinished_tasks (task_queue (pool m))).
  { rewrite Hu. unfold qsize. rewrite Hq. simpl. lia. }
  destruct (negb (success res) && (retry_count task <? max_retries task)).
  - rewrite put_not_full by exact Hroom. unfold task_done. cbn [unfinished_tasks].
    destruct (Z.leb_spec (unfinished_tasks (task_queue (pool m)) + 1) 0);
      [lia|].
    cbn [maxsize queue unfinished_tasks].
    replace (unfinished_tasks (task_queue (pool m)) + 1 - 1)
      with (unfinished_tasks (task_queue (pool m))) by lia.
    reflexivity.
  - unfold task_done. cbn [unfinished_tasks].
    destruct (Z.leb_spec (unfinished_tasks (task_queue (pool m))) 0); [lia|].
    reflexivity.
Qed.

(** *** Results of a run and what the statistics say of them *)

Definition n_success (rs : list TaskResult) : Z :=
  Z.of_nat (length (List.filter success rs)).

Definition n_failed (rs : list TaskResult) : Z :=
  Z.of_nat (length (List.filter (fun r => negb (success r)) rs)).

Definition sum_time (rs : list TaskResult) : Q :=
  fold_right (fun r acc => (execution_time r + acc)%Q) 0%Q rs.

(** The results held by the loops of the workers [0 .. n-1]. *)
Definition collected (n : nat) (locals : nat -> list TaskResult)
  : list TaskResult :=
  flat_map locals (seq 0 n).

Lemma n_success_app rs1 rs2 :
  n_success (rs1 ++ rs2) = n_success rs1 + n_success rs2.
Proof.
  unfold n_success. rewrite List.filter_app, length_app. lia.
Qed.

Lemma n_failed_app rs1 rs2 :
  n_failed (rs1 ++ rs2) = n_failed rs1 + n_failed rs2.
Proof.
  unfold n_failed. rewrite List.filter_app, length_app. lia.
Qed.

Lemma sum_time_app rs1 rs2 :
  (sum_time (rs1 ++ rs2) == sum_time rs1 + sum_time rs2)%Q.
Proof.
  induction rs1 as [|r rs1 IH]; simpl; [lra|]. rewrite IH. lra.
Qed.

Lemma filter_length_Permutation (f : TaskResult -> bool) rs1 rs2 :
  rs1 ≡ₚ rs2 -> length (List.filter f rs1) = length (List.filter f rs2).
Proof.
  induction 1 as [|x l l' _ IH|x y l|l l' l'' _ IH1 _ IH2]; simpl.
  - reflexivity.
  - destruct (f x); simpl; congruence.
  - destruct (f x), (f y); reflexivity.
  - congruence.
Qed.

Lemma n_success_Permutation rs1 rs2 :
  rs1 ≡ₚ rs2 -> n_success rs1 = n_success rs2.
Proof.
  intros H. unfold n_success. f_equal. apply filter_length_Permutation, H.
Qed.

Lemma n_failed_Permutation rs1 rs2 :
  rs1 ≡ₚ rs2 -> n_failed rs1 = n_failed rs2.
Proof.
  intros H. unfold n_failed. f_equal. apply filter_length_Permutation, H.
Qed.

Lemma sum_time_Permutation rs1 rs2 :
  rs1 ≡ₚ rs2 -> (sum_time rs1 == sum_time rs2)%Q.
Proof.
  induction 1 as [|x l l' _ IH|x y l|l l' l'' _ IH1 _ IH2]; simpl.
  - reflexivity.
  - rewrite IH. reflexivity.
  - lra.
  - rewrite IH1. exact IH2.
Qed.

Lemma n_success_failed_length rs :
  n_success rs + n_failed rs = Z.of_nat (length rs).
Proof.
  unfold n_success, n_failed.
  induction rs as [|r rs IH]; simpl; [reflexivity|].
  destruct (success r); simpl; lia.
Qed.

Lemma collected_S n locals :
  collected (S n) locals = collected n locals ++ locals n.
Proof.
  unfold collected. rewrite seq_S, flat_map_app. simpl.
  rewrite app_nil_r. reflexivity.
Qed.

Lemma collected_insert_ge n worker rs (locals : nat -> list TaskResult) :
  (n <= worker)%nat ->
  collected n (<[worker := rs]> locals) = collected n locals.
Proof.
  intros Hge. unfold collected. rewrite !flat_map_concat_map. f_equal.
  apply map_ext_in. intros a Ha.
  apply in_seq in Ha. apply fn_lookup_insert_ne. lia.
Qed.

Lemma collected_insert n worker r (locals : nat -> list TaskResult) :
  (worker < n)%nat ->
  collected n (<[worker := locals worker ++ [r]]> locals)
  ≡ₚ collected n locals ++ [r].
Proof.
  induction n as [|n IH]; intros Hlt; [lia|].
  rewrite !collected_S.
  destruct (decide (worker = n)) as [->|Hne].
  - rewrite collected_insert_ge by lia. rewrite fn_lookup_insert.
    rewrite app_assoc. reflexivity.
  - rewrite fn_lookup_insert_ne by exact Hne. rewrite IH by lia.
    rewrite <- !app_assoc. apply Permutation_app_head.
    apply Permutation_app_comm.
Qed.

Lemma collected_as_completed finished_at n (locals : nat -> list TaskResult) :
  flat_map locals (as_completed finished_at (seq 0 n)) ≡ₚ collected n locals.
Proof.
  unfold collected, as_completed.
  apply Permutation_flat_map, merge_sort_Permutation.
Qed.

(** *** Invariants of the run *)

(** Between two iterations: the queue is quiescent and every queued
    address names a task object. *)
Definition wf (m : Machine) : Prop :=
  quiescent (task_queue (pool m))
  /\ Forall (fun a => is_Some (heap m !! a)) (queue (task_queue (pool m))).

(** The task objects with their retry counters blanked: what a run
    never changes. *)
Definition static (h : list Task) : list Task := set_retry_count 0 <$> h.

(** How far the machine got from [(m, locals)] to [(m', locals')], the
    loops of the workers below [N] having produced the results [rs]. *)
Record Advanced (N : nat) (m : Machine) (locals : nat -> list TaskResult)
    (m' : Machine) (locals' : nat -> list TaskResult)
    (rs : list TaskResult) : Prop := mkAdvanced {
  adv_collected : collected N locals' ≡ₚ collected N locals ++ rs;
  adv_total :
    total_tasks (stats (pool m')) = total_tasks (stats (pool m));
  adv_completed :
    completed_tasks (stats (pool m'))
    = completed_tasks (stats (pool m)) + n_success rs;
  adv_failed :
    failed_tasks (stats (pool m'))
    = failed_tasks (stats (pool m)) + n_failed rs;
  adv_time :
    (total_execution_time (stats (pool m'))
     == total_execution_time (stats (pool m)) + sum_time rs)%Q;
  adv_retried :
    retried_tasks (stats (pool m')) + qsize (task_queue (pool m))
    = retried_tasks (stats (pool m)) + qsize (task_queue (pool m'))
      + Z.of_nat (length rs);
  adv_handlers : task_handlers (pool m') = task_handlers (pool m);
  adv_workers : num_workers (pool m') = num_workers (pool m);
  adv_executor : executor (pool m') = executor (pool m);
  adv_running : is_running (pool m') = is_running (pool m);
  adv_static : static (heap m') = static (heap m)
}.

Lemma Advanced_refl N m locals : Advanced N m locals m locals [].
Proof.
  constructor; try reflexivity.
  - rewrite app_nil_r. reflexivity.
  - unfold n_success; simpl. lia.
  - unfold n_failed; simpl. lia.
  - unfold sum_time; cbn [fold_right]. rewrite Qplus_0_r. reflexivity.
  - simpl length. lia.
Qed.

Lemma Advanced_trans N m0 l0 m1 l1 m2 l2 rs1 rs2 :
  Advanced N m0 l0 m1 l1 rs1 -> Advanced N m1 l1 m2 l2 rs2 ->
  Advanced N m0 l0 m2 l2 (rs1 ++ rs2).
Proof.
  intros [] []. constructor; try congruence.
  - rewrite adv_collected1, adv_collected0, app_assoc. reflexivity.
  - rewrite n_success_app. lia.
  - rewrite n_failed_app. lia.
  - rewrite adv_time1, adv_time0, sum_time_app. lra.
  - rewrite length_app. lia.
Qed.

Lemma static_retry h addr task n :
  h !! addr = Some task ->
  static (<[addr := set_retry_count n task]> h) = static h.
Proof.
  intros H. unfold static. rewrite list_fmap_insert.
  apply list_insert_id. rewrite list_lookup_fmap, H. reflexivity.
Qed.

Lemma stepped_advanced N m locals worker addr rest task res w' :
  (worker < N)%nat ->
  queue (task_queue (pool m)) = addr :: rest ->
  heap m !! addr = Some task ->
  Advanced N m locals (stepped m addr rest task res w')
    (<[worker := locals worker ++ [res]]> locals) [res].
Proof.
  intros Hw Hq Hh. unfold stepped.
  constructor; cbn -[collected Z.of_nat]; try reflexivity.
  - apply collected_insert. exact Hw.
  - unfold n_success; simpl. destruct (success res); simpl; lia.
  - unfold n_failed; simpl. destruct (success res); simpl; lia.
  - lra.
  - unfold qsize; cbn [queue]. rewrite Hq.
    destruct (negb (success res) && (retry_count task <? max_retries task));
      cbn [queue]; rewrite ?length_app; simpl length; lia.
  - destruct (negb (success res) && (retry_count task <? max_retries task));
      [apply static_retry; exact Hh | reflexivity].
Qed.

Lemma stepped_wf m addr rest task res w' :
  wf m ->
  queue (task_queue (pool m)) = addr :: rest ->
  heap m !! addr = Some task ->
  wf (stepped m addr rest task res w').
Proof.
  intros [[Hb Hu] Hall] Hq Hh. rewrite Hq in Hall.
  inversion Hall as [|? ? Ha Hrest]; subst.
  unfold wf, quiescent, bounded, stepped, qsize in *.
  rewrite Hq in *. cbn [pool heap task_queue set_stats set_queue maxsize queue
    unfinished_tasks] in *.
  destruct (negb (success res) && (retry_count task <? max_retries task)).
  - rewrite length_app. simpl length in *. repeat split; try lia.
    apply Forall_app. split.
    + eapply Forall_impl; [|exact Hrest]. intros a. cbv beta.
      rewrite list_lookup_insert_is_Some. tauto.
    + apply Forall_singleton. apply list_lookup_insert_is_Some. tauto.
  - simpl length in *. repeat split; try lia. exact Hrest.
Qed.

(** The bound on the iterations still to come: every queued address
    counts for one execution and for the retries its task has left. *)
Definition remaining (h : list Task) (a : nat) : nat :=
  match h !! a with
  | Some t => Z.to_nat (max_retries t - retry_count t)
  | None => O
  end.

Definition potential (m : Machine) : nat :=
  sum_list_with (fun a => S (remaining (heap m) a))
    (queue (task_queue (pool m))).

Lemma remaining_retry h addr task a :
  h !! addr = Some task ->
  (remaining (<[addr := set_retry_count (retry_count task + 1) task]> h) a
   <= remaining h a)%nat.
Proof.
  intros H. unfold remaining.
  destruct (decide (addr = a)) as [<-|Hne].
  - rewrite list_lookup_insert_eq by (eapply lookup_lt_Some; exact H).
    rewrite H. simpl. lia.
  - rewrite list_lookup_insert_ne by exact Hne. reflexivity.
Qed.

Lemma stepped_potential m addr rest task res w' :
  queue (task_queue (pool m)) = addr :: rest ->
  heap m !! addr = Some task ->
  (potential (stepped m addr rest task res w') < potential m)%nat.
Proof.
  intros Hq Hh. unfold potential, stepped.
  cbn [pool heap task_queue set_stats set_queue queue]. rewrite Hq.
  destruct (negb (success res) && (retry_count task <? max_retries task))
    eqn:Eretry.
  - apply andb_prop in Eretry as [_ Hlt]. apply Z.ltb_lt in Hlt.
    rewrite sum_list_with_app. simpl.
    assert (Hrest :
      (sum_list_with
         (fun a => S (remaining
            (<[addr := set_retry_count (retry_count task + 1) task]> (heap m))
            a)) rest
       <= sum_list_with (fun a => S (remaining (heap m) a)) rest)%nat).
    { clear Hq. induction rest as [|a rest IH]; simpl; [lia|].
      pose proof (remaining_retry (heap m) addr task a Hh). lia. }
    assert (Hself :
      (S (remaining
            (<[addr := set_retry_count (retry_count task + 1) task]> (heap m))
            addr) <= remaining (heap m) addr)%nat).
    { unfold remaining.
      rewrite list_lookup_insert_eq by (eapply lookup_lt_Some; exact Hh).
      rewrite Hh. simpl. lia. }
    lia.
  - simpl. lia.
Qed.

Lemma wf_joined_empty m :
  wf m -> joined (task_queue (pool m)) = true ->
  queue (task_queue (pool m)) = [].
Proof.
  intros [[_ Hu] _] Hj. unfold joined in Hj. apply Z.eqb_eq in Hj.
  rewrite Hu in Hj. unfold qsize in Hj.
  destruct (queue (task_queue (pool m))); [reflexivity | simpl in Hj; lia].
Qed.

Lemma wf_not_joined m :
  wf m -> joined (task_queue (pool m)) = false ->
  exists addr rest task,
    queue (task_queue (pool m)) = addr :: rest /\ heap m !! addr = Some task.
Proof.
  intros [[_ Hu] Hall] Hj. unfold joined in Hj. apply Z.eqb_neq in Hj.
  rewrite Hu in Hj. unfold qsize in Hj.
  destruct (queue (task_queue (pool m))) as [|addr rest]; [simpl in Hj; lia|].
  inversion Hall as [|? ? [task Ht] _]; subst. eauto.
Qed.

(** With a schedule at least as long as the potential, the workers
    drain the queue and [join] returns. *)
Lemma drain_returns N n sched : forall m locals,
  wf m -> (0 < n <= N)%nat -> (potential m <= length sched)%nat ->
  exists m' locals' rs,
    drain n sched m locals = Some (m', locals')
    /\ wf m'
    /\ queue (task_queue (pool m')) = []
    /\ Advanced N m locals m' locals' rs.
Proof.
  induction sched as [|s sched IH]; intros m locals Hwf Hn Hpot.
  - destruct (joined (task_queue (pool m))) eqn:Hj.
    + exists m, locals, []. simpl. rewrite Hj.
      auto using wf_joined_empty, Advanced_refl.
    + destruct (wf_not_joined m Hwf Hj) as (addr & rest & task & Hq & _).
      unfold potential in Hpot. rewrite Hq in Hpot. simpl in Hpot. lia.
  - cbn [drain]. destruct (joined (task_queue (pool m))) eqn:Hj.
    + exists m, locals, []. auto using wf_joined_empty, Advanced_refl.
    + destruct (wf_not_joined m Hwf Hj) as (addr & rest & task & Hq & Hh).
      destruct n as [|n']; [lia|].
      set (worker := (s mod S n')%nat).
      assert (Hworker : (worker < N)%nat).
      { pose proof (Nat.mod_upper_bound s (S n')). unfold worker. lia. }
      rewrite (worker_step_task worker m _ addr rest task (proj1 Hwf) Hq Hh).
      set (res := fst (_execute_task (pool m) task worker (world m))).
      set (w' := snd (_execute_task (pool m) task worker (world m))).
      pose proof (stepped_potential m addr rest task res w' Hq Hh) as Hdec.
      destruct (IH (stepped m addr rest task res w')
                  (<[worker := locals worker ++ [res]]> locals)
                  (stepped_wf m addr rest task res w' Hwf Hq Hh) Hn)
        as (m' & locals' & rs & Hd & Hwf' & Hq' & Hadv);
        [simpl in Hpot; lia|].
      exists m', locals', ([res] ++ rs). split; [exact Hd|].
      split; [exact Hwf'|]. split; [exact Hq'|].
      eapply Advanced_trans; [|exact Hadv].
      apply stepped_advanced; assumption.
Qed.

(** What a completed run has done, in terms of the list it returns. *)
Record Ran (m : Machine) (all_results : list TaskResult) (m' : Machine)
  : Prop := mkRan {
  ran_total :
    total_tasks (stats (pool m')) = total_tasks (stats (pool m));
  ran_completed :
    completed_tasks (stats (pool m'))
    = completed_tasks (stats (pool m)) + n_success all_results;
  ran_failed :
    failed_tasks (stats (pool m'))
    = failed_tasks (stats (pool m)) + n_failed all_results;
  ran_time :
    (total_execution_time (stats (pool m'))
     == total_execution_time (stats (pool m)) + sum_time all_results)%Q;
  ran_retried :
    retried_tasks (stats (pool m')) + qsize (task_queue (pool m))
    = retried_tasks (stats (pool m)) + Z.of_nat (length all_results);
  ran_handlers : task_handlers (pool m') = task_handlers (pool m);
  ran_static : static (heap m') = static (heap m);
  ran_results : results (pool m') = all_results;
  ran_stopped : is_running (pool m') = false;
  ran_queue : queue (task_queue (pool m')) = []
}.

Lemma collected_nil N : collected N (fun _ => []) = [].
Proof.
  unfold collected. induction (seq 0 N); simpl; [reflexivity | assumption].
Qed.

(** The pool as [start] leaves it when it was not running. *)
Definition started (self : WorkerPool) : WorkerPool :=
  {| num_workers := num_workers self; task_queue := task_queue self;
     results := results self; executor := Some (num_workers self);
     stats := stats self; is_running := true;
     task_handlers := task_handlers self |}.

Lemma start_not_running self :
  is_running self = false -> 0 < num_workers self ->
  start self = (Ok tt, started self).
Proof.
  intros Hrun Hnw. unfold start. rewrite Hrun.
  destruct (Z.leb_spec (num_workers self) 0); [lia | reflexivity].
Qed.

(** Once the workers have drained the queue, [run_until_complete] stops
    the pool and returns the results of all the loops. *)
Lemma run_until_complete_drained sched finished_at m m2 locals rs :
  is_running (pool m) = false ->
  0 < num_workers (pool m) ->
  drain (Z.to_nat (num_workers (pool m))) sched
    (set_pool (started (pool m)) m) (fun _ => []) = Some (m2, locals) ->
  wf m2 ->
  queue (task_queue (pool m2)) = [] ->
  Advanced (Z.to_nat (num_workers (pool m)))
    (set_pool (started (pool m)) m) (fun _ => []) m2 locals rs ->
  exists all_results m',
    run_until_complete sched finished_at m = (Returns all_results, m')
    /\ all_results ≡ₚ rs
    /\ heap m' = heap m2
    /\ Ran m all_results m'.
Proof.
  intros Hrun Hnw Hd Hwf2 Hq2 Hadv. unfold run_until_complete.
  rewrite (start_not_running _ Hrun Hnw).
  cbn [started executor num_workers]. rewrite Z.min_id.
  fold (started (pool m)). rewrite Hd.
  destruct Hadv. cbn [set_pool pool started stats task_queue
    task_handlers num_workers executor is_running heap] in *.
  unfold stop. rewrite adv_executor0.
  assert (Hj : joined (task_queue (pool m2)) = true).
  { destruct Hwf2 as [[_ Hu] _]. unfold joined. rewrite Hu. unfold qsize.
    rewrite Hq2. reflexivity. }
  rewrite Hj. cbn [andb negb num_workers].
  eexists _, _. split; [reflexivity|].
  rewrite collected_nil in adv_collected0. simpl in adv_collected0.
  assert (Hperm :
    flat_map locals
      (as_completed finished_at (seq 0 (Z.to_nat (num_workers (pool m2)))))
    ≡ₚ rs).
  { rewrite adv_workers0. rewrite collected_as_completed. exact adv_collected0. }
  split; [exact Hperm|]. split; [reflexivity|].
  constructor; cbn [set_pool set_results pool stats task_queue task_handlers
    results is_running heap queue]; try assumption; try reflexivity.
  - rewrite (n_success_Permutation _ _ Hperm). exact adv_completed0.
  - rewrite (n_failed_Permutation _ _ Hperm). exact adv_failed0.
  - rewrite (sum_time_Permutation _ _ Hperm). exact adv_time0.
  - rewrite (Permutation_length Hperm).
    unfold qsize in adv_retried0 |- *. rewrite Hq2 in adv_retried0.
    simpl in adv_retried0. lia.
Qed.

(** A pool that is not running, with at least one worker, returns from
    [run_until_complete] under every interleaving that is long enough. *)
Lemma run_until_complete_returns sched finished_at m :
  wf m ->
  is_running (pool m) = false ->
  0 < num_workers (pool m) ->
  (potential m <= length sched)%nat ->
  exists all_results m',
    run_until_complete sched finished_at m = (Returns all_results, m')
    /\ Ran m all_results m'.
Proof.
  intros Hwf Hrun Hnw Hpot.
  destruct (drain_returns (Z.to_nat (num_workers (pool m)))
              (Z.to_nat (num_workers (pool m))) sched
              (set_pool (started (pool m)) m) (fun _ => []))
    as (m2 & locals & rs & Hd & Hwf2 & Hq2 & Hadv);
    [exact Hwf | lia | exact Hpot |].
  destruct (run_until_complete_drained sched finished_at m m2 locals rs
              Hrun Hnw Hd Hwf2 Hq2 Hadv) as (all & m' & Hr & _ & _ & Hran).
  eauto.
Qed.

(** *** Tasks without a handler *)

(** C1 (as the code has it). A worker that dequeues a task whose type
    has no registered handler records a failed result for it, naming the
    missing handler, and counts one more failed task. The failure is
    handled like every other: when [retry_count < max_retries] the task
    is put back at the end of the queue with [retry_count] one higher
    and counted as retried; only otherwise is the failure final. *)
Theorem unknown_handler_fails_and_retries wid m rs addr rest task :
  quiescent (task_queue (pool m)) ->
  queue (task_queue (pool m)) = addr :: rest ->
  heap m !! addr = Some task ->
  task_handlers (pool m) !! task_type task = None ->
  exists res m',
    _worker_loop_body wid m rs = Some (m', rs ++ [res])
    /\ success res = false
    /\ result_task_id res = task_id task
    /\ error res
       = Some (("No handler registered for task type: " +:+ task_type task)
               +:+ newline
               +:+ format_exc
                     ("No handler registered for task type: "
                      +:+ task_type task))
    /\ failed_tasks (stats (pool m')) = failed_tasks (stats (pool m)) + 1
    /\ if retry_count task <? max_retries task
       then queue (task_queue (pool m')) = rest ++ [addr]
            /\ heap m' !! addr
               = Some (set_retry_count (retry_count task + 1) task)
            /\ retried_tasks (stats (pool m'))
               = retried_tasks (stats (pool m)) + 1
       else queue (task_queue (pool m')) = rest
            /\ heap m' = heap m
            /\ retried_tasks (stats (pool m')) = retried_tasks (stats (pool m)).
Proof.
  intros Hqs Hq Hh Hnone.
  rewrite (worker_step_task wid m rs addr rest task Hqs Hq Hh).
  pose proof (execute_task_unknown (pool m) task wid (world m) Hnone) as Hs.
  pose proof (execute_task_task_id (pool m) task wid (world m)) as Hid.
  assert (Herr :
    error (fst (_execute_task (pool m) task wid (world m)))
    = Some (("No handler registered for task type: " +:+ task_type task)
            +:+ newline
            +:+ format_exc
                  ("No handler registered for task type: "
                   +:+ task_type task))).
  { unfold _execute_task, failure. destruct (time_time (world m)) as [t0 w1].
    rewrite Hnone. destruct (time_time w1); reflexivity. }
  destruct (_execute_task (pool m) task wid (world m)) as [res w'].
  cbn [fst snd] in *. eexists _, _. split; [reflexivity|].
  split; [exact Hs|]. split; [exact Hid|]. split; [exact Herr|].
  unfold stepped. cbn [pool heap stats set_stats
    set_queue task_queue queue record_result failed_tasks retried_tasks].
  rewrite Hs. cbn [negb andb].
  split; [reflexivity|].
  destruct (retry_count task <? max_retries task).
  - split; [reflexivity|]. split; [|reflexivity].
    apply list_lookup_insert_eq. eapply lookup_lt_Some. exact Hh.
  - auto.
Qed.

(** *** One task whose handler always fails *)

Lemma drain_joined n sched m locals :
  joined (task_queue (pool m)) = true ->
  drain n sched m locals = Some (m, locals).
Proof. intros H. destruct sched; simpl; rewrite H; reflexivity. Qed.

Lemma drain_single N n : forall j sched m locals addr task h,
  (0 < n <= N)%nat ->
  quiescent (task_queue (pool m)) ->
  queue (task_queue (pool m)) = [addr] ->
  heap m !! addr = Some task ->
  task_handlers (pool m) !! task_type task = Some h ->
  always_fails h ->
  Z.to_nat (max_retries task - retry_count task) = j ->
  (j + 1 <= length sched)%nat ->
  exists m' locals' rs,
    drain n sched m locals = Some (m', locals')
    /\ wf m'
    /\ queue (task_queue (pool m')) = []
    /\ Advanced N m locals m' locals' rs
    /\ length rs = S j
    /\ Forall (fun r => result_task_id r = task_id task /\ success r = false)
         rs
    /\ retried_tasks (stats (pool m'))
       = retried_tasks (stats (pool m)) + Z.of_nat j
    /\ heap m' !! addr
       = Some (set_retry_count (retry_count task + Z.of_nat j) task).
Proof.
  induction j as [|j IH];
    intros sched m locals addr task h Hn Hqs Hq Hh Hhandler Hfails Hj Hlen.
  - destruct sched as [|s sched]; [simpl in Hlen; lia|].
    assert (Hwf : wf m).
    { split; [exact Hqs|]. rewrite Hq. apply Forall_singleton. eauto. }
    cbn [drain].
    assert (Hnj : joined (task_queue (pool m)) = false).
    { destruct Hqs as [_ Hu]. unfold joined. rewrite Hu. unfold qsize.
      rewrite Hq. reflexivity. }
    rewrite Hnj. destruct n as [|n']; [lia|].
    set (worker := (s mod S n')%nat).
    assert (Hworker : (worker < N)%nat).
    { pose proof (Nat.mod_upper_bound s (S n')). unfold worker. lia. }
    rewrite (worker_step_task worker m _ addr [] task Hqs Hq Hh).
    pose proof (execute_task_always_fails (pool m) task worker (world m) h
                  Hhandler Hfails) as Hs.
    pose proof (execute_task_task_id (pool m) task worker (world m)) as Hid.
    set (res := fst (_execute_task (pool m) task worker (world m))) in *.
    set (w' := snd (_execute_task (pool m) task worker (world m))).
    pose proof (stepped_wf m addr [] task res w' Hwf Hq Hh) as Hwf'.
    pose proof (stepped_advanced N m locals worker addr [] task res w'
                  Hworker Hq Hh) as Hadv.
    assert (Hnoretry : (retry_count task <? max_retries task) = false).
    { apply Z.ltb_ge. lia. }
    assert (Hst : stepped m addr [] task res w'
      = {| pool := set_stats (record_result res false (stats (pool m)))
             (set_queue
                {| maxsize := maxsize (task_queue (pool m));
                   queue := [];
                   unfinished_tasks :=
                     unfinished_tasks (task_queue (pool m)) - 1 |}
                (pool m));
           heap := heap m; world := w' |}).
    { unfold stepped. rewrite Hs, Hnoretry. reflexivity. }
    rewrite Hst in *.
    rewrite drain_joined.
    2:{ unfold joined. cbn [pool set_stats set_queue task_queue
          unfinished_tasks]. apply Z.eqb_eq.
        destruct Hqs as [_ Hu]. rewrite Hu. unfold qsize. rewrite Hq.
        simpl. lia. }
    eexists _, _, [res]. split; [reflexivity|].
    split; [exact Hwf'|]. split; [reflexivity|]. split; [exact Hadv|].
    split; [reflexivity|]. split; [apply Forall_singleton; auto|].
    cbn [pool heap stats set_stats retried_tasks record_result].
    split; [lia|]. rewrite Hh. f_equal. destruct task; unfold set_retry_count;
      cbn; f_equal; lia.
  - destruct sched as [|s sched]; [simpl in Hlen; lia|].
    assert (Hwf : wf m).
    { split; [exact Hqs|]. rewrite Hq. apply Forall_singleton. eauto. }
    cbn [drain].
    assert (Hnj : joined (task_queue (pool m)) = false).
    { destruct Hqs as [_ Hu]. unfold joined. rewrite Hu. unfold qsize.
      rewrite Hq. reflexivity. }
    rewrite Hnj. destruct n as [|n']; [lia|].
    set (worker := (s mod S n')%nat).
    assert (Hworker : (worker < N)%nat).
    { pose proof (Nat.mod_upper_bound s (S n')). unfold worker. lia. }
    rewrite (worker_step_task worker m _ addr [] task Hqs Hq Hh).
    pose proof (execute_task_always_fails (pool m) task worker (world m) h
                  Hhandler Hfails) as Hs.
    pose proof (execute_task_task_id (pool m) task worker (world m)) as Hid.
    set (res := fst (_execute_task (pool m) task worker (world m))) in *.
    set (w' := snd (_execute_task (pool m) task worker (world m))).
    pose proof (stepped_wf m addr [] task res w' Hwf Hq Hh) as Hwf'.
    pose proof (stepped_advanced N m locals worker addr [] task res w'
                  Hworker Hq Hh) as Hadv.
    assert (Hretry : (retry_count task <? max_retries task) = true).
    { apply Z.ltb_lt. lia. }
    set (task' := set_retry_count (retry_count task + 1) task).
    assert (Hst : stepped m addr [] task res w'
      = {| pool := set_stats (record_result res true (stats (pool m)))
             (set_queue
                {| maxsize := maxsize (task_queue (pool m));
                   queue := [addr];
                   unfinished_tasks :=
                     unfinished_tasks (task_queue (pool m)) |}
                (pool m));
           heap := <[addr := task']> (heap m); world := w' |}).
    { unfold stepped. rewrite Hs, Hretry. reflexivity. }
    rewrite Hst in *. clear Hst.
    match goal with
    | |- context [drain (S n') sched ?m1 ?l1] =>
        destruct (IH sched m1 l1 addr task' h Hn) as
          (m' & locals' & rs & Hd & Hwf2 & Hq2 & Hadv2 & Hlen2 & Hall2
           & Hret2 & Hheap2)
    end.
    + exact (proj1 Hwf').
    + reflexivity.
    + cbn [heap]. apply list_lookup_insert_eq. eapply lookup_lt_Some.
      exact Hh.
    + exact Hhandler.
    + exact Hfails.
    + unfold task'. cbn [set_retry_count max_retries retry_count]. lia.
    + simpl in Hlen. lia.
    + exists m', locals', ([res] ++ rs). split; [exact Hd|].
      split; [exact Hwf2|]. split; [exact Hq2|].
      split; [eapply Advanced_trans; eassumption|].
      split; [simpl; lia|].
      split; [constructor; [auto | exact Hall2]|].
      cbn [pool heap stats set_stats retried_tasks record_result] in Hret2.
      split; [lia|]. rewrite Hheap2. f_equal. unfold task', set_retry_count.
      cbn. f_equal. lia.
Qed.

Lemma add_task_empty addr (self : WorkerPool) :
  queue (task_queue self) = [] ->
  add_task addr self
  = Some (set_stats (count_task (stats self))
            (set_queue {| maxsize := maxsize (task_queue self);
                          queue := [addr];
                          unfinished_tasks :=
                            unfinished_tasks (task_queue self) + 1 |} self)).
Proof.
  intros Hq. unfold add_task. rewrite put_not_full; [rewrite Hq; reflexivity|].
  unfold full, qsize. rewrite Hq. change (Z.of_nat (length [])) with 0.
  destruct (Z.ltb_spec 0 (maxsize (task_queue self))),
    (Z.leb_spec (maxsize (task_queue self)) 0); simpl; try reflexivity; lia.
Qed.

(** C2. A pool is constructed with [num_workers > 0]; a handler that
    fails on every call is registered for the type of a single task,
    submitted with [retry_count = 0] and [max_retries = k >= 0]. Under
    every interleaving of the workers (of k+1 steps or more) and every
    order of completion, [run_until_complete] returns exactly k+1
    results, each carrying the task's id with [success = false], and the
    task has been put back in the queue exactly k times. *)
Theorem always_failing_task_yields_k_plus_1_results
    nw mq ty h objs addr task k sched finished_at w :
  0 < nw ->
  objs !! addr = Some task ->
  task_type task = ty ->
  retry_count task = 0 ->
  max_retries task = k ->
  0 <= k ->
  always_fails h ->
  (Z.to_nat k + 1 <= length sched)%nat ->
  exists p0 p,
    __init__ nw mq = Ok p0
    /\ add_task addr (register_handler ty h p0) = Some p
    /\ exists all_results m',
    run_until_complete sched finished_at
      {| pool := p; heap := objs; world := w |}
    = (Returns all_results, m')
    /\ Z.of_nat (length all_results) = k + 1
    /\ Forall (fun r => result_task_id r = task_id task /\ success r = false)
         all_results
    /\ retried_tasks (stats (pool m')) = k
    /\ heap m' !! addr = Some (set_retry_count k task)
    /\ queue (task_queue (pool m')) = [].
Proof.
  intros Hnw Hobj Hty Hrc Hmr Hk Hfails Hlen.
  eexists _, _. split; [reflexivity|].
  rewrite add_task_empty by reflexivity. split; [reflexivity|].
  match goal with
  | |- context [run_until_complete _ _ ?m0] => set (m := m0)
  end.
  assert (Hqs : quiescent (task_queue (pool (set_pool (started (pool m)) m)))).
  { split; [|reflexivity]. unfold bounded, qsize. simpl. lia. }
  destruct (drain_single (Z.to_nat nw) (Z.to_nat nw) (Z.to_nat k) sched
              (set_pool (started (pool m)) m) (fun _ => []) addr task h)
    as (m2 & locals & rs & Hd & Hwf2 & Hq2 & Hadv & Hlen2 & Hall & Hret
        & Hheap); try assumption.
  - lia.
  - reflexivity.
  - simpl. rewrite Hty. apply lookup_insert_eq.
  - rewrite Hrc, Hmr. f_equal. lia.
  - destruct (run_until_complete_drained sched finished_at m m2 locals rs)
      as (all & m' & Hr & Hperm & Hheap' & Hran);
      try assumption; try reflexivity.
    exists all, m'. split; [exact Hr|].
    split; [rewrite (Permutation_length Hperm), Hlen2; lia|].
    split; [eapply Permutation_Forall; [symmetry; exact Hperm | exact Hall]|].
    destruct Hran. split.
    { rewrite (Permutation_length Hperm), Hlen2 in ran_retried0.
      unfold qsize in ran_retried0. simpl in ran_retried0. lia. }
    split; [|exact ran_queue0].
    rewrite Hheap', Hheap, Hrc. f_equal. f_equal. lia.
Qed.

(** *** Submitting tasks *)

Lemma add_task_spec addr (p0 p : WorkerPool) :
  add_task addr p0 = Some p ->
  quiescent (task_queue p0) ->
  quiescent (task_queue p)
  /\ queue (task_queue p) = queue (task_queue p0) ++ [addr]
  /\ stats p = count_task (stats p0)
  /\ task_handlers p = task_handlers p0
  /\ is_running p = is_running p0
  /\ num_workers p = num_workers p0.
Proof.
  unfold add_task, put. destruct (full (task_queue p0)) eqn:Hfull;
    [discriminate|].
  intros [= <-] [Hb Hu]. cbn. repeat split; try reflexivity.
  - unfold full in Hfull. unfold bounded, qsize in *. cbn.
    rewrite length_app. simpl length.
    apply andb_false_iff in Hfull as [H|H];
      [apply Z.ltb_ge in H | apply Z.leb_gt in H]; unfold qsize in *; lia.
  - unfold qsize in *. cbn. rewrite length_app. simpl length. lia.
Qed.

Lemma add_tasks_spec addrs : forall (p0 p : WorkerPool),
  add_tasks addrs p0 = Some p ->
  quiescent (task_queue p0) ->
  quiescent (task_queue p)
  /\ queue (task_queue p) = queue (task_queue p0) ++ addrs
  /\ total_tasks (stats p) = total_tasks (stats p0) + Z.of_nat (length addrs)
  /\ completed_tasks (stats p) = completed_tasks (stats p0)
  /\ failed_tasks (stats p) = failed_tasks (stats p0)
  /\ retried_tasks (stats p) = retried_tasks (stats p0)
  /\ total_execution_time (stats p) = total_execution_time (stats p0)
  /\ task_handlers p = task_handlers p0
  /\ is_running p = is_running p0
  /\ num_workers p = num_workers p0.
Proof.
  induction addrs as [|addr addrs IH]; intros p0 p Hadd Hqs; simpl in Hadd.
  - injection Hadd as <-. rewrite app_nil_r. simpl length.
    change (Z.of_nat 0) with 0. rewrite Z.add_0_r.
    repeat split; try reflexivity; apply Hqs.
  - destruct (add_task addr p0) as [p1|] eqn:H1; [|discriminate].
    destruct (add_task_spec addr p0 p1 H1 Hqs)
      as (Hqs1 & Hq1 & Hst1 & Hh1 & Hr1 & Hn1).
    destruct (IH p1 p Hadd Hqs1)
      as (Hqs2 & Hq2 & Ht & Hc & Hf & Hre & Hti & Hh & Hr & Hn).
    rewrite Hst1 in *. cbn [count_task total_tasks completed_tasks
      failed_tasks retried_tasks total_execution_time] in *.
    split; [exact Hqs2|].
    split; [rewrite Hq2, Hq1, <- app_assoc; reflexivity|].
    split; [rewrite Ht; simpl length; lia|].
    repeat split; congruence.
Qed.

(** C5 (as the code has it). [total_tasks] counts the calls of
    [add_task] and nothing else: a run leaves it as it was, whatever the
    number of retries. The retries are counted by [retried_tasks] alone,
    which grows by the number of results returned beyond the number of
    tasks that were queued. *)
Theorem total_tasks_counts_add_task_only
    (p0 p : WorkerPool) addrs objs w sched finished_at :
  quiescent (task_queue p0) ->
  is_running p0 = false ->
  0 < num_workers p0 ->
  add_tasks addrs p0 = Some p ->
  Forall (fun a => is_Some (objs !! a)) (queue (task_queue p)) ->
  (potential {| pool := p; heap := objs; world := w |} <= length sched)%nat ->
  exists all_results m',
    run_until_complete sched finished_at
      {| pool := p; heap := objs; world := w |} = (Returns all_results, m')
    /\ total_tasks (stats (pool m'))
       = total_tasks (stats p0) + Z.of_nat (length addrs)
    /\ retried_tasks (stats (pool m'))
       = retried_tasks (stats p0)
         + (Z.of_nat (length all_results)
            - (qsize (task_queue p0) + Z.of_nat (length addrs))).
Proof.
  intros Hqs Hrun Hnw Hadd Hobjs Hpot.
  destruct (add_tasks_spec addrs p0 p Hadd Hqs)
    as (Hqs' & Hq & Ht & _ & _ & Hre & _ & _ & Hr & Hn).
  destruct (run_until_complete_returns sched finished_at
              {| pool := p; heap := objs; world := w |})
    as (all & m' & Hret & Hran); cbn [pool heap];
    [split; assumption | congruence | lia | exact Hpot |].
  exists all, m'. split; [exact Hret|]. destruct Hran.
  cbn [pool] in *. split; [lia|].
  unfold qsize in *. rewrite Hq, length_app in ran_retried0. lia.
Qed.

(** *** The reported average *)

Definition failures (rs : list TaskResult) : list TaskResult :=
  List.filter (fun r => negb (success r)) rs.

Definition successes (rs : list TaskResult) : list TaskResult :=
  List.filter success rs.

Lemma sum_time_split rs :
  (sum_time rs == sum_time (successes rs) + sum_time (failures rs))%Q.
Proof.
  unfold successes, failures.
  induction rs as [|r rs IH]; simpl; [lra|].
  destruct (success r); simpl; rewrite IH; lra.
Qed.

Lemma n_success_pos_inject rs :
  0 < n_success rs -> (0 < inject_Z (n_success rs))%Q.
Proof. intros H. change 0%Q with (inject_Z 0). rewrite <- Zlt_Qlt. exact H. Qed.

(** C10. [get_stats] reports [total_execution_time / completed_tasks]
    when [completed_tasks > 0] and [0.0] otherwise. Every attempt is
    accounted for, failed or not: the iteration of the worker loop that
    takes a task appends the result of executing it to the worker's
    results and adds its duration to [total_execution_time], while
    [completed_tasks] grows only when the attempt succeeded and
    [failed_tasks] only when it failed. A run executes every queued task
    and every retry, and returns one result per attempt; so it adds the
    duration of every attempt to [total_execution_time], failed ones
    included, and counts only the successful ones in [completed_tasks].
    Hence, after a run of a pool that had executed nothing before: with
    a success, the average is the mean duration of the successes plus
    the time of the failed attempts divided by the number of successes,
    and exceeds that mean as soon as the failed attempts took time; with
    failures only, it is [0] while the accumulated time is the time of
    those failures. *)
Theorem avg_execution_time_includes_failed_attempts
    (p : WorkerPool) objs w sched finished_at :
  wf {| pool := p; heap := objs; world := w |} ->
  is_running p = false ->
  0 < num_workers p ->
  (potential {| pool := p; heap := objs; world := w |} <= length sched)%nat ->
  (forall self : WorkerPool,
     avg_execution_time (get_stats self)
     = if completed_tasks (stats self) >? 0
       then (total_execution_time (stats self)
             / inject_Z (completed_tasks (stats self)))%Q
       else 0%Q)
  /\ (forall wid m rs addr q1 task m1 rs1,
        get (task_queue (pool m)) = Some (addr, q1) ->
        heap m !! addr = Some task ->
        _worker_loop_body wid m rs = Some (m1, rs1) ->
        let r := fst (_execute_task (pool m) task wid (world m)) in
        rs1 = rs ++ [r]
        /\ total_execution_time (stats (pool m1))
           = (total_execution_time (stats (pool m)) + execution_time r)%Q
        /\ completed_tasks (stats (pool m1))
           = completed_tasks (stats (pool m)) + (if success r then 1 else 0)
        /\ failed_tasks (stats (pool m1))
           = failed_tasks (stats (pool m)) + (if success r then 0 else 1))
  /\ exists all_results m',
       run_until_complete sched finished_at
         {| pool := p; heap := objs; world := w |} = (Returns all_results, m')
       /\ (total_execution_time (stats (pool m'))
           == total_execution_time (stats p) + sum_time all_results)%Q
       /\ completed_tasks (stats (pool m'))
          = completed_tasks (stats p) + n_success all_results
       /\ failed_tasks (stats (pool m'))
          = failed_tasks (stats p) + n_failed all_results
       /\ Z.of_nat (length all_results)
          = qsize (task_queue p)
            + (retried_tasks (stats (pool m')) - retried_tasks (stats p))
       /\ queue (task_queue (pool m')) = []
       /\ (completed_tasks (stats p) = 0 ->
           (total_execution_time (stats p) == 0)%Q ->
           let avg := avg_execution_time (get_stats (pool m')) in
           let mean_success :=
             (sum_time (successes all_results)
              / inject_Z (n_success all_results))%Q in
           (0 < n_success all_results ->
            (avg == mean_success
                    + sum_time (failures all_results)
                      / inject_Z (n_success all_results))%Q
            /\ ((0 < sum_time (failures all_results))%Q ->
                (mean_success < avg)%Q))
           /\ (n_success all_results = 0 ->
               avg = 0%Q
               /\ (total_execution_time (stats (pool m'))
                   == sum_time (failures all_results))%Q)).
Proof.
  intros Hwf Hrun Hnw Hpot. split; [reflexivity|]. split.
  { intros wid m rs addr q1 task m1 rs1 Hget Hheap.
    unfold _worker_loop_body. rewrite Hget, Hheap.
    destruct (_execute_task (pool m) task wid (world m)) as [res w1].
    cbn [fst].
    destruct (negb (success res) && (retry_count task <? max_retries task));
      [destruct (put addr q1); [|discriminate]|];
      intros [= <- <-]; cbn; destruct (success res);
      repeat split; lia. }
  destruct (run_until_complete_returns sched finished_at
              {| pool := p; heap := objs; world := w |} Hwf Hrun Hnw Hpot)
    as (all & m' & Hret & Hran).
  exists all, m'. split; [exact Hret|]. destruct Hran. cbn [pool] in *.
  split; [exact ran_time0|]. split; [exact ran_completed0|].
  split; [exact ran_failed0|]. split; [lia|]. split; [exact ran_queue0|].
  intros Hc0 Ht0. cbv zeta. unfold get_stats.
  cbn [avg_execution_time]. rewrite ran_completed0, Hc0, Z.add_0_l.
  split.
  - intros Hpos. destruct (Z.gtb_spec (n_success all) 0); [|lia].
    pose proof (n_success_pos_inject all Hpos) as HposQ.
    assert (Heq :
      (total_execution_time (stats (pool m')) / inject_Z (n_success all)
       == sum_time (successes all) / inject_Z (n_success all)
          + sum_time (failures all) / inject_Z (n_success all))%Q).
    { rewrite ran_time0, Ht0, (sum_time_split all). unfold Qdiv.
      rewrite Qplus_0_l. apply Qmult_plus_distr_l. }
    split; [exact Heq|]. intros Hfail. rewrite Heq.
    assert (0 < sum_time (failures all) / inject_Z (n_success all))%Q.
    { apply Qlt_shift_div_l; [exact HposQ|]. rewrite Qmult_0_l. exact Hfail. }
    lra.
  - intros Hzero. rewrite Hzero. split; [reflexivity|].
    rewrite ran_time0, Ht0, (sum_time_split all).
    assert (Hs : successes all = []).
    { unfold n_success in Hzero. unfold successes.
      destruct (List.filter success all); [reflexivity | simpl in Hzero; lia]. }
    rewrite Hs. simpl. lra.
Qed.

(** *** What a run never changes *)

Lemma worker_step_static wid m rs m' rs' :
  _worker_loop_body wid m rs = Some (m', rs') ->
  task_handlers (pool m') = task_handlers (pool m)
  /\ static (heap m') = static (heap m).
Proof.
  unfold _worker_loop_body.
  destruct (get (task_queue (pool m))) as [[addr q1]|];
    [|intros [= <- _]; auto].
  destruct (heap m !! addr) as [task|] eqn:Hh; [|discriminate].
  destruct (_execute_task (pool m) task wid (world m)) as [res w'].
  destruct (negb (success res) && (retry_count task <? max_retries task)).
  - destruct (put addr q1); [|discriminate]. intros [= <- _]. cbn.
    split; [reflexivity | apply static_retry; exact Hh].
  - intros [= <- _]. cbn. auto.
Qed.

Lemma drain_static n sched : forall m locals m' locals',
  drain n sched m locals = Some (m', locals') ->
  task_handlers (pool m') = task_handlers (pool m)
  /\ static (heap m') = static (heap m).
Proof.
  induction sched as [|s sched IH]; intros m locals m' locals'; cbn [drain];
    destruct (joined (task_queue (pool m)));
    try (intros [= <- _]; auto; fail); try discriminate.
  destruct n as [|n']; [discriminate|].
  destruct (_worker_loop_body _ m _) as [[m1 rs1]|] eqn:Hstep; [|discriminate].
  intros Hd. apply IH in Hd as [Hh Hs].
  apply worker_step_static in Hstep as [Hh1 Hs1]. split; congruence.
Qed.

Lemma run_until_complete_static sched finished_at m :
  task_handlers (pool (snd (run_until_complete sched finished_at m)))
  = task_handlers (pool m)
  /\ static (heap (snd (run_until_complete sched finished_at m)))
     = static (heap m).
Proof.
  unfold run_until_complete, start.
  destruct (is_running (pool m)).
  - destruct (executor (pool m)) as [mw|] eqn:He.
    + destruct (drain _ sched _ _) as [[m2 locals]|] eqn:Hd; [|cbn; auto].
      apply drain_static in Hd as [Hh Hs]. cbn in Hh, Hs.
      unfold stop. destruct (executor (pool m2));
        [destruct (true && negb (joined (task_queue (pool m2))))|];
        cbn; split; assumption.
    + destruct (0 <? num_workers (pool m)); [cbn; auto|].
      destruct (joined (task_queue (pool m))); [|cbn; auto].
      unfold stop. rewrite He. cbn. auto.
  - destruct (num_workers (pool m) <=? 0); [cbn; auto|].
    cbn [executor].
    destruct (drain _ sched _ _) as [[m2 locals]|] eqn:Hd; [|cbn; auto].
    apply drain_static in Hd as [Hh Hs]. cbn in Hh, Hs.
    unfold stop. destruct (executor (pool m2));
      [destruct (true && negb (joined (task_queue (pool m2))))|];
      cbn; split; assumption.
Qed.

(** *** Capacity of the queue *)

Lemma add_tasks_blocked addrs : forall (p0 : WorkerPool),
  bounded (task_queue p0) ->
  0 < maxsize (task_queue p0) ->
  maxsize (task_queue p0) < qsize (task_queue p0) + Z.of_nat (length addrs) ->
  add_tasks addrs p0 = None.
Proof.
  induction addrs as [|addr addrs IH]; intros p0 Hb Hpos Hfull.
  - destruct Hb as [Hb|Hb]; simpl in Hfull; lia.
  - simpl. unfold add_task, put, full.
    destruct (Z.ltb_spec 0 (maxsize (task_queue p0))); [|lia].
    destruct (Z.leb_spec (maxsize (task_queue p0)) (qsize (task_queue p0)));
      [reflexivity|].
    cbn [andb]. apply IH; unfold bounded, qsize in *; cbn;
      rewrite ?length_app; simpl length in *; lia.
Qed.

Lemma add_tasks_room addrs : forall (p0 : WorkerPool),
  maxsize (task_queue p0) <= 0
  \/ qsize (task_queue p0) + Z.of_nat (length addrs)
     <= maxsize (task_queue p0) ->
  exists p, add_tasks addrs p0 = Some p.
Proof.
  induction addrs as [|addr addrs IH]; intros p0 Hroom; simpl; [eauto|].
  unfold add_task, put, full.
  destruct (Z.ltb_spec 0 (maxsize (task_queue p0))) as [Hpos|Hneg]; cbn [andb].
  - destruct (Z.leb_spec (maxsize (task_queue p0)) (qsize (task_queue p0)));
      [simpl length in Hroom; lia|].
    apply IH. unfold qsize in *. cbn. rewrite length_app.
    simpl length in *. lia.
  - apply IH. left. cbn. lia.
Qed.

(** X14. [add_tasks] on a pool whose workers are not draining the queue
    returns exactly when the bounded queue has room for all the tasks
    (a [maxsize] of zero or less is no bound); otherwise the producer
    blocks. When it returns, the tasks are at the back of the queue in
    the order given and [total_tasks] has grown by their number. *)
Theorem add_tasks_returns_iff_room addrs (p0 : WorkerPool) :
  quiescent (task_queue p0) ->
  (add_tasks addrs p0 = None
   <-> 0 < maxsize (task_queue p0)
       /\ maxsize (task_queue p0)
          < qsize (task_queue p0) + Z.of_nat (length addrs))
  /\ forall p,
       add_tasks addrs p0 = Some p ->
       queue (task_queue p) = queue (task_queue p0) ++ addrs
       /\ total_tasks (stats p)
          = total_tasks (stats p0) + Z.of_nat (length addrs)
       /\ quiescent (task_queue p).
Proof.
  intros Hqs. split.
  - split.
    + intros Hnone.
      destruct (Z.ltb_spec 0 (maxsize (task_queue p0))) as [Hpos|Hneg].
      * split; [exact Hpos|].
        destruct (Z.ltb_spec (maxsize (task_queue p0))
                    (qsize (task_queue p0) + Z.of_nat (length addrs)));
          [assumption|].
        destruct (add_tasks_room addrs p0) as [p Hp]; [right; lia|].
        congruence.
      * destruct (add_tasks_room addrs p0) as [p Hp]; [left; lia|].
        congruence.
    + intros [Hpos Hfull]. apply add_tasks_blocked; [apply Hqs | lia | lia].
  - intros p Hadd.
    destruct (add_tasks_spec addrs p0 p Hadd Hqs) as (Hqs' & Hq & Ht & _).
    auto.
Qed.

(** *** Every task ends once *)

(** X15. A run ends every queued task exactly once, in a success or in
    a failure that is not retried: [completed_tasks] plus [failed_tasks]
    minus [retried_tasks] grows by the number of tasks that were
    queued, and the run returns one result per queued task and one more
    per retry. *)
Theorem run_ends_every_task_once sched finished_at m :
  wf m ->
  is_running (pool m) = false ->
  0 < num_workers (pool m) ->
  (potential m <= length sched)%nat ->
  exists all_results m',
    run_until_complete sched finished_at m = (Returns all_results, m')
    /\ (completed_tasks (stats (pool m')) - completed_tasks (stats (pool m)))
       + (failed_tasks (stats (pool m')) - failed_tasks (stats (pool m)))
       - (retried_tasks (stats (pool m')) - retried_tasks (stats (pool m)))
       = qsize (task_queue (pool m))
    /\ Z.of_nat (length all_results)
       = qsize (task_queue (pool m))
         + (retried_tasks (stats (pool m')) - retried_tasks (stats (pool m)))
    /\ queue (task_queue (pool m')) = []
    /\ is_running (pool m') = false.
Proof.
  intros Hwf Hrun Hnw Hpot.
  destruct (run_until_complete_returns sched finished_at m Hwf Hrun Hnw Hpot)
    as (all & m' & Hret & Hran).
  exists all, m'. split; [exact Hret|]. destruct Hran.
  pose proof (n_success_failed_length all). repeat split; try assumption; lia.
Qed.

(** *** Handlers that succeed *)

(** A handler that returns on every call. *)
Definition always_returns (h : Handler) : Prop :=
  forall p w, exists d w', h p w = (Returned d, w').

(** The task at a queued address has such a handler. *)
Definition handled (m : Machine) (a : nat) : Prop :=
  exists t h,
    heap m !! a = Some t
    /\ task_handlers (pool m) !! task_type t = Some h
    /\ always_returns h.

Lemma execute_task_always_returns self task wid w h :
  task_handlers self !! task_type task = Some h ->
  always_returns h ->
  success (fst (_execute_task self task wid w)) = true.
Proof.
  intros H Hr. unfold _execute_task.
  destruct (time_time w) as [t0 w1]. rewrite H.
  destruct (Hr (params task) w1) as (d & w2 & ->).
  destruct (time_time w2) as [t1 w3]; reflexivity.
Qed.

Lemma execute_task_worker_id self task wid w :
  worker_id (fst (_execute_task self task wid w)) = Z.of_nat wid.
Proof.
  unfold _execute_task, failure.
  destruct (time_time w) as [t0 w1].
  destruct (task_handlers self !! task_type task) as [h|].
  - destruct (h (params task) w1) as [[d|msg] w2];
      destruct (time_time w2) as [t1 w3]; reflexivity.
  - destruct (time_time w1) as [t1 w3]; reflexivity.
Qed.

(** The results of the list that worker [w] produced. *)
Definition by_worker (w : nat) (rs : list TaskResult) : list TaskResult :=
  List.filter (fun r => worker_id r =? Z.of_nat w) rs.

(** The result [r] is a success for the task at address [a]. *)
Definition succeeded (m : Machine) (a : nat) (r : TaskResult) : Prop :=
  exists t,
    heap m !! a = Some t /\ result_task_id r = task_id t /\ success r = true.

Lemma drain_all_succeed N n : forall q sched m locals,
  (0 < n <= N)%nat ->
  wf m ->
  queue (task_queue (pool m)) = q ->
  Forall (handled m) q ->
  (length q <= length sched)%nat ->
  exists m' locals' rs,
    drain n sched m locals = Some (m', locals')
    /\ wf m'
    /\ queue (task_queue (pool m')) = []
    /\ Advanced N m locals m' locals' rs
    /\ heap m' = heap m
    /\ Forall2 (succeeded m) q rs
    /\ Forall (fun r => 0 <= worker_id r < Z.of_nat n) rs
    /\ forall w, locals' w = locals w ++ by_worker w rs.
Proof.
  induction q as [|addr rest IH]; intros sched m locals Hn Hwf Hq Hall Hlen.
  - assert (Hj : joined (task_queue (pool m)) = true).
    { destruct Hwf as [[_ Hu] _]. unfold joined. rewrite Hu. unfold qsize.
      rewrite Hq. reflexivity. }
    rewrite (drain_joined n sched m locals Hj).
    exists m, locals, []. split; [reflexivity|]. split; [exact Hwf|].
    split; [exact Hq|]. split; [apply Advanced_refl|]. split; [reflexivity|].
    split; [constructor|]. split; [constructor|].
    intros w. unfold by_worker. simpl. rewrite app_nil_r. reflexivity.
  - destruct sched as [|s sched]; [simpl in Hlen; lia|].
    inversion Hall as [|? ? (task & h & Hh & Hhandler & Hret) Hrest]; subst.
    cbn [drain].
    assert (Hnj : joined (task_queue (pool m)) = false).
    { destruct Hwf as [[_ Hu] _]. unfold joined. rewrite Hu. unfold qsize.
      rewrite Hq. reflexivity. }
    rewrite Hnj. destruct n as [|n']; [lia|].
    set (worker := (s mod S n')%nat).
    assert (Hmod : (worker < S n')%nat).
    { apply Nat.mod_upper_bound. lia. }
    rewrite (worker_step_task worker m _ addr rest task (proj1 Hwf) Hq Hh).
    pose proof (execute_task_always_returns (pool m) task worker (world m) h
                  Hhandler Hret) as Hs.
    pose proof (execute_task_task_id (pool m) task worker (world m)) as Hid.
    pose proof (execute_task_worker_id (pool m) task worker (world m)) as Hwid.
    set (res := fst (_execute_task (pool m) task worker (world m))) in *.
    set (w' := snd (_execute_task (pool m) task worker (world m))).
    pose proof (stepped_wf m addr rest task res w' Hwf Hq Hh) as Hwf'.
    pose proof (stepped_advanced N m locals worker addr rest task res w'
                  ltac:(lia) Hq Hh) as Hadv.
    assert (Hst : stepped m addr rest task res w'
      = {| pool := set_stats (record_result res false (stats (pool m)))
             (set_queue
                {| maxsize := maxsize (task_queue (pool m));
                   queue := rest;
                   unfinished_tasks :=
                     unfinished_tasks (task_queue (pool m)) - 1 |}
                (pool m));
           heap := heap m; world := w' |}).
    { unfold stepped. rewrite Hs. reflexivity. }
    rewrite Hst in *. clear Hst.
    match goal with
    | |- context [drain (S n') sched ?m1 ?l1] =>
        destruct (IH sched m1 l1 Hn Hwf' eq_refl) as
          (m' & locals' & rs & Hd & Hwf2 & Hq2 & Hadv2 & Hheap & Hsucc
           & Hwids & Hloc)
    end.
    + eapply Forall_impl; [|exact Hrest]. intros a (t & h' & Ha & Hb & Hc).
      exists t, h'. auto.
    + simpl in Hlen. lia.
    + exists m', locals', ([res] ++ rs). split; [exact Hd|].
      split; [exact Hwf2|]. split; [exact Hq2|].
      split; [eapply Advanced_trans; eassumption|].
      split; [exact Hheap|].
      split; [constructor; [exists task; auto | exact Hsucc]|].
      split; [constructor; [rewrite Hwid; lia | exact Hwids]|].
      intros w. rewrite Hloc. unfold by_worker. cbn [app List.filter].
      rewrite Hwid. destruct (decide (worker = w)) as [<-|Hne].
      * rewrite fn_lookup_insert, Z.eqb_refl, <- app_assoc. reflexivity.
      * rewrite fn_lookup_insert_ne by exact Hne.
        destruct (Z.eqb_spec (Z.of_nat worker) (Z.of_nat w)); [lia|].
        reflexivity.
Qed.

(** The list that [run_until_complete] returns, spelled out. *)
Lemma run_until_complete_returned sched finished_at m m2 locals :
  is_running (pool m) = false ->
  0 < num_workers (pool m) ->
  drain (Z.to_nat (num_workers (pool m))) sched
    (set_pool (started (pool m)) m) (fun _ => []) = Some (m2, locals) ->
  wf m2 ->
  queue (task_queue (pool m2)) = [] ->
  executor (pool m2) = Some (num_workers (pool m)) ->
  num_workers (pool m2) = num_workers (pool m) ->
  fst (run_until_complete sched finished_at m)
  = Returns (flat_map locals
               (as_completed finished_at
                  (seq 0 (Z.to_nat (num_workers (pool m)))))).
Proof.
  intros Hrun Hnw Hd Hwf2 Hq2 Hex Hnum. unfold run_until_complete.
  rewrite (start_not_running _ Hrun Hnw).
  cbn [started executor num_workers]. rewrite Z.min_id.
  fold (started (pool m)). rewrite Hd.
  unfold stop. rewrite Hex.
  assert (Hj : joined (task_queue (pool m2)) = true).
  { destruct Hwf2 as [[_ Hu] _]. unfold joined. rewrite Hu. unfold qsize.
    rewrite Hq2. reflexivity. }
  rewrite Hj. cbn [andb negb num_workers fst]. rewrite Hnum. reflexivity.
Qed.

Lemma all_succeeded_counts (m : Machine) q rs :
  Forall2 (succeeded m) q rs ->
  n_success rs = Z.of_nat (length q) /\ n_failed rs = 0.
Proof.
  unfold n_success, n_failed.
  induction 1 as [|a r q rs (t & _ & _ & Hs) _ [IH1 IH2]]; simpl;
    [split; reflexivity|].
  rewrite Hs. simpl. split; lia.
Qed.

(** A run in which every handler returns. *)
Lemma run_all_succeed sched finished_at m :
  wf m ->
  is_running (pool m) = false ->
  0 < num_workers (pool m) ->
  Forall (handled m) (queue (task_queue (pool m))) ->
  (length (queue (task_queue (pool m))) <= length sched)%nat ->
  exists all_results m' rs,
    run_until_complete sched finished_at m = (Returns all_results, m')
    /\ all_results ≡ₚ rs
    /\ Forall2 (succeeded m) (queue (task_queue (pool m))) rs
    /\ completed_tasks (stats (pool m'))
       = completed_tasks (stats (pool m)) + qsize (task_queue (pool m))
    /\ failed_tasks (stats (pool m')) = failed_tasks (stats (pool m))
    /\ retried_tasks (stats (pool m')) = retried_tasks (stats (pool m))
    /\ heap m' = heap m
    /\ (completed_tasks (stats (pool m)) + qsize (task_queue (pool m))
        = total_tasks (stats (pool m)) ->
        get_progress (pool m')
        = (total_tasks (stats (pool m)), total_tasks (stats (pool m)))).
Proof.
  intros Hwf Hrun Hnw Hall Hlen.
  destruct (drain_all_succeed (Z.to_nat (num_workers (pool m)))
              (Z.to_nat (num_workers (pool m)))
              (queue (task_queue (pool m))) sched
              (set_pool (started (pool m)) m) (fun _ => []))
    as (m2 & locals & rs & Hd & Hwf2 & Hq2 & Hadv & Hheap & Hsucc & _ & _);
    [lia | exact Hwf | reflexivity | exact Hall | exact Hlen |].
  destruct (run_until_complete_drained sched finished_at m m2 locals rs
              Hrun Hnw Hd Hwf2 Hq2 Hadv)
    as (all & m' & Hr & Hperm & Hheap' & Hran).
  destruct (all_succeeded_counts _ _ _ Hsucc) as [Hns Hnf].
  exists all, m', rs. split; [exact Hr|]. split; [exact Hperm|].
  split; [exact Hsucc|]. destruct Hran.
  rewrite (n_success_Permutation _ _ Hperm), Hns in ran_completed0.
  rewrite (n_failed_Permutation _ _ Hperm), Hnf in ran_failed0.
  pose proof (Forall2_length Hsucc) as Hl.
  rewrite (Permutation_length Hperm), <- Hl in ran_retried0.
  unfold qsize in *.
  split; [exact ran_completed0|]. split; [lia|]. split; [lia|].
  split; [rewrite Hheap', Hheap; reflexivity|].
  intros Hdone. unfold get_progress. f_equal; lia.
Qed.

(** X16. When every queued task has a handler that returns, a run
    executes each task once, in the order of the queue: the results, in
    the order of execution, are successes that carry the ids of the
    queued tasks one by one, and the list returned is a rearrangement of
    them. Nothing fails or is retried, no task object changes, and a
    schedule as long as the queue suffices. If all tasks counted in
    [total_tasks] were completed or queued before, [get_progress]
    reports them all completed. *)
Theorem run_with_handlers_that_return sched finished_at m :
  wf m ->
  is_running (pool m) = false ->
  0 < num_workers (pool m) ->
  Forall (handled m) (queue (task_queue (pool m))) ->
  (length (queue (task_queue (pool m))) <= length sched)%nat ->
  exists all_results m' rs,
    run_until_complete sched finished_at m = (Returns all_results, m')
    /\ all_results ≡ₚ rs
    /\ Forall2 (succeeded m) (queue (task_queue (pool m))) rs
    /\ completed_tasks (stats (pool m'))
       = completed_tasks (stats (pool m)) + qsize (task_queue (pool m))
    /\ failed_tasks (stats (pool m')) = failed_tasks (stats (pool m))
    /\ retried_tasks (stats (pool m')) = retried_tasks (stats (pool m))
    /\ heap m' = heap m
    /\ (completed_tasks (stats (pool m)) + qsize (task_queue (pool m))
        = total_tasks (stats (pool m)) ->
        get_progress (pool m')
        = (total_tasks (stats (pool m)), total_tasks (stats (pool m)))).
Proof. exact (run_all_succeed sched finished_at m). Qed.

(** X17. With a single worker the list returned is in the order of
    submission: when every queued task has a handler that returns,
    [run_until_complete] returns one success per queued task, in the
    order of the queue. *)
Theorem single_worker_returns_results_in_queue_order sched finished_at m :
  wf m ->
  is_running (pool m) = false ->
  num_workers (pool m) = 1 ->
  Forall (handled m) (queue (task_queue (pool m))) ->
  (length (queue (task_queue (pool m))) <= length sched)%nat ->
  exists all_results,
    fst (run_until_complete sched finished_at m) = Returns all_results
    /\ Forall2 (succeeded m) (queue (task_queue (pool m))) all_results.
Proof.
  intros Hwf Hrun Hnw Hall Hlen.
  destruct (drain_all_succeed 1 1
              (queue (task_queue (pool m))) sched
              (set_pool (started (pool m)) m) (fun _ => []))
    as (m2 & locals & rs & Hd & Hwf2 & Hq2 & Hadv & Hheap & Hsucc & Hwids
        & Hloc);
    [lia | exact Hwf | reflexivity | exact Hall | exact Hlen |].
  assert (Hone : Z.to_nat (num_workers (pool m)) = 1%nat) by (rewrite Hnw; reflexivity).
  rewrite (run_until_complete_returned sched finished_at m m2 locals);
    try assumption.
  - rewrite Hone. exists rs. split; [|exact Hsucc]. f_equal.
    change (as_completed finished_at (seq 0 1)) with [0%nat].
    cbn [flat_map]. rewrite app_nil_r, Hloc. cbn [app].
    unfold by_worker. clear -Hwids.
    induction Hwids as [|r rs Hr _ IH]; simpl; [reflexivity|].
    destruct (Z.eqb_spec (worker_id r) (Z.of_nat 0)); [|simpl in *; lia].
    rewrite IH. reflexivity.
  - lia.
  - rewrite Hone. exact Hd.
  - destruct Hadv. rewrite adv_executor0. reflexivity.
  - destruct Hadv. rewrite adv_workers0. reflexivity.
Qed.

(** *** A handler that fails a few times *)

(** The handler raises as long as [left] of the world is positive,
    taking one off each time, and returns once it is zero; reading the
    clock leaves [left] alone. *)
Definition fails_then_returns (h : Handler) (left : World -> nat) : Prop :=
  (forall w, left (snd (time_time w)) = left w)
  /\ forall p w,
       match left w with
       | O => exists d w', h p w = (Returned d, w')
       | S n => exists msg w', h p w = (Raised msg, w') /\ left w' = n
       end.

Lemma execute_task_fails_then_returns self task wid w h left :
  task_handlers self !! task_type task = Some h ->
  fails_then_returns h left ->
  match left w with
  | O => success (fst (_execute_task self task wid w)) = true
  | S n =>
      success (fst (_execute_task self task wid w)) = false
      /\ left (snd (_execute_task self task wid w)) = n
  end.
Proof.
  intros H [Hclock Hh]. unfold _execute_task, failure.
  pose proof (Hclock w) as H1. destruct (time_time w) as [t0 w1].
  cbn [snd] in H1. rewrite H. specialize (Hh (params task) w1).
  rewrite H1 in Hh. destruct (left w) as [|n].
  - destruct Hh as (d & w2 & ->). destruct (time_time w2); reflexivity.
  - destruct Hh as (msg & w2 & -> & Hl). pose proof (Hclock w2) as H2.
    destruct (time_time w2) as [t1 w3]. cbn [fst snd] in *.
    split; [reflexivity | congruence].
Qed.

Lemma drain_fails_then_returns N n h left : forall f sched m locals addr task,
  (0 < n <= N)%nat ->
  quiescent (task_queue (pool m)) ->
  queue (task_queue (pool m)) = [addr] ->
  heap m !! addr = Some task ->
  task_handlers (pool m) !! task_type task = Some h ->
  fails_then_returns h left ->
  left (world m) = f ->
  Z.of_nat f <= max_retries task - retry_count task ->
  (f + 1 <= length sched)%nat ->
  exists m' locals' rs,
    drain n sched m locals = Some (m', locals')
    /\ wf m'
    /\ queue (task_queue (pool m')) = []
    /\ Advanced N m locals m' locals' rs
    /\ map success rs = repeat false f ++ [true]
    /\ Forall (fun r => result_task_id r = task_id task) rs
    /\ heap m' !! addr
       = Some (set_retry_count (retry_count task + Z.of_nat f) task).
Proof.
  induction f as [|f IH];
    intros sched m locals addr task Hn Hqs Hq Hh Hhandler Hflaky Hleft Hbudget
      Hlen;
    (destruct sched as [|s sched]; [simpl in Hlen; lia|]);
    assert (Hwf : wf m)
      by (split; [exact Hqs|]; rewrite Hq; apply Forall_singleton; eauto);
    assert (Hnj : joined (task_queue (pool m)) = false)
      by (destruct Hqs as [_ Hu]; unfold joined; rewrite Hu; unfold qsize;
          rewrite Hq; reflexivity);
    cbn [drain]; rewrite Hnj; (destruct n as [|n']; [lia|]);
    set (worker := (s mod S n')%nat);
    assert (Hworker : (worker < N)%nat)
      by (pose proof (Nat.mod_upper_bound s (S n')); unfold worker; lia);
    rewrite (worker_step_task worker m _ addr [] task Hqs Hq Hh);
    pose proof (execute_task_fails_then_returns (pool m) task worker (world m)
                  h left Hhandler Hflaky) as Hs;
    rewrite Hleft in Hs;
    pose proof (execute_task_task_id (pool m) task worker (world m)) as Hid;
    set (res := fst (_execute_task (pool m) task worker (world m))) in *;
    set (w' := snd (_execute_task (pool m) task worker (world m))) in *;
    pose proof (stepped_wf m addr [] task res w' Hwf Hq Hh) as Hwf';
    pose proof (stepped_advanced N m locals worker addr [] task res w'
                  Hworker Hq Hh) as Hadv.
  - assert (Hst : stepped m addr [] task res w'
      = {| pool := set_stats (record_result res false (stats (pool m)))
             (set_queue
                {| maxsize := maxsize (task_queue (pool m));
                   queue := [];
                   unfinished_tasks :=
                     unfinished_tasks (task_queue (pool m)) - 1 |}
                (pool m));
           heap := heap m; world := w' |}).
    { unfold stepped. rewrite Hs. reflexivity. }
    rewrite Hst in *. rewrite drain_joined.
    2:{ unfold joined. cbn [pool set_stats set_queue task_queue
          unfinished_tasks]. apply Z.eqb_eq.
        destruct Hqs as [_ Hu]. rewrite Hu. unfold qsize. rewrite Hq.
        simpl. lia. }
    eexists _, _, [res]. split; [reflexivity|]. split; [exact Hwf'|].
    split; [reflexivity|]. split; [exact Hadv|].
    split; [simpl; rewrite Hs; reflexivity|].
    split; [apply Forall_singleton; exact Hid|].
    cbn [heap]. rewrite Hh. f_equal. destruct task; unfold set_retry_count;
      cbn; f_equal; lia.
  - destruct Hs as [Hs Hleft'].
    assert (Hretry : (retry_count task <? max_retries task) = true)
      by (apply Z.ltb_lt; lia).
    set (task' := set_retry_count (retry_count task + 1) task).
    assert (Hst : stepped m addr [] task res w'
      = {| pool := set_stats (record_result res true (stats (pool m)))
             (set_queue
                {| maxsize := maxsize (task_queue (pool m));
                   queue := [addr];
                   unfinished_tasks :=
                     unfinished_tasks (task_queue (pool m)) |}
                (pool m));
           heap := <[addr := task']> (heap m); world := w' |}).
    { unfold stepped. rewrite Hs, Hretry. reflexivity. }
    rewrite Hst in *. clear Hst.
    match goal with
    | |- context [drain (S n') sched ?m1 ?l1] =>
        destruct (IH sched m1 l1 addr task' Hn) as
          (m' & locals' & rs & Hd & Hwf2 & Hq2 & Hadv2 & Hsucc & Hids & Hheap)
    end.
    + exact (proj1 Hwf').
    + reflexivity.
    + cbn [heap]. apply list_lookup_insert_eq. eapply lookup_lt_Some.
      exact Hh.
    + exact Hhandler.
    + exact Hflaky.
    + exact Hleft'.
    + unfold task'. cbn [set_retry_count max_retries retry_count]. lia.
    + simpl in Hlen. lia.
    + exists m', locals', ([res] ++ rs). split; [exact Hd|].
      split; [exact Hwf2|]. split; [exact Hq2|].
      split; [eapply Advanced_trans; eassumption|].
      split; [simpl; rewrite Hs, Hsucc; reflexivity|].
      split; [constructor; [exact Hid | exact Hids]|].
      rewrite Hheap. f_equal. unfold task', set_retry_count.
      cbn. f_equal. lia.
Qed.

Lemma counts_of_failures_then_success (rs : list TaskResult) f :
  map success rs = repeat false f ++ [true] ->
  n_success rs = 1 /\ n_failed rs = Z.of_nat f
  /\ length rs = S f.
Proof.
  revert rs. unfold n_success, n_failed.
  induction f as [|f IH]; intros [|r rs] Hmap; try discriminate.
  - injection Hmap as Hr Hrs. destruct rs; [|discriminate]. simpl.
    rewrite Hr. simpl. auto.
  - injection Hmap as Hr Hrs. destruct (IH rs Hrs) as (H1 & H2 & H3).
    simpl. rewrite Hr. simpl. rewrite H3. split; [exact H1|]. split; lia.
Qed.

(** X18. A single queued task whose handler raises on its first [f]
    calls and returns afterwards, with at least [f] retries left,
    produces [f + 1] results: in the order of execution [f] failures
    and then one success, all carrying the task's id. The run counts one
    completed task, [f] failed and [f] retried, and leaves the task's
    [retry_count] raised by [f]. *)
Theorem task_succeeds_after_retries
    sched finished_at m addr task h left f :
  quiescent (task_queue (pool m)) ->
  queue (task_queue (pool m)) = [addr] ->
  heap m !! addr = Some task ->
  is_running (pool m) = false ->
  0 < num_workers (pool m) ->
  task_handlers (pool m) !! task_type task = Some h ->
  fails_then_returns h left ->
  left (world m) = f ->
  Z.of_nat f <= max_retries task - retry_count task ->
  (f + 1 <= length sched)%nat ->
  exists all_results m' rs,
    run_until_complete sched finished_at m = (Returns all_results, m')
    /\ all_results ≡ₚ rs
    /\ map success rs = repeat false f ++ [true]
    /\ Forall (fun r => result_task_id r = task_id task) all_results
    /\ length all_results = S f
    /\ completed_tasks (stats (pool m'))
       = completed_tasks (stats (pool m)) + 1
    /\ failed_tasks (stats (pool m'))
       = failed_tasks (stats (pool m)) + Z.of_nat f
    /\ retried_tasks (stats (pool m'))
       = retried_tasks (stats (pool m)) + Z.of_nat f
    /\ heap m' !! addr
       = Some (set_retry_count (retry_count task + Z.of_nat f) task).
Proof.
  intros Hqs Hq Hh Hrun Hnw Hhandler Hflaky Hleft Hbudget Hlen.
  destruct (drain_fails_then_returns (Z.to_nat (num_workers (pool m)))
              (Z.to_nat (num_workers (pool m))) h left f sched
              (set_pool (started (pool m)) m) (fun _ => []) addr task)
    as (m2 & locals & rs & Hd & Hwf2 & Hq2 & Hadv & Hsucc & Hids & Hheap);
    try assumption; [lia|].
  destruct (run_until_complete_drained sched finished_at m m2 locals rs
              Hrun Hnw Hd Hwf2 Hq2 Hadv)
    as (all & m' & Hr & Hperm & Hheap' & Hran).
  destruct (counts_of_failures_then_success rs f Hsucc) as (Hns & Hnf & Hl).
  exists all, m', rs. split; [exact Hr|]. split; [exact Hperm|].
  split; [exact Hsucc|].
  split; [eapply Permutation_Forall; [symmetry; exact Hperm | exact Hids]|].
  split; [rewrite (Permutation_length Hperm); exact Hl|].
  destruct Hran.
  rewrite (n_success_Permutation _ _ Hperm), Hns in ran_completed0.
  rewrite (n_failed_Permutation _ _ Hperm), Hnf in ran_failed0.
  rewrite (Permutation_length Hperm), Hl in ran_retried0.
  unfold qsize in ran_retried0. rewrite Hq in ran_retried0.
  simpl length in ran_retried0.
  split; [exact ran_completed0|]. split; [exact ran_failed0|].
  split; [lia|]. rewrite Hheap', Hheap. reflexivity.
Qed.

(** *** The shape of results *)

(** A success carries no error (its [data] is whatever the handler
    returned); a failure carries an error message and no data. *)
Definition well_formed (r : TaskResult) : Prop :=
  if success r
  then error r = None
  else data r = None /\ is_Some (error r).

Lemma execute_task_well_formed self task wid w :
  well_formed (fst (_execute_task self task wid w)).
Proof.
  unfold _execute_task, failure, well_formed.
  destruct (time_time w) as [t0 w1].
  destruct (task_handlers self !! task_type task) as [h|].
  - destruct (h (params task) w1) as [[d|msg] w2];
      destruct (time_time w2) as [t1 w3]; cbn; eauto.
  - destruct (time_time w1) as [t1 w3]; cbn; eauto.
Qed.

Lemma worker_loop_body_results wid m rs m' rs' :
  _worker_loop_body wid m rs = Some (m', rs') ->
  rs' = rs
  \/ exists task, rs' = rs ++ [fst (_execute_task (pool m) task wid (world m))].
Proof.
  unfold _worker_loop_body.
  destruct (get (task_queue (pool m))) as [[addr q1]|];
    [|intros [= _ <-]; auto].
  destruct (heap m !! addr) as [task|]; [|discriminate].
  destruct (_execute_task (pool m) task wid (world m)) as [res w'] eqn:E.
  destruct (negb (success res) && (retry_count task <? max_retries task));
    [destruct (put addr q1); [|discriminate]|];
    intros [= _ <-]; right; exists task; rewrite E; reflexivity.
Qed.

Lemma drain_Forall (P : TaskResult -> Prop) n :
  (forall self task wid w,
     (wid < n)%nat -> P (fst (_execute_task self task wid w))) ->
  forall sched m locals m' locals',
    (forall w, Forall P (locals w)) ->
    drain n sched m locals = Some (m', locals') ->
    forall w, Forall P (locals' w).
Proof.
  intros HP. induction sched as [|s sched IH]; intros m locals m' locals' Hl;
    cbn [drain]; destruct (joined (task_queue (pool m)));
    try (intros [= _ <-]; exact Hl); try discriminate.
  destruct n as [|n']; [discriminate|].
  destruct (_worker_loop_body _ m _) as [[m1 rs1]|] eqn:Hstep; [|discriminate].
  apply IH. intros w.
  destruct (decide ((s mod S n')%nat = w)) as [<-|Hne].
  - rewrite fn_lookup_insert.
    apply worker_loop_body_results in Hstep as [->|[task ->]]; [apply Hl|].
    apply Forall_app. split; [apply Hl|]. apply Forall_singleton, HP.
    apply Nat.mod_upper_bound. lia.
  - rewrite fn_lookup_insert_ne by exact Hne. apply Hl.
Qed.

(** X19. Every result that [run_until_complete] returns, from any
    state of the pool and under any schedule, is either a success
    without an error or a failure with an error message and no data,
    and names a worker of [range(num_workers)]. *)
Theorem returned_results_are_well_formed sched finished_at m :
  match fst (run_until_complete sched finished_at m) with
  | Returns all_results =>
      Forall (fun r => well_formed r
                       /\ 0 <= worker_id r < num_workers (pool m))
        all_results
  | _ => True
  end.
Proof.
  unfold run_until_complete.
  destruct (start (pool m)) as [[[]|e] p1] eqn:Hstart; [|exact I].
  assert (Hnum : num_workers p1 = num_workers (pool m)).
  { unfold start in Hstart.
    destruct (is_running (pool m)); [congruence|].
    destruct (num_workers (pool m) <=? 0); [discriminate|].
    injection Hstart as <-. reflexivity. }
  destruct (executor p1) as [mw|].
  2: { destruct (0 <? num_workers p1); [exact I|].
       destruct (joined (task_queue p1)); [|exact I].
       destruct (stop true p1); [constructor | exact I]. }
  destruct (drain _ sched _ _) as [[m2 locals]|] eqn:Hd; [|exact I].
  destruct (stop true (pool m2)) as [p3|]; [|exact I]. cbn [fst].
  apply Forall_flat_map, Forall_forall. intros w _.
  eapply (drain_Forall _ _ _ sched _ _ _ _ _ Hd). Unshelve.
  - intros self task wid w0 Hwid. split; [apply execute_task_well_formed|].
    rewrite execute_task_worker_id, <- Hnum. lia.
  - intros w0. constructor.
Qed.

(** *** Running again *)

Lemma run_until_complete_idle sched finished_at m :
  joined (task_queue (pool m)) = true ->
  is_running (pool m) = false ->
  0 < num_workers (pool m) ->
  exists m',
    run_until_complete sched finished_at m = (Returns [], m')
    /\ stats (pool m') = stats (pool m)
    /\ task_queue (pool m') = task_queue (pool m)
    /\ results (pool m') = []
    /\ is_running (pool m') = false
    /\ heap m' = heap m.
Proof.
  intros Hj Hrun Hnw. unfold run_until_complete.
  rewrite (start_not_running _ Hrun Hnw).
  cbn [started executor num_workers]. fold (started (pool m)).
  rewrite drain_joined by exact Hj.
  unfold stop. cbn [set_pool pool started executor task_queue].
  rewrite Hj. cbn [andb negb num_workers].
  assert (Hnil : forall l : list nat,
            flat_map (fun _ : nat => @nil TaskResult) l = []).
  { induction l as [|x l IH]; [reflexivity | exact IH]. }
  rewrite Hnil. eexists. split; [reflexivity|]. cbn. auto.
Qed.

(** X20. A pool can be run again: after a run has returned, another
    [run_until_complete] returns the empty list at once, under any
    schedule, and leaves the statistics as the first run left them. The
    pool's [results] attribute holds the list of the last run only: the
    results of the first run, then nothing. *)
Theorem second_run_returns_nothing sched finished_at m :
  wf m ->
  is_running (pool m) = false ->
  0 < num_workers (pool m) ->
  (potential m <= length sched)%nat ->
  exists all_results m',
    run_until_complete sched finished_at m = (Returns all_results, m')
    /\ results (pool m') = all_results
    /\ forall sched2 finished_at2, exists m'',
         run_until_complete sched2 finished_at2 m' = (Returns [], m'')
         /\ stats (pool m'') = stats (pool m')
         /\ results (pool m'') = [].
Proof.
  intros Hwf Hrun Hnw Hpot.
  destruct (drain_returns (Z.to_nat (num_workers (pool m)))
              (Z.to_nat (num_workers (pool m))) sched
              (set_pool (started (pool m)) m) (fun _ => []))
    as (m2 & locals & rs & Hd & Hwf2 & Hq2 & Hadv);
    [exact Hwf | lia | exact Hpot |].
  assert (Hj : joined (task_queue (pool m2)) = true).
  { destruct Hwf2 as [[_ Hu] _]. unfold joined. rewrite Hu. unfold qsize.
    rewrite Hq2. reflexivity. }
  pose proof (adv_executor _ _ _ _ _ _ Hadv) as Hex.
  pose proof (adv_workers _ _ _ _ _ _ Hadv) as Hnum.
  cbn [set_pool pool started executor num_workers] in Hex, Hnum.
  unfold run_until_complete at 1.
  rewrite (start_not_running _ Hrun Hnw).
  cbn [started executor num_workers]. rewrite Z.min_id.
  fold (started (pool m)). rewrite Hd.
  unfold stop. rewrite Hex, Hj. cbn [andb negb].
  eexists _, _. split; [reflexivity|]. split; [reflexivity|].
  intros sched2 finished_at2.
  match goal with
  | |- context [run_until_complete sched2 finished_at2 ?m1] =>
      destruct (run_until_complete_idle sched2 finished_at2 m1)
        as (m'' & Hr2 & Hst & _ & Hres & _)
  end; cbn [set_pool set_results pool task_queue is_running num_workers];
    try assumption; try reflexivity; [lia|].
  exists m''. auto.
Qed.

(** *** A pool without workers *)

(** X21. A pool whose [num_workers] is zero or negative cannot be run:
    [run_until_complete] raises the [ValueError] of the executor. The
    queue and the statistics are untouched, but [is_running] has been
    set and stays set, as [get_stats] then reports. *)
Theorem run_without_workers_raises_and_stays_running sched finished_at m :
  is_running (pool m) = false ->
  num_workers (pool m) <= 0 ->
  exists m',
    run_until_complete sched finished_at m
    = (Raises (ValueError "max_workers must be greater than 0"), m')
    /\ is_running (pool m') = true
    /\ report_is_running (get_stats (pool m')) = true
    /\ executor (pool m') = executor (pool m)
    /\ task_queue (pool m') = task_queue (pool m)
    /\ stats (pool m') = stats (pool m)
    /\ heap m' = heap m.
Proof.
  intros Hrun Hnw. unfold run_until_complete, start. rewrite Hrun.
  destruct (Z.leb_spec (num_workers (pool m)) 0); [|lia].
  eexists. split; [reflexivity|]. cbn. auto 10.
Qed.

(** *** DistributedIngestionCoordinator

    The coordinator works on the pool of the machine. [utcnow] is
    [datetime.utcnow()], which stamps a task on creation. *)

Section Coordinator.

Variable utcnow : World -> Q * World.

Record DistributedIngestionCoordinator := mkCoordinator {
  total_items_ingested : Z
}.

Definition Coordinator__init__ : DistributedIngestionCoordinator :=
  {| total_items_ingested := 0 |}.

(** The task built for the item at index [i]. *)
Definition ingest_task (collection_name : string) (i : nat) (item : Item)
    (now : Q) : Task :=
  {| task_id := collection_name +:+ "_" +:+ str_of_nat i;
     task_type := "ingest";
     params := <["item" := AnyItem item]>
                 (<["collection" := AnyStr collection_name]> ∅);
     priority := 0;
     retry_count := 0;
     max_retries := 3;
     created_at := now |}.

(** [for i, item in enumerate(items)], from index [i] on. *)
Fixpoint make_tasks (collection_name : string) (i : nat) (items : list Item)
    (w : World) : list Task * World :=
  match items with
  | [] => ([], w)
  | item :: items' =>
      let (now, w1) := utcnow w in
      let (tasks, w2) := make_tasks collection_name (S i) items' w1 in
      (ingest_task collection_name i item now :: tasks, w2)
  end.

Definition ingest_collection (collection_name : string) (items : list Item)
    (processor : Handler) (sched : list nat) (finished_at : nat -> nat)
    (self : DistributedIngestionCoordinator) (m : Machine)
  : Outcome (list TaskResult) * DistributedIngestionCoordinator * Machine :=
  let p1 := register_handler "ingest" processor (pool m) in
  let (tasks, w1) := make_tasks collection_name 0 items (world m) in
  let addrs := seq (length (heap m)) (length tasks) in
  let m1 := {| pool := p1; heap := heap m ++ tasks; world := w1 |} in
  match add_tasks addrs p1 with
  | None => (Pending, self, m1)
  | Some p2 =>
      match run_until_complete sched finished_at (set_pool p2 m1) with
      | (Returns results, m3) =>
          let successful := Z.of_nat (length (List.filter success results)) in
          (Returns results,
           {| total_items_ingested := total_items_ingested self + successful |},
           m3)
      | (Raises e, m3) => (Raises e, self, m3)
      | (Pending, m3) => (Pending, self, m3)
      end
  end.

Definition get_total_ingested (self : DistributedIngestionCoordinator) : Z :=
  total_items_ingested self.

(** Facts about the coordinator. *)

Lemma add_tasks_handlers addrs : forall (p0 p : WorkerPool),
  add_tasks addrs p0 = Some p -> task_handlers p = task_handlers p0.
Proof.
  induction addrs as [|addr addrs IH]; intros p0 p; simpl.
  - intros [= <-]. reflexivity.
  - unfold add_task at 1. destruct (put addr (task_queue p0)); [|discriminate].
    intros H. apply IH in H. exact H.
Qed.

Lemma make_tasks_lookup name : forall items i w j item,
  items !! j = Some item ->
  exists now,
    fst (make_tasks name i items w) !! j
    = Some (ingest_task name (i + j) item now).
Proof.
  induction items as [|x items IH]; intros i w j item Hj; [discriminate|].
  simpl. destruct (utcnow w) as [now w1].
  destruct (make_tasks name (S i) items w1) as [tasks w2] eqn:Hm.
  destruct j as [|j]; simpl in *.
  - injection Hj as ->. exists now. rewrite Nat.add_0_r. reflexivity.
  - destruct (IH (S i) w1 j item Hj) as [now' Hl]. rewrite Hm in Hl.
    simpl in Hl. exists now'. rewrite Hl. do 3 f_equal. lia.
Qed.

Lemma static_lookup (h h' : list Task) a t :
  static h' = static h -> h !! a = Some t ->
  exists t', h' !! a = Some t'
    /\ task_id t' = task_id t /\ task_type t' = task_type t.
Proof.
  intros Hs Ht. apply (f_equal (fun l => l !! a)) in Hs.
  unfold static in Hs. rewrite !list_lookup_fmap, Ht in Hs.
  destruct (h' !! a) as [t'|]; [|discriminate]. simpl in Hs.
  injection Hs as Hid Hty _ _ _ _. eauto.
Qed.

(** C6 (as the code has it). Every call of [ingest_collection]
    registers its processor under the one task type ["ingest"], in place
    of whatever was registered there, and leaves the handlers of the
    other types alone; the item at index [i] gets a task of type
    ["ingest"] whose id is the collection name, an underscore and the
    decimal index. *)
Theorem ingest_collection_registers_under_ingest
    name items processor sched finished_at self m :
  let m' :=
    snd (ingest_collection name items processor sched finished_at self m) in
  task_handlers (pool m') !! "ingest" = Some processor
  /\ (forall ty, ty <> "ingest" ->
        task_handlers (pool m') !! ty = task_handlers (pool m) !! ty)
  /\ forall i item, items !! i = Some item ->
       exists t,
         heap m' !! (length (heap m) + i)%nat = Some t
         /\ task_id t = name +:+ "_" +:+ str_of_nat i
         /\ task_type t = "ingest".
Proof.
  cbv zeta. unfold ingest_collection.
  destruct (make_tasks name 0 items (world m)) as [tasks w1] eqn:Hm.
  set (p1 := register_handler "ingest" processor (pool m)).
  set (m1 := {| pool := p1; heap := heap m ++ tasks; world := w1 |}).
  assert (Hgoal : forall m' : Machine,
    task_handlers (pool m') = task_handlers p1 ->
    static (heap m') = static (heap m1) ->
    task_handlers (pool m') !! "ingest" = Some processor
    /\ (forall ty, ty <> "ingest" ->
          task_handlers (pool m') !! ty = task_handlers (pool m) !! ty)
    /\ forall i item, items !! i = Some item ->
         exists t,
           heap m' !! (length (heap m) + i)%nat = Some t
           /\ task_id t = name +:+ "_" +:+ str_of_nat i
           /\ task_type t = "ingest").
  { intros m' Hh Hs. rewrite Hh. unfold p1. cbn [register_handler task_handlers].
    split; [apply lookup_insert_eq|].
    split; [intros ty Hne; apply lookup_insert_ne; congruence|].
    intros i item Hi.
    destruct (make_tasks_lookup name items 0%nat (world m) i item Hi)
      as [now Hl]. rewrite Hm in Hl. cbn [fst] in Hl.
    destruct (static_lookup (heap m1) (heap m') (length (heap m) + i)%nat
                (ingest_task name i item now) Hs) as (t & Ht & Hid & Hty).
    { unfold m1. cbn [heap]. rewrite lookup_app_r by lia.
      replace (length (heap m) + i - length (heap m))%nat with i by lia.
      exact Hl. }
    exists t. split; [exact Ht|]. split; [exact Hid | exact Hty]. }
  destruct (add_tasks _ p1) as [p2|] eqn:Hadd.
  - pose proof (run_until_complete_static sched finished_at (set_pool p2 m1))
      as [Hh Hs].
    destruct (run_until_complete sched finished_at (set_pool p2 m1))
      as [out m3].
    cbn [snd set_pool pool heap] in Hh, Hs.
    apply add_tasks_handlers in Hadd.
    destruct out; cbn [snd]; apply Hgoal; congruence.
  - cbn [snd]. apply Hgoal; reflexivity.
Qed.

(** *** Task ids of a collection *)

Lemma str_of_nat_inj a b : str_of_nat a = str_of_nat b -> a = b.
Proof.
  assert (Hdec : forall n,
            option_map Nat.of_uint (NilZero.uint_of_string (str_of_nat n))
            = Some n).
  { intros n. unfold str_of_nat.
    destruct (Nat.to_uint n) eqn:E;
      try (rewrite NilZero.usu by discriminate; simpl; rewrite <- E;
           f_equal; apply DecimalNat.Unsigned.of_to).
    rewrite <- (DecimalNat.Unsigned.of_to n), E. reflexivity. }
  intros Heq. pose proof (Hdec a) as Ha. rewrite Heq, Hdec in Ha.
  congruence.
Qed.

Lemma make_tasks_length name : forall items i w,
  length (fst (make_tasks name i items w)) = length items.
Proof.
  induction items as [|x items IH]; intros i w; simpl; [reflexivity|].
  destruct (utcnow w) as [now w1]. specialize (IH (S i) w1).
  destruct (make_tasks name (S i) items w1). simpl in *. congruence.
Qed.

(** Ids, types and retry fields of the tasks of a collection. *)
Lemma make_tasks_spec name items i w :
  let tasks := fst (make_tasks name i items w) in
  map task_id tasks
  = map (fun j => name +:+ "_" +:+ str_of_nat j) (seq i (length items))
  /\ NoDup (map task_id tasks)
  /\ Forall (fun t => task_type t = "ingest"
                      /\ retry_count t = 0 /\ max_retries t = 3) tasks.
Proof.
  cbv zeta.
  assert (Hids : map task_id (fst (make_tasks name i items w))
                 = map (fun j => name +:+ "_" +:+ str_of_nat j)
                     (seq i (length items))).
  { revert i w. induction items as [|x items IH]; intros i w; simpl;
      [reflexivity|].
    destruct (utcnow w) as [now w1]. specialize (IH (S i) w1).
    destruct (make_tasks name (S i) items w1). simpl in *. congruence. }
  split; [exact Hids|]. split.
  - rewrite Hids. apply NoDup_fmap_2; [|apply NoDup_seq].
    intros a b Hab. apply String.app_inj in Hab. apply String.app_inj in Hab.
    apply str_of_nat_inj. exact Hab.
  - clear Hids. revert i w.
    induction items as [|x items IH]; intros i w; simpl; [constructor|].
    destruct (utcnow w) as [now w1]. specialize (IH (S i) w1).
    destruct (make_tasks name (S i) items w1). simpl in *.
    constructor; [auto | exact IH].
Qed.

(** X22. The tasks that [ingest_collection] builds for a collection
    have the ids [name_0], [name_1], ... in the order of the items,
    whatever the items are: the ids of one call are pairwise distinct,
    and two calls with the same collection name produce the same ids.
    Every task is of type ["ingest"] and starts with [retry_count = 0]
    and [max_retries = 3]. *)
Theorem make_tasks_ids name items i w :
  let tasks := fst (make_tasks name i items w) in
  map task_id tasks
  = map (fun j => name +:+ "_" +:+ str_of_nat j) (seq i (length items))
  /\ NoDup (map task_id tasks)
  /\ Forall (fun t => task_type t = "ingest"
                      /\ retry_count t = 0 /\ max_retries t = 3) tasks.
Proof. exact (make_tasks_spec name items i w). Qed.

(** *** Ingesting a collection *)

(** X23. [ingest_collection] does not return when the pool's bounded
    queue cannot take all the items: the tasks are enqueued before any
    worker is started, so the producer blocks for good. The processor
    has been registered by then. *)
Theorem ingest_collection_blocks_on_small_queue
    name items processor sched finished_at self m :
  quiescent (task_queue (pool m)) ->
  0 < maxsize (task_queue (pool m)) ->
  maxsize (task_queue (pool m))
    < qsize (task_queue (pool m)) + Z.of_nat (length items) ->
  exists m',
    ingest_collection name items processor sched finished_at self m
    = (Pending, self, m')
    /\ task_handlers (pool m') !! "ingest" = Some processor.
Proof.
  intros Hqs Hpos Hfull. unfold ingest_collection.
  pose proof (make_tasks_length name items 0%nat (world m)) as Hlen.
  destruct (make_tasks name 0 items (world m)) as [tasks w1].
  cbn [fst] in Hlen.
  rewrite add_tasks_blocked.
  - eexists. split; [reflexivity|]. cbn. apply lookup_insert_eq.
  - apply Hqs.
  - exact Hpos.
  - rewrite length_seq, Hlen. exact Hfull.
Qed.

Lemma results_follow_tasks (m : Machine) : forall tasks base rs,
  Forall2 (succeeded m) (seq base (length tasks)) rs ->
  (forall j t, tasks !! j = Some t -> heap m !! (base + j)%nat = Some t) ->
  map result_task_id rs = map task_id tasks.
Proof.
  induction tasks as [|t tasks IH]; intros base rs Hsucc Hheap; simpl in *.
  - inversion Hsucc. reflexivity.
  - inversion Hsucc as [|a r q rs' (t' & Ht' & Hid & _) Hrest]; subst.
    simpl. f_equal.
    + pose proof (Hheap 0%nat t eq_refl) as H0. rewrite Nat.add_0_r in H0.
      congruence.
    + apply (IH (S base)); [exact Hrest|]. intros j tj Hj.
      specialize (Hheap (S j) tj Hj).
      replace (S base + j)%nat with (base + S j)%nat by lia. exact Hheap.
Qed.

(** X24. On an idle pool with workers and room in its queue, a
    processor that always returns ingests every item: the call returns
    one successful result per item, which in the order of execution
    carry the ids [name_0], [name_1], ...; the coordinator's total
    grows by the number of items. An empty list of items returns the
    empty list. *)
Theorem ingest_collection_with_a_processor_that_returns
    name items processor sched finished_at self m :
  quiescent (task_queue (pool m)) ->
  queue (task_queue (pool m)) = [] ->
  is_running (pool m) = false ->
  0 < num_workers (pool m) ->
  maxsize (task_queue (pool m)) <= 0
  \/ Z.of_nat (length items) <= maxsize (task_queue (pool m)) ->
  always_returns processor ->
  (length items <= length sched)%nat ->
  exists all_results self' m' rs,
    ingest_collection name items processor sched finished_at self m
    = (Returns all_results, self', m')
    /\ all_results ≡ₚ rs
    /\ map result_task_id rs
       = map (fun j => name +:+ "_" +:+ str_of_nat j) (seq 0 (length items))
    /\ Forall (fun r => success r = true) all_results
    /\ length all_results = length items
    /\ get_total_ingested self'
       = get_total_ingested self + Z.of_nat (length items).
Proof.
  intros Hqs Hq Hrun Hnw Hroom Hret Hlen. unfold ingest_collection.
  pose proof (make_tasks_length name items 0%nat (world m)) as Hlt.
  pose proof (make_tasks_spec name items 0%nat (world m)) as (Hids & _ & Hty).
  destruct (make_tasks name 0 items (world m)) as [tasks w1].
  cbn [fst] in Hlt, Hids, Hty.
  set (p1 := register_handler "ingest" processor (pool m)).
  set (addrs := seq (length (heap m)) (length tasks)).
  destruct (add_tasks_room addrs p1) as [p2 Hadd].
  { unfold addrs, qsize, p1. cbn [register_handler task_queue].
    rewrite Hq, length_seq, Hlt. simpl length. lia. }
  rewrite Hadd.
  destruct (add_tasks_spec addrs p1 p2 Hadd Hqs)
    as (Hqs2 & Hq2 & _ & _ & _ & _ & _ & Hh2 & Hr2 & Hn2).
  unfold p1 in Hq2. cbn [register_handler task_queue] in Hq2.
  rewrite Hq in Hq2.
  simpl in Hq2.
  set (m2 := set_pool p2 {| pool := p1; heap := heap m ++ tasks;
                            world := w1 |}).
  assert (Hlook : forall j t, tasks !! j = Some t ->
            heap m2 !! (length (heap m) + j)%nat = Some t).
  { intros j t Hj. unfold m2. cbn [set_pool heap].
    rewrite lookup_app_r by lia.
    replace (length (heap m) + j - length (heap m))%nat with j by lia.
    exact Hj. }
  assert (Haddrs : forall a, In a addrs ->
            exists j t, a = (length (heap m) + j)%nat /\ tasks !! j = Some t).
  { intros a Ha. apply in_seq in Ha.
    destruct (lookup_lt_is_Some_2 tasks (a - length (heap m))) as [t Ht];
      [lia|].
    exists (a - length (heap m))%nat, t. split; [lia | exact Ht]. }
  destruct (run_all_succeed sched finished_at m2)
    as (all & m' & rs & Hrc & Hperm & Hsucc & _).
  - split; [exact Hqs2|]. unfold m2; cbn [set_pool pool heap]. rewrite Hq2.
    apply Forall_forall. intros a Ha.
    destruct (Haddrs a Ha) as (j & t & -> & Ht). exists t.
    exact (Hlook j t Ht).
  - unfold m2; cbn [set_pool pool]. rewrite Hr2. exact Hrun.
  - unfold m2; cbn [set_pool pool]. rewrite Hn2. exact Hnw.
  - unfold m2; cbn [set_pool pool]. rewrite Hq2. apply Forall_forall. intros a Ha.
    destruct (Haddrs a Ha) as (j & t & -> & Ht).
    exists t, processor. split; [exact (Hlook j t Ht)|].
    split; [|exact Hret]. unfold m2; cbn [set_pool pool]. rewrite Hh2.
    pose proof (Forall_lookup_1 _ _ _ _ Hty Ht) as (Htype & _).
    rewrite Htype. cbn. apply lookup_insert_eq.
  - unfold m2; cbn [set_pool pool]. rewrite Hq2. unfold addrs.
    rewrite length_seq, Hlt. exact Hlen.
  - fold m2. rewrite Hrc. unfold m2 in Hsucc; cbn [set_pool pool] in Hsucc. rewrite Hq2 in Hsucc.
    destruct (all_succeeded_counts _ _ _ Hsucc) as [Hns _].
    pose proof (Forall2_length Hsucc) as Hl.
    eexists _, _, _, rs. split; [reflexivity|]. split; [exact Hperm|].
    split; [|split; [|split]].
    + rewrite (results_follow_tasks m2 tasks (length (heap m)) rs Hsucc Hlook).
      rewrite Hids. reflexivity.
    + eapply Permutation_Forall; [symmetry; exact Hperm|].
      clear -Hsucc. induction Hsucc as [|a r q rs0 (t & _ & _ & Hs) _ IH];
        constructor; assumption.
    + rewrite (Permutation_length Hperm), <- Hl. unfold addrs.
      rewrite length_seq. exact Hlt.
    + unfold get_total_ingested. cbn [total_items_ingested]. f_equal.
      fold (n_success all). rewrite (n_success_Permutation _ _ Hperm), Hns.
      unfold addrs. rewrite length_seq, Hlt. reflexivity.
Qed.

End Coordinator.

End Environment.

Arguments AnyItem {Item} x.
Arguments AnyStr {Item} s.
Arguments AnyInt {Item} z.
Arguments mkTask {Item} task_id task_type params priority retry_count
  max_retries created_at.
Arguments task_id {Item} t.
Arguments task_type {Item} t.
Arguments params {Item} t.
Arguments priority {Item} t.
Arguments retry_count {Item} t.
Arguments max_retries {Item} t.
Arguments created_at {Item} t.
Arguments mkTaskResult {Data} result_task_id success data error
  execution_time worker_id.
Arguments result_task_id {Data} t.
Arguments success {Data} t.
Arguments data {Data} t.
Arguments error {Data} t.
Arguments execution_time {Data} t.
Arguments worker_id {Data} t.
Arguments Returned {Data} d.
Arguments Raised {Data} msg.
Arguments mkWorkerPool {Item Data World} num_workers task_queue results
  executor stats is_running task_handlers.
Arguments num_workers {Item Data World} w.
Arguments task_queue {Item Data World} w.
Arguments results {Item Data World} w.
Arguments executor {Item Data World} w.
Arguments stats {Item Data World} w.
Arguments is_running {Item Data World} w.
Arguments task_handlers {Item Data World} w.
Arguments mkMachine {Item Data World} pool heap world.
Arguments pool {Item Data World} m.
Arguments heap {Item Data World} m.
Arguments world {Item Data World} m.
Arguments register_handler {Item Data World} task_type handler self.
Arguments add_task {Item Data World} task self.
Arguments add_tasks {Item Data World} tasks self.
Arguments get_stats {Item Data World} self.
Arguments get_progress {Item Data World} self.
Arguments set_retry_count {Item} n task.
Arguments _worker_loop_body {Item Data World} time_time format_exc worker_id m
  results.
Arguments run_until_complete {Item Data World} time_time format_exc sched
  finished_at m.
Arguments ingest_collection {Item Data World} time_time format_exc utcnow
  collection_name items processor sched finished_at self m.
Arguments always_fails {Item Data World} h.
Arguments wf {Item Data World} m.
Arguments potential {Item Data World} m.
Arguments n_success {Data} rs.
Arguments n_failed {Data} rs.
Arguments sum_time {Data} rs.
Arguments successes {Data} rs.
Arguments failures {Data} rs.

(** *** Examples

    Items and handler values are strings. The world is the clock and
    the number of handler calls so far; reading the clock takes a
    second. *)

Definition example_time (w : Q * nat) : Q * (Q * nat) :=
  (fst w, ((fst w + 1)%Q, snd w)).
Definition example_utcnow (w : Q * nat) : Q * (Q * nat) := (fst w, w).
Definition example_format_exc (msg : string) : string :=
  "Traceback (most recent call last)".

(** The handlers of [test_worker_pool_error_handling]: one that always
    raises, one that raises on its first two calls. *)
Definition failing_handler (p : gmap string (Any string)) (w : Q * nat)
  : Called string * (Q * nat) :=
  (Raised "Test error", (fst w, S (snd w))).

Definition flaky_handler (p : gmap string (Any string)) (w : Q * nat)
  : Called string * (Q * nat) :=
  if (snd w <? 2)%nat
  then (Raised "Test error", (fst w, S (snd w)))
  else (Returned "success", (fst w, S (snd w))).

Definition example_task (ty : string) : Task string :=
  {| task_id := "task_1"; task_type := ty; params := ∅; priority := 0;
     retry_count := 0; max_retries := 3; created_at := 0 |}.

(** A pool of two workers holding the task at address 0, with [handlers]
    registered. *)
Definition example_pool
    (handlers : gmap string
                  (gmap string (Any string) -> Q * nat
                   -> Called string * (Q * nat)))
  : WorkerPool string string (Q * nat) :=
  {| num_workers := 2;
     task_queue := {| maxsize := 1000; queue := [0%nat];
                      unfinished_tasks := 1 |};
     results := [];
     executor := None;
     stats := {| total_tasks := 1; completed_tasks := 0; failed_tasks := 0;
                 retried_tasks := 0; total_execution_time := 0 |};
     is_running := false;
     task_handlers := handlers |}.

Example example_pool_built :
  match __init__ string string (Q * nat) 2 1000 with
  | Ok p0 =>
      add_task 0 (register_handler "failing_task" failing_handler p0)
      = Some (example_pool {[ "failing_task" := failing_handler ]})
      /\ add_task 0 p0 = Some (example_pool ∅)
  | Raise _ => False
  end.
Proof. split; reflexivity. Qed.

Definition example_machine (ty : string) handlers
  : Machine string string (Q * nat) :=
  {| pool := example_pool handlers; heap := [example_task ty];
     world := (0%Q, 0%nat) |}.

(** The two workers take turns. *)
Definition example_sched : list nat := [0; 1; 0; 1; 0; 1; 0; 1]%nat.

(** C1, refuted as stated: a task without a handler, with retries left,
    is back in the queue after the iteration that failed it, and is
    counted as retried. *)
Lemma unknown_handler_is_retried_counterexample :
  task_handlers (pool (example_machine "no_such_type" ∅)) !! "no_such_type"
  = None
  /\ match _worker_loop_body example_time example_format_exc 0
            (example_machine "no_such_type" ∅) [] with
     | Some (m', rs') =>
         map success rs' = [false]
         /\ queue (task_queue (pool m')) = [0%nat]
         /\ retry_count <$> heap m' !! 0%nat = Some 1
         /\ retried_tasks (stats (pool m')) = 1
     | None => False
     end.
Proof. split; [reflexivity|]. vm_compute. repeat split; reflexivity. Qed.

Lemma example_machine_wf ty handlers : wf (example_machine ty handlers).
Proof.
  split; [split; [right; unfold qsize; simpl; lia | reflexivity]|].
  apply Forall_singleton. eexists. reflexivity.
Defined.

Lemma unknown_handler_fails_and_retries_witness :
  exists res m',
    _worker_loop_body example_time example_format_exc 0
      (example_machine "no_such_type" ∅) [] = Some (m', [] ++ [res])
    /\ success res = false
    /\ result_task_id res = "task_1"
    /\ error res
       = Some (("No handler registered for task type: " +:+ "no_such_type")
               +:+ newline
               +:+ example_format_exc
                     ("No handler registered for task type: "
                      +:+ "no_such_type"))
    /\ failed_tasks (stats (pool m')) = 0 + 1
    /\ queue (task_queue (pool m')) = [] ++ [0%nat]
    /\ heap m' !! 0%nat
       = Some (set_retry_count (0 + 1) (example_task "no_such_type"))
    /\ retried_tasks (stats (pool m')) = 0 + 1.
Proof.
  destruct (unknown_handler_fails_and_retries string string (Q * nat)
              example_time example_format_exc 0
              (example_machine "no_such_type" ∅) [] 0%nat []
              (example_task "no_such_type"))
    as (res & m' & Hstep & Hs & Hid & Herr & Hf & Hq & Hh & Hr).
  - exact (proj1 (example_machine_wf "no_such_type" ∅)).
  - reflexivity.
  - reflexivity.
  - reflexivity.
  - exists res, m'. repeat split; assumption.
Defined.

Lemma failing_handler_always_fails : always_fails failing_handler.
Proof. intros p w. eexists _, _. reflexivity. Defined.

Lemma always_failing_task_yields_k_plus_1_results_witness :
  exists p0 p,
    __init__ string string (Q * nat) 2 1000 = Ok p0
    /\ add_task 0 (register_handler "failing_task" failing_handler p0)
       = Some p
    /\ exists all_results m',
    run_until_complete example_time example_format_exc example_sched id
      {| pool := p; heap := [example_task "failing_task"];
         world := (0%Q, 0%nat) |}
    = (Returns all_results, m')
    /\ Z.of_nat (length all_results) = 3 + 1
    /\ Forall (fun r => result_task_id r = "task_1" /\ success r = false)
         all_results
    /\ retried_tasks (stats (pool m')) = 3
    /\ heap m' !! 0%nat
       = Some (set_retry_count 3 (example_task "failing_task"))
    /\ queue (task_queue (pool m')) = [].
Proof.
  apply (always_failing_task_yields_k_plus_1_results string string (Q * nat)
           example_time example_format_exc 2 1000 "failing_task"
           failing_handler [example_task "failing_task"] 0%nat
           (example_task "failing_task") 3 example_sched id (0%Q, 0%nat)).
  - lia.
  - reflexivity.
  - reflexivity.
  - reflexivity.
  - reflexivity.
  - lia.
  - exact failing_handler_always_fails.
  - simpl. lia.
Defined.

(** C5, refuted as stated: the task is submitted once and retried three
    times, and [total_tasks] is 1 after the run, not 1 + 3. *)
Lemma total_tasks_ignores_retries_counterexample :
  match run_until_complete example_time example_format_exc example_sched id
          (example_machine "failing_task"
             {[ "failing_task" := failing_handler ]}) with
  | (Returns all_results, m') =>
      length all_results = 4%nat
      /\ retried_tasks (stats (pool m')) = 3
      /\ total_tasks (stats (pool m')) = 1
      /\ total_tasks (stats (pool m')) <> 1 + 3
  | _ => False
  end.
Proof. vm_compute. repeat split; try reflexivity. discriminate. Qed.

Lemma total_tasks_counts_add_task_only_witness :
  exists all_results m',
    run_until_complete example_time example_format_exc example_sched id
      (example_machine "failing_task" {[ "failing_task" := failing_handler ]})
    = (Returns all_results, m')
    /\ total_tasks (stats (pool m')) = 0 + Z.of_nat (length [0%nat])
    /\ retried_tasks (stats (pool m'))
       = 0 + (Z.of_nat (length all_results)
              - (0 + Z.of_nat (length [0%nat]))).
Proof.
  apply (total_tasks_counts_add_task_only string string (Q * nat)
           example_time example_format_exc
           {| num_workers := 2;
              task_queue := Queue__init__ 1000;
              results := [];
              executor := None;
              stats := {| total_tasks := 0; completed_tasks := 0;
                          failed_tasks := 0; retried_tasks := 0;
                          total_execution_time := 0 |};
              is_running := false;
              task_handlers := {[ "failing_task" := failing_handler ]} |}
           (example_pool {[ "failing_task" := failing_handler ]})
           [0%nat] [example_task "failing_task"] (0%Q, 0%nat)
           example_sched id).
  - split; [right; unfold qsize; simpl; lia | reflexivity].
  - reflexivity.
  - simpl. lia.
  - reflexivity.
  - apply Forall_singleton. eexists. reflexivity.
  - vm_compute. lia.
Defined.

(** A run in which the task fails twice and then succeeds: the three
    attempts take a second each, and the reported average is 3, the
    duration of the one success being 1. *)
Example average_after_two_failures :
  match run_until_complete example_time example_format_exc example_sched id
          (example_machine "flaky_task" {[ "flaky_task" := flaky_handler ]})
  with
  | (Returns all_results, m') =>
      map success all_results = [false; true; false]
      /\ (sum_time (successes all_results) == 1)%Q
      /\ (avg_execution_time (get_stats (pool m')) == 3)%Q
  | _ => False
  end.
Proof. vm_compute. repeat split; reflexivity. Qed.

(** A run of failures only: four seconds have accumulated and the
    reported average is 0. *)
Example average_after_failures_only :
  match run_until_complete example_time example_format_exc example_sched id
          (example_machine "failing_task"
             {[ "failing_task" := failing_handler ]})
  with
  | (Returns all_results, m') =>
      (total_execution_time (stats (pool m')) == 4)%Q
      /\ avg_execution_time (get_stats (pool m')) = 0%Q
  | _ => False
  end.
Proof. vm_compute. repeat split; reflexivity. Qed.

Lemma avg_execution_time_includes_failed_attempts_witness :
  exists all_results m',
    run_until_complete example_time example_format_exc example_sched id
      (example_machine "flaky_task" {[ "flaky_task" := flaky_handler ]})
    = (Returns all_results, m')
    /\ (total_execution_time (stats (pool m')) == 0 + sum_time all_results)%Q
    /\ completed_tasks (stats (pool m')) = 0 + n_success all_results
    /\ map success all_results = [false; true; false]
    /\ (sum_time (successes all_results) == 1)%Q
    /\ (sum_time (failures all_results) == 2)%Q
    /\ (avg_execution_time (get_stats (pool m')) == 3)%Q.
Proof.
  destruct (avg_execution_time_includes_failed_attempts string string
              (Q * nat) example_time example_format_exc
              (example_pool {[ "flaky_task" := flaky_handler ]})
              [example_task "flaky_task"] (0%Q, 0%nat) example_sched id)
    as (_ & _ & all & m' & Hrun & Htime & Hdone & _).
  - apply example_machine_wf.
  - reflexivity.
  - simpl. lia.
  - vm_compute. lia.
  - exists all, m'. split; [exact Hrun|].
    split; [exact Htime|]. split; [exact Hdone|].
    assert (Hrun' :
      run_until_complete example_time example_format_exc example_sched id
        (example_machine "flaky_task" {[ "flaky_task" := flaky_handler ]})
      = (Returns all, m')) by exact Hrun.
    vm_compute in Hrun'. injection Hrun' as <- <-.
    vm_compute. repeat split; reflexivity || discriminate.
Defined.

(** Two collections ingested one after the other through one pool. *)
Definition first_processor (p : gmap string (Any string)) (w : Q * nat)
  : Called string * (Q * nat) := (Returned "first", w).
Definition second_processor (p : gmap string (Any string)) (w : Q * nat)
  : Called string * (Q * nat) := (Returned "second", w).

Definition example_idle_machine : Machine string string (Q * nat) :=
  {| pool := {| num_workers := 2;
                task_queue := Queue__init__ 1000;
                results := [];
                executor := None;
                stats := {| total_tasks := 0; completed_tasks := 0;
                            failed_tasks := 0; retried_tasks := 0;
                            total_execution_time := 0 |};
                is_running := false;
                task_handlers := ∅ |};
     heap := [];
     world := (0%Q, 0%nat) |}.

(** C6, refuted as stated: after two calls with different collections
    and processors, the tasks of both calls have the same task type, the
    pool has one handler, and it is the second processor. *)
Lemma ingest_task_types_coincide_counterexample :
  match ingest_collection example_time example_format_exc example_utcnow
          "bills" ["hr-1"] first_processor example_sched id
          Coordinator__init__ example_idle_machine with
  | (_, c1, m1) =>
      match ingest_collection example_time example_format_exc example_utcnow
              "votes" ["v-1"] second_processor example_sched id c1 m1 with
      | (_, c2, m2) =>
          map task_type (heap m2) = ["ingest"; "ingest"]
          /\ map task_id (heap m2) = ["bills_0"; "votes_0"]
          /\ size (task_handlers (pool m2)) = 1%nat
          /\ (fun h => fst (h ∅ (0%Q, 0%nat)))
               <$> task_handlers (pool m2) !! "ingest"
             = Some (Returned "second")
          /\ total_items_ingested c2 = 2
      end
  end.
Proof. vm_compute. repeat split; reflexivity. Qed.

Arguments always_returns {Item Data World} h.
Arguments handled {Item Data World} m a.
Arguments succeeded {Item Data World} m a r.
Arguments fails_then_returns {Item Data World} time_time h left.
Arguments well_formed {Data} r.
Arguments make_tasks {Item World} utcnow collection_name i items w.

(** More examples: a handler that returns, and a pool of [nw] workers
    holding two tasks for it. *)
Definition returning_handler (p : gmap string (Any string)) (w : Q * nat)
  : Called string * (Q * nat) :=
  (Returned "done", (fst w, S (snd w))).

Definition example_task_named (id : string) : Task string :=
  {| task_id := id; task_type := "process"; params := ∅; priority := 0;
     retry_count := 0; max_retries := 3; created_at := 0 |}.

Definition example_busy_machine (nw : Z) : Machine string string (Q * nat) :=
  {| pool := {| num_workers := nw;
                task_queue := {| maxsize := 1000; queue := [0; 1]%nat;
                                 unfinished_tasks := 2 |};
                results := [];
                executor := None;
                stats := {| total_tasks := 2; completed_tasks := 0;
                            failed_tasks := 0; retried_tasks := 0;
                            total_execution_time := 0 |};
                is_running := false;
                task_handlers := {[ "process" := returning_handler ]} |};
     heap := [example_task_named "task_0"; example_task_named "task_1"];
     world := (0%Q, 0%nat) |}.

Lemma example_busy_machine_wf nw : wf (example_busy_machine nw).
Proof.
  split; [split; [right; unfold qsize; simpl; lia | reflexivity]|].
  repeat constructor; eexists; reflexivity.
Defined.

Lemma example_busy_machine_handled nw :
  Forall (handled (example_busy_machine nw))
    (queue (task_queue (pool (example_busy_machine nw)))).
Proof.
  repeat constructor; eexists _, returning_handler;
    (split; [reflexivity|]); (split; [reflexivity|]);
    intros p w; eexists _, _; reflexivity.
Defined.

Lemma add_tasks_returns_iff_room_witness :
  (add_tasks [0; 1; 2]%nat
     {| num_workers := 2; task_queue := Queue__init__ 2;
        results := @nil (TaskResult string); executor := None;
        stats := mkStats 0 0 0 0 0; is_running := false;
        task_handlers := (∅ : gmap string (gmap string (Any string) -> Q * nat
                                           -> Called string * (Q * nat))) |}
   = None
   <-> 0 < 2 /\ 2 < 0 + Z.of_nat (length [0; 1; 2]%nat)).
Proof.
  apply (add_tasks_returns_iff_room string string (Q * nat) [0; 1; 2]%nat
           {| num_workers := 2; task_queue := Queue__init__ 2;
              results := []; executor := None;
              stats := mkStats 0 0 0 0 0; is_running := false;
              task_handlers := ∅ |}).
  split; [right; unfold qsize; simpl; lia | reflexivity].
Defined.

Lemma run_ends_every_task_once_witness :
  exists all_results m',
    run_until_complete example_time example_format_exc example_sched id
      (example_machine "flaky_task" {[ "flaky_task" := flaky_handler ]})
    = (Returns all_results, m')
    /\ (completed_tasks (stats (pool m')) - 0)
       + (failed_tasks (stats (pool m')) - 0)
       - (retried_tasks (stats (pool m')) - 0) = 1
    /\ Z.of_nat (length all_results)
       = 1 + (retried_tasks (stats (pool m')) - 0)
    /\ queue (task_queue (pool m')) = []
    /\ is_running (pool m') = false.
Proof.
  apply (run_ends_every_task_once string string (Q * nat) example_time
           example_format_exc example_sched id
           (example_machine "flaky_task" {[ "flaky_task" := flaky_handler ]})).
  - apply example_machine_wf.
  - reflexivity.
  - simpl. lia.
  - vm_compute. lia.
Defined.

Lemma run_with_handlers_that_return_witness :
  exists all_results m' rs,
    run_until_complete example_time example_format_exc example_sched id
      (example_busy_machine 2) = (Returns all_results, m')
    /\ all_results ≡ₚ rs
    /\ Forall2 (succeeded (example_busy_machine 2)) [0; 1]%nat rs
    /\ completed_tasks (stats (pool m')) = 0 + 2.
Proof.
  destruct (run_with_handlers_that_return string string (Q * nat)
              example_time example_format_exc example_sched id
              (example_busy_machine 2))
    as (all & m' & rs & Hr & Hperm & Hsucc & Hdone & _).
  - apply example_busy_machine_wf.
  - reflexivity.
  - simpl. lia.
  - apply example_busy_machine_handled.
  - simpl. lia.
  - exists all, m', rs. auto.
Defined.

Lemma single_worker_returns_results_in_queue_order_witness :
  exists all_results,
    fst (run_until_complete example_time example_format_exc example_sched id
           (example_busy_machine 1)) = Returns all_results
    /\ Forall2 (succeeded (example_busy_machine 1)) [0; 1]%nat all_results.
Proof.
  apply (single_worker_returns_results_in_queue_order string string (Q * nat)
           example_time example_format_exc example_sched id
           (example_busy_machine 1)).
  - apply example_busy_machine_wf.
  - reflexivity.
  - reflexivity.
  - apply example_busy_machine_handled.
  - simpl. lia.
Defined.

(** With two workers the list returned is grouped by worker, so it
    need not follow the queue; with one worker it does. *)
Example results_of_two_tasks :
  match fst (run_until_complete example_time example_format_exc
               [1; 0; 1; 0; 1; 0]%nat id (example_busy_machine 2)),
        fst (run_until_complete example_time example_format_exc
               example_sched id (example_busy_machine 1)) with
  | Returns two, Returns one =>
      map result_task_id two = ["task_1"; "task_0"]
      /\ map worker_id two = [0; 1]
      /\ map result_task_id one = ["task_0"; "task_1"]
      /\ map worker_id one = [0; 0]
  | _, _ => False
  end.
Proof. vm_compute. repeat split; reflexivity. Qed.

(** [flaky_handler] has 2 failures left at the start, and one less
    after each call. *)
Definition flaky_left (w : Q * nat) : nat := (2 - snd w)%nat.

Lemma flaky_handler_fails_then_returns :
  fails_then_returns example_time flaky_handler flaky_left.
Proof.
  split; [reflexivity|].
  intros p [t [|[|c]]]; unfold flaky_left, flaky_handler; cbn.
  - eexists _, _. split; reflexivity.
  - eexists _, _. split; reflexivity.
  - eexists _, _. reflexivity.
Defined.

Lemma task_succeeds_after_retries_witness :
  exists all_results m' rs,
    run_until_complete example_time example_format_exc example_sched id
      (example_machine "flaky_task" {[ "flaky_task" := flaky_handler ]})
    = (Returns all_results, m')
    /\ all_results ≡ₚ rs
    /\ map success rs = repeat false 2 ++ [true]
    /\ length all_results = 3%nat
    /\ completed_tasks (stats (pool m')) = 0 + 1
    /\ failed_tasks (stats (pool m')) = 0 + Z.of_nat 2
    /\ retried_tasks (stats (pool m')) = 0 + Z.of_nat 2.
Proof.
  destruct (task_succeeds_after_retries string string (Q * nat) example_time
              example_format_exc example_sched id
              (example_machine "flaky_task"
                 {[ "flaky_task" := flaky_handler ]})
              0%nat (example_task "flaky_task") flaky_handler flaky_left 2)
    as (all & m' & rs & Hr & Hperm & Hsucc & _ & Hlen & Hc & Hf & Hre & _).
  - exact (proj1 (example_machine_wf _ _)).
  - reflexivity.
  - reflexivity.
  - reflexivity.
  - simpl. lia.
  - reflexivity.
  - exact flaky_handler_fails_then_returns.
  - reflexivity.
  - simpl. lia.
  - simpl. lia.
  - exists all, m', rs. auto 10.
Defined.

Lemma second_run_returns_nothing_witness :
  exists all_results m',
    run_until_complete example_time example_format_exc example_sched id
      (example_busy_machine 2) = (Returns all_results, m')
    /\ results (pool m') = all_results
    /\ forall sched2 finished_at2, exists m'',
         run_until_complete example_time example_format_exc sched2
           finished_at2 m' = (Returns [], m'')
         /\ stats (pool m'') = stats (pool m')
         /\ results (pool m'') = [].
Proof.
  apply (second_run_returns_nothing string string (Q * nat) example_time
           example_format_exc example_sched id (example_busy_machine 2)).
  - apply example_busy_machine_wf.
  - reflexivity.
  - simpl. lia.
  - vm_compute. lia.
Defined.

Lemma run_without_workers_raises_and_stays_running_witness :
  exists m',
    run_until_complete example_time example_format_exc example_sched id
      (example_busy_machine 0)
    = (Raises (ValueError "max_workers must be greater than 0"), m')
    /\ is_running (pool m') = true
    /\ report_is_running (get_stats (pool m')) = true
    /\ executor (pool m') = None
    /\ task_queue (pool m') = task_queue (pool (example_busy_machine 0))
    /\ stats (pool m') = stats (pool (example_busy_machine 0))
    /\ heap m' = heap (example_busy_machine 0).
Proof.
  apply (run_without_workers_raises_and_stays_running string string (Q * nat)
           example_time example_format_exc example_sched id
           (example_busy_machine 0)).
  - reflexivity.
  - simpl. lia.
Defined.

Definition example_small_machine : Machine string string (Q * nat) :=
  {| pool := {| num_workers := 2;
                task_queue := Queue__init__ 2;
                results := [];
                executor := None;
                stats := mkStats 0 0 0 0 0;
                is_running := false;
                task_handlers := ∅ |};
     heap := [];
     world := (0%Q, 0%nat) |}.

Lemma ingest_collection_blocks_on_small_queue_witness :
  exists m',
    ingest_collection example_time example_format_exc example_utcnow
      "bills" ["hr-1"; "hr-2"; "hr-3"] first_processor example_sched id
      Coordinator__init__ example_small_machine
    = (Pending, Coordinator__init__, m')
    /\ task_handlers (pool m') !! "ingest" = Some first_processor.
Proof.
  apply (ingest_collection_blocks_on_small_queue string string (Q * nat)
           example_time example_format_exc example_utcnow
           "bills" ["hr-1"; "hr-2"; "hr-3"] first_processor example_sched id
           Coordinator__init__ example_small_machine).
  - split; [right; unfold qsize; simpl; lia | reflexivity].
  - simpl. lia.
  - unfold qsize. simpl. lia.
Defined.

Lemma first_processor_always_returns : always_returns first_processor.
Proof. intros p w. eexists _, _. reflexivity. Defined.

Lemma ingest_collection_with_a_processor_that_returns_witness :
  exists all_results self' m' rs,
    ingest_collection example_time example_format_exc example_utcnow
      "bills" ["hr-1"; "hr-2"] first_processor example_sched id
      Coordinator__init__ example_small_machine
    = (Returns all_results, self', m')
    /\ all_results ≡ₚ rs
    /\ map result_task_id rs
       = map (fun j => "bills" +:+ "_" +:+ str_of_nat j) (seq 0 2)
    /\ Forall (fun r => success r = true) all_results
    /\ length all_results = 2%nat
    /\ get_total_ingested self' = 0 + Z.of_nat 2.
Proof.
  apply (ingest_collection_with_a_processor_that_returns string string
           (Q * nat) example_time example_format_exc example_utcnow
           "bills" ["hr-1"; "hr-2"] first_processor example_sched id
           Coordinator__init__ example_small_machine).
  - split; [right; unfold qsize; simpl; lia | reflexivity].
  - reflexivity.
  - reflexivity.
  - simpl. lia.
  - right. simpl. lia.
  - exact first_processor_always_returns.
  - simpl. lia.
Defined.


End worker_pool.

(** ** Construction *)

Module construction_props.

Section Pool.

Variables Item Data World : Type.
Variable time_time : World -> Q * World.
Variable format_exc : string -> string.

(** C4 (as the code has it). Neither constructor checks its arguments:
    for all integers, positive or not, [RateLimiter(...)] and
    [WorkerPool(...)] return an instance that holds the arguments as
    given, with empty windows, an empty queue and zeroed counters. *)
Theorem constructors_accept_any_integers rph rpm nw mq :
  rate_limiter.__init__ rph rpm
  = Ok {| rate_limiter.requests_per_hour := rph;
          rate_limiter.requests_per_minute := rpm;
          rate_limiter.hour_window := [];
          rate_limiter.minute_window := [];
          rate_limiter.total_requests := 0;
          rate_limiter.total_throttled := 0 |}
  /\ exists p : worker_pool.WorkerPool Item Data World,
       worker_pool.__init__ Item Data World nw mq = Ok p
       /\ worker_pool.num_workers p = nw
       /\ worker_pool.maxsize (worker_pool.task_queue p) = mq
       /\ worker_pool.queue (worker_pool.task_queue p) = []
       /\ worker_pool.is_running p = false
       /\ worker_pool.task_handlers p = ∅.
Proof.
  split; [reflexivity|]. eexists. split; [reflexivity|].
  repeat split; reflexivity.
Qed.

(** A pool without workers fails when it is run, not when it is
    built: [start] raises the [ValueError] of the executor. *)
Lemma run_without_workers_raises sched finished_at
    (m : worker_pool.Machine Item Data World) :
  worker_pool.is_running (worker_pool.pool m) = false ->
  worker_pool.num_workers (worker_pool.pool m) <= 0 ->
  fst (worker_pool.run_until_complete time_time format_exc sched finished_at m)
  = worker_pool.Raises (ValueError "max_workers must be greater than 0").
Proof.
  intros Hrun Hnw. unfold worker_pool.run_until_complete, worker_pool.start.
  rewrite Hrun.
  destruct (Z.leb_spec (worker_pool.num_workers (worker_pool.pool m)) 0);
    [reflexivity | lia].
Qed.

End Pool.

(** C4, refuted as stated: both constructors return an instance for
    non-positive arguments. *)
Lemma constructors_do_not_validate_counterexample :
  ~ (forall rph rpm, rph <= 0 \/ rpm <= 0 ->
       exists e, rate_limiter.__init__ rph rpm = Raise e)
  /\ ~ (forall nw mq, nw <= 0 ->
          exists e, worker_pool.__init__ string string (Q * nat) nw mq
                    = Raise e).
Proof.
  split.
  - intros H. destruct (H 0 (-5)) as [e He]; [left; lia | discriminate He].
  - intros H. destruct (H 0 1000) as [e He]; [lia | discriminate He].
Qed.

(** A limiter built with a limit of zero raises on its first use. *)
Example zero_limit_raises_on_first_use :
  match rate_limiter.__init__ 100 0 with
  | Ok rl =>
      fst (fst (rate_limiter.wait_if_needed Q
                  rate_limiter_props.example_time
                  rate_limiter_props.example_sleep rl 0%Q))
      = Raise (IndexError "deque index out of range")
  | Raise _ => False
  end.
Proof. reflexivity. Qed.

End construction_props.
